(** * A shallow embedding of the chat server (server/server.js)

    The server exposes a sandboxed tool layer (list, read, write, patch,
    glob, grep) over a workspace directory and a streaming proxy in front
    of an OpenAI-compatible backend.  This development embeds the
    JavaScript of [server/server.js] (and of its later revision, which adds
    a workspace-aware system prompt) and settles the properties the
    specification states about it.  It also embeds [streamChat] of
    [web/src/App.jsx], the client that reads the proxy's event stream, and
    relates what the client hands over to what the proxy wrote.

    Conventions.
    - A JavaScript string is its sequence of UTF-16 code units.
    - The filesystem is an explicit state: a finite map from absolute
      normalized paths to nodes, together with the log of mutations made.
    - Exceptions are values: every function that can throw returns [res].
    - Third-party packages (diff, fast-glob, the RegExp engine, the OpenAI
      client) are fields of a [platform] record; theorems quantify over it. *)

From Stdlib Require Import ZArith Ascii String QArith_base.
From stdpp Require Import gmap list strings.

Local Open Scope N_scope.

(** ** JavaScript strings *)

Module JsString.

Abbreviation jsstring := (list N).

Definition is_continuation (b : N) : bool := (128 <=? b) && (b <? 192).

(** Code units of one code point (a surrogate pair above the BMP). *)
Definition units_of_code_point (cp : N) : jsstring :=
  if cp <? 65536 then [cp]
  else [55296 + (cp - 65536) / 1024; 56320 + (cp - 65536) mod 1024].

(** Text literals of this file are UTF-8; [utf16_of_utf8] gives the
    JavaScript string they denote (ill-formed input decodes to U+FFFD). *)
Fixpoint utf16_of_utf8 (bs : list N) : jsstring :=
  match bs with
  | [] => []
  | b0 :: r0 =>
    if b0 <? 128 then b0 :: utf16_of_utf8 r0
    else if b0 <? 192 then 65533 :: utf16_of_utf8 r0
    else
      match r0 with
      | [] => [65533]
      | b1 :: r1 =>
        if negb (is_continuation b1) then 65533 :: utf16_of_utf8 r0
        else if b0 <? 224 then
          ((b0 - 192) * 64 + (b1 - 128)) :: utf16_of_utf8 r1
        else
          match r1 with
          | [] => [65533]
          | b2 :: r2 =>
            if negb (is_continuation b2) then 65533 :: utf16_of_utf8 r1
            else if b0 <? 240 then
              ((b0 - 224) * 4096 + (b1 - 128) * 64 + (b2 - 128))
                :: utf16_of_utf8 r2
            else
              match r2 with
              | [] => [65533]
              | b3 :: r3 =>
                if negb (is_continuation b3) then 65533 :: utf16_of_utf8 r2
                else
                  units_of_code_point
                    ((b0 - 240) * 262144 + (b1 - 128) * 4096
                     + (b2 - 128) * 64 + (b3 - 128))
                  ++ utf16_of_utf8 r3
              end
          end
      end
  end.

Definition js (s : string) : jsstring :=
  utf16_of_utf8 (List.map (fun b => N_of_ascii (ascii_of_byte b)) (list_byte_of_string s)).

Definition is_high_surrogate (c : N) : bool := (55296 <=? c) && (c <? 56320).
Definition is_low_surrogate (c : N) : bool := (56320 <=? c) && (c <? 57344).

(** [Buffer.byteLength(s, 'utf8')]: the length of the UTF-8 encoding. A
    surrogate pair takes four bytes, a lone surrogate is encoded as
    U+FFFD (three bytes). *)
Fixpoint byteLength (s : jsstring) : Z :=
  match s with
  | [] => 0%Z
  | c :: r =>
    if c <? 128 then (1 + byteLength r)%Z
    else if c <? 2048 then (2 + byteLength r)%Z
    else if is_high_surrogate c then
      match r with
      | d :: r' =>
        if is_low_surrogate d then (4 + byteLength r')%Z
        else (3 + byteLength r)%Z
      | [] => 3%Z
      end
    else (3 + byteLength r)%Z
  end.

(** What a string becomes once written as UTF-8 and read back: lone
    surrogates turn into U+FFFD. *)
Fixpoint toWellFormed (s : jsstring) : jsstring :=
  match s with
  | [] => []
  | c :: r =>
    if is_high_surrogate c then
      match r with
      | d :: r' =>
        if is_low_surrogate d then c :: d :: toWellFormed r'
        else 65533 :: toWellFormed r
      | [] => [65533]
      end
    else if is_low_surrogate c then 65533 :: toWellFormed r
    else c :: toWellFormed r
  end.

(** [x.slice(0, e)] of strings and arrays, for an integer [e]: a negative
    [e] counts from the end. *)
Definition slice0 {A} (l : list A) (e : Z) : list A :=
  let len := Z.of_nat (length l) in
  take (Z.to_nat (if (e <? 0)%Z then Z.max (len + e) 0 else Z.min e len)) l.

(** [s.startsWith(p)] *)
Fixpoint startsWith (s p : jsstring) {struct p} : bool :=
  match p, s with
  | [], _ => true
  | _ :: _, [] => false
  | a :: p', b :: s' => (a =? b) && startsWith s' p'
  end.

Definition eqb (s t : jsstring) : bool := bool_decide (s = t).

(** [s.split(sep)] for a one-unit separator. *)
Fixpoint split_rev (sep : N) (cur : jsstring) (s : jsstring) : list jsstring :=
  match s with
  | [] => [rev cur]
  | c :: r =>
    if c =? sep then rev cur :: split_rev sep [] r
    else split_rev sep (c :: cur) r
  end.
Definition split (sep : N) (s : jsstring) : list jsstring := split_rev sep [] s.

(** [s.split(/\r?\n/)] *)
Fixpoint split_lines_rev (cur : jsstring) (s : jsstring) : list jsstring :=
  match s with
  | [] => [rev cur]
  | c :: r =>
    if c =? 10 then rev cur :: split_lines_rev [] r
    else if c =? 13 then
      match r with
      | d :: r' =>
        if d =? 10 then rev cur :: split_lines_rev [] r'
        else split_lines_rev (c :: cur) r
      | [] => [rev (c :: cur)]
      end
    else split_lines_rev (c :: cur) r
  end.
Definition split_lines (s : jsstring) : list jsstring := split_lines_rev [] s.

(** [l.join(sep)] *)
Fixpoint join (sep : jsstring) (l : list jsstring) : jsstring :=
  match l with
  | [] => []
  | [x] => x
  | x :: r => x ++ sep ++ join sep r
  end.

(** Decimal rendering of a length in a template literal. *)
Fixpoint digits (u : Decimal.uint) : jsstring :=
  match u with
  | Decimal.Nil => []
  | Decimal.D0 r => 48 :: digits r
  | Decimal.D1 r => 49 :: digits r
  | Decimal.D2 r => 50 :: digits r
  | Decimal.D3 r => 51 :: digits r
  | Decimal.D4 r => 52 :: digits r
  | Decimal.D5 r => 53 :: digits r
  | Decimal.D6 r => 54 :: digits r
  | Decimal.D7 r => 55 :: digits r
  | Decimal.D8 r => 56 :: digits r
  | Decimal.D9 r => 57 :: digits r
  end.
Definition of_nat (n : nat) : jsstring := digits (Nat.to_uint n).

End JsString.
Import JsString.

(** ** Node's [path] module (POSIX flavour) *)

Module Path.

Definition slash : N := 47.
Definition dot : jsstring := [46].
Definition dotdot : jsstring := [46; 46].

Definition isAbsolute (p : jsstring) : bool :=
  match p with c :: _ => c =? slash | [] => false end.

(** [normalizeString]: drops empty and [.] segments and resolves [..]
    against the segments kept so far ([stack], innermost first). *)
Fixpoint normalize_segments (allowAboveRoot : bool) (stack segs : list jsstring)
  : list jsstring :=
  match segs with
  | [] => rev stack
  | seg :: rest =>
    if eqb seg [] || eqb seg dot then normalize_segments allowAboveRoot stack rest
    else if eqb seg dotdot then
      match stack with
      | top :: below =>
        if eqb top dotdot
        then normalize_segments allowAboveRoot (dotdot :: stack) rest
        else normalize_segments allowAboveRoot below rest
      | [] =>
        if allowAboveRoot
        then normalize_segments allowAboveRoot [dotdot] rest
        else normalize_segments allowAboveRoot [] rest
      end
    else normalize_segments allowAboveRoot (seg :: stack) rest
  end.

Definition normalizeString (p : jsstring) (allowAboveRoot : bool) : jsstring :=
  join [slash] (normalize_segments allowAboveRoot [] (split slash p)).

(** The right-to-left loop of [path.resolve]: prepend arguments until an
    absolute one is met, falling back on the working directory. *)
Fixpoint resolve_loop (cwd : jsstring) (rargs : list jsstring) (resolved : jsstring)
  : jsstring * bool :=
  match rargs with
  | [] =>
    match cwd with
    | [] => (resolved, false)
    | _ => (cwd ++ [slash] ++ resolved, isAbsolute cwd)
    end
  | p :: rest =>
    match p with
    | [] => resolve_loop cwd rest resolved
    | _ =>
      if isAbsolute p then (p ++ [slash] ++ resolved, true)
      else resolve_loop cwd rest (p ++ [slash] ++ resolved)
    end
  end.

Definition resolve (cwd : jsstring) (args : list jsstring) : jsstring :=
  let '(resolved, absolute) := resolve_loop cwd (rev args) [] in
  let n := normalizeString resolved (negb absolute) in
  if absolute then slash :: n
  else match n with [] => dot | _ => n end.

Definition normalize (p : jsstring) : jsstring :=
  match p with
  | [] => dot
  | _ =>
    let absolute := isAbsolute p in
    let trailing := match last p with Some c => c =? slash | None => false end in
    let n := normalizeString p (negb absolute) in
    match n with
    | [] => if absolute then [slash] else if trailing then dot ++ [slash] else dot
    | _ =>
      let n' := if trailing then n ++ [slash] else n in
      if absolute then slash :: n' else n'
    end
  end.

Definition join (args : list jsstring) : jsstring :=
  match filter (fun a => a <> []) args with
  | [] => dot
  | parts => normalize (JsString.join [slash] parts)
  end.

(** [path.dirname]: scan from the end for the last separator that follows
    a non-separator, never looking at index 0. *)
Fixpoint dirname_scan (rtail : jsstring) (matchedSlash : bool) : option nat :=
  match rtail with
  | [] => None
  | c :: r =>
    if c =? slash then
      if matchedSlash then dirname_scan r true else Some (S (length r))
    else dirname_scan r false
  end.

Definition dirname (p : jsstring) : jsstring :=
  match p with
  | [] => dot
  | c0 :: tl =>
    match dirname_scan (rev tl) true with
    | None => if c0 =? slash then [slash] else dot
    | Some e =>
      if (c0 =? slash) && bool_decide (e = 1%nat) then [slash; slash]
      else take e p
    end
  end.

Fixpoint strip_common (a b : list jsstring) : list jsstring * list jsstring :=
  match a, b with
  | x :: a', y :: b' => if eqb x y then strip_common a' b' else (a, b)
  | _, _ => (a, b)
  end.

Definition segments (p : jsstring) : list jsstring :=
  filter (fun s => s <> []) (split slash p).

(** [path.relative(from, to)]: climb out of what is left of [from] past
    the common leading segments, then descend into what is left of [to]. *)
Definition relative (cwd from to : jsstring) : jsstring :=
  if eqb from to then []
  else
    let from' := resolve cwd [from] in
    let to' := resolve cwd [to] in
    if eqb from' to' then []
    else
      let '(up, down) := strip_common (segments from') (segments to') in
      JsString.join [slash] (List.map (fun _ => dotdot) up ++ down).

End Path.

(** ** Values and exceptions *)

(** The JSON values a request field can hold, as far as the server
    tells them apart: it tests them for truth, for being a string, and
    passes strings on. [JObject] stands for any object or array; numbers
    are integers. *)
Inductive jsval :=
| JUndefined
| JNull
| JBool (b : bool)
| JNum (n : Z)
| JStr (s : jsstring)
| JObject.

#[global] Instance jsval_eq_dec : EqDecision jsval.
Proof. solve_decision. Defined.

Definition truthy (v : jsval) : bool :=
  match v with
  | JUndefined | JNull => false
  | JBool b => b
  | JNum n => negb (n =? 0)%Z
  | JStr s => negb (eqb s [])
  | JObject => true
  end.

(** [v || d] *)
Definition or_else (v d : jsval) : jsval := if truthy v then v else d.

(** A destructuring or parameter default: [d] replaces [undefined] only. *)
Definition default_to (d v : jsval) : jsval :=
  match v with JUndefined => d | _ => v end.

Record exn := mkExn { exn_name : jsstring; exn_message : jsstring }.

Definition Error (msg : jsstring) : exn := mkExn (js "Error") msg.
Definition TypeError (msg : jsstring) : exn := mkExn (js "TypeError") msg.

(** [String(err?.message || err)] *)
Definition error_text (e : exn) : jsstring :=
  match exn_message e with
  | [] => exn_name e
  | m => m
  end.

Inductive res (A : Type) :=
| Ok (a : A)
| Throw (e : exn).
Arguments Ok {A} a.
Arguments Throw {A} e.

(** ** The filesystem as state *)

Inductive node :=
| File (data : jsstring)
| Dir.

Inductive fs_effect :=
| DidMkdir (p : jsstring)
| DidWrite (p : jsstring) (data : jsstring).

Record world := mkWorld {
  files : gmap jsstring node;
  effects : list fs_effect
}.

(** Computations that read and write the filesystem and may throw. The
    state is returned in both outcomes: what was done before a throw stays
    done. *)
Definition M (A : Type) : Type := world -> res A * world.

Definition ret {A} (a : A) : M A := fun w => (Ok a, w).
Definition throw {A} (e : exn) : M A := fun w => (Throw e, w).
Definition bind {A B} (m : M A) (k : A -> M B) : M B :=
  fun w => match m w with
           | (Ok a, w') => k a w'
           | (Throw e, w') => (Throw e, w')
           end.
Definition lift {A} (r : res A) : M A := fun w => (r, w).

Notation "'do' x <- m ; k" := (bind m (fun x => k))
  (at level 10, x name, m at level 100, k at level 200).

(** Node's [fs] calls on that state. A file holds the text that reading
    it as UTF-8 gives; its size on disk is the UTF-8 length of that
    text. *)
Module Fs.

Definition quoted (p : jsstring) : jsstring := [39] ++ p ++ [39].

Definition system_error (code_and_text syscall : string) (p : jsstring) : exn :=
  Error (js code_and_text ++ js ", " ++ js syscall ++ js " " ++ quoted p).

Definition ENOENT := system_error "ENOENT: no such file or directory".
Definition ENOTDIR := system_error "ENOTDIR: not a directory".
Definition EEXIST := system_error "EEXIST: file already exists".
Definition EISDIR_open := system_error "EISDIR: illegal operation on a directory" "open".
Definition EISDIR_read : exn :=
  Error (js "EISDIR: illegal operation on a directory, read").

(** The root directory always exists. *)
Definition lookup (fs : gmap jsstring node) (p : jsstring) : option node :=
  if eqb p [Path.slash] then Some Dir else fs !! p.

Definition existsSync (p : jsstring) : M bool :=
  fun w => (Ok (bool_decide (is_Some (lookup (files w) p))), w).

(** The directories from the root down to [p], [p] included. *)
Fixpoint ancestors_from (prefix : jsstring) (segs : list jsstring) : list jsstring :=
  match segs with
  | [] => []
  | s :: rest =>
    let here := prefix ++ [Path.slash] ++ s in
    here :: ancestors_from here rest
  end.
Definition ancestors (p : jsstring) : list jsstring :=
  ancestors_from [] (Path.segments p).

(** The error for a path at which nothing is found.  The walk from the
    root decides: when the first component that is not a directory is a
    regular file the error is ENOTDIR, otherwise ENOENT. *)
Definition not_found (syscall : string) (p : jsstring) (fs : gmap jsstring node) : exn :=
  match List.find (fun d => match lookup fs d with Some Dir => false | _ => true end)
                  (ancestors (Path.dirname p)) with
  | Some d =>
    match lookup fs d with
    | Some (File _) => ENOTDIR syscall p
    | _ => ENOENT syscall p
    end
  | None => ENOENT syscall p
  end.

(** [fs.readFileSync(p, 'utf8')] *)
Definition readFileSync (p : jsstring) : M jsstring :=
  fun w => match lookup (files w) p with
           | Some (File data) => (Ok data, w)
           | Some Dir => (Throw EISDIR_read, w)
           | None => (Throw (not_found "open" p (files w)), w)
           end.

Fixpoint mkdir_each (target : jsstring) (dirs : list jsstring) : M unit :=
  match dirs with
  | [] => ret tt
  | d :: rest =>
    fun w => match lookup (files w) d with
             | Some Dir => mkdir_each target rest w
             | Some (File _) =>
               (Throw (match rest with
                       | [] => EEXIST "mkdir" target
                       | _ => ENOTDIR "mkdir" target
                       end), w)
             | None =>
               mkdir_each target rest
                 (mkWorld (<[d := Dir]> (files w)) (effects w ++ [DidMkdir d]))
             end
  end.

(** [fs.mkdirSync(p, { recursive: true })] *)
Definition mkdirSync_recursive (p : jsstring) : M unit :=
  mkdir_each p (ancestors p).

(** [fs.writeFileSync(p, data, 'utf8')]: creates or replaces the file. *)
Definition writeFileSync (p : jsstring) (data : jsstring) : M unit :=
  fun w => match lookup (files w) p with
           | Some Dir => (Throw (EISDIR_open p), w)
           | _ =>
             match lookup (files w) (Path.dirname p) with
             | Some Dir =>
               (Ok tt, mkWorld (<[p := File (toWellFormed data)]> (files w))
                               (effects w ++ [DidWrite p data]))
             | _ => (Throw (not_found "open" p (files w)), w)
             end
           end.

Record Dirent := mkDirent { dirent_name : jsstring; dirent_isDirectory : bool }.

Definition basename (p : jsstring) : jsstring :=
  match last (Path.segments p) with Some s => s | None => [] end.

(** [fs.readdirSync(dir, { withFileTypes: true })]; entries come in the
    key order of the map. *)
Definition readdirSync (dir : jsstring) : M (list Dirent) :=
  fun w => match lookup (files w) dir with
           | None => (Throw (not_found "scandir" dir (files w)), w)
           | Some (File _) => (Throw (ENOTDIR "scandir" dir), w)
           | Some Dir =>
             (Ok (omap (fun '(k, n) =>
                          if eqb (Path.dirname k) dir && negb (eqb k dir)
                          then Some (mkDirent (basename k)
                                              (match n with Dir => true | File _ => false end))
                          else None)
                       (map_to_list (files w))), w)
           end.

(** [fs.statSync(p)]: fails when nothing is there.  A file is kept as its
    text, and is taken to be valid UTF-8 on disk, so that its size is the
    byte length of its text. *)
Definition statSync (p : jsstring) : M node :=
  fun w => match lookup (files w) p with
           | Some n => (Ok n, w)
           | None => (Throw (not_found "stat" p (files w)), w)
           end.

Definition stat_size (n : node) : Z :=
  match n with File data => byteLength data | Dir => 0%Z end.

End Fs.

(** ** Third-party packages and the process environment *)

Inductive glob_patterns :=
| PatternValue (v : jsval)
| PatternList (l : list jsstring).

Inductive chat_elem :=
| ElemNull
| ElemMessage (role content : jsval).

Record completion_request := mkRequest {
  req_model : jsstring;
  req_temperature : Q;
  req_stream : bool;
  req_penalties : option (Q * Q);
  req_messages : list chat_elem
}.

(** One part of the backend stream, as the handler looks at it:
    [part.choices?.[0]], its [delta.content] and its [finish_reason]. *)
Record choice := mkChoice {
  delta_content : option jsstring;
  finish_reason : option jsstring
}.

Record part := mkPart { choices0 : option choice }.

Inductive stream_item :=
| Part (p : part)
| StreamThrows (e : exn).

Inductive backend_response :=
| OpenFails (e : exn)
| Stream (items : list stream_item).

Record platform := mkPlatform {
  process_cwd : jsstring;
  env_WORKSPACE_ROOT : option jsstring;
  env_MODEL : option jsstring;
  (** diff: [createTwoFilesPatch(oldName, newName, oldStr, newStr, oldHeader, newHeader)] *)
  createTwoFilesPatch : jsval -> jsval -> jsstring -> jsstring -> jsstring -> jsstring -> jsstring;
  (** diff: [applyPatch(source, patch)], [None] for [false] *)
  applyPatch : jsstring -> jsstring -> res (option jsstring);
  (** fast-glob: [fg.sync(patterns, { cwd, dot: false, ignore })] *)
  fg_sync : gmap jsstring node -> glob_patterns -> jsstring -> list jsstring -> res (list jsstring);
  (** [new RegExp(pattern, flags)] and its [test] *)
  RegExp : jsval -> jsstring -> res (jsstring -> bool);
  (** openai: [client.chat.completions.create(request)] *)
  completions_create : completion_request -> backend_response;
  (** Node's description of a rejected argument, the end of the message of
      an ERR_INVALID_ARG_TYPE: [ Received type number (42)] and the like *)
  received : jsval -> jsstring
}.

(** ** server.js *)

Inductive entry_kind := kind_dir | kind_file.

#[global] Instance entry_kind_eq_dec : EqDecision entry_kind.
Proof. solve_decision. Defined.

Record dir_entry := mkEntry {
  entry_name : jsstring;
  entry_type : entry_kind;
  entry_size : option Z
}.

Record snapshot := mkSnapshot {
  truncated : bool;
  content : jsstring;
  totalBytes : Z
}.

(** What [writeFile] returns: [{ dryRun: true, diff, message }] or
    [{ dryRun: false, applied: true, bytes }]. *)
Inductive write_result :=
| WriteDryRun (diff : jsstring) (message : jsstring)
| WriteApplied (bytes : Z).

(** What [applyUnifiedPatch] returns: [{ dryRun: true, canApply, preview }],
    [{ dryRun: false, applied: false, error }] or
    [{ dryRun: false, applied: true }]. *)
Inductive patch_result :=
| PatchDryRun (canApply : bool) (preview : option jsstring)
| PatchNotApplied (error : jsstring)
| PatchApplied.

Record grep_match := mkMatch {
  match_file : jsstring;
  match_line : Z;
  match_text : jsstring
}.

(** The payload of a server-sent event: [{ content }], [{ message }] or
    [{ error }]. *)
Inductive sse_payload :=
| payload_content (text : jsstring)
| payload_message (text : jsstring)
| payload_error (text : jsstring).

(** What a chat request makes the server do, in order. *)
Inductive action :=
| ResStatusJson (status : Z) (error : jsstring)
| SseInit
| BackendCreate (request : completion_request)
| SseEvent (event : jsstring) (data : sse_payload)
| ResEnd.

(** The body of a chat request; [None] in [body_messages] is anything that
    is not an array. *)
Record chat_body := mkChatBody {
  body_messages : option (list chat_elem);
  body_model : option jsstring;
  body_temperature : option Q
}.

Record tool_args := mkArgs {
  arg_path : jsval;
  arg_content : jsval;
  arg_diff : jsval;
  arg_approve : jsval;
  arg_pattern : jsval;
  arg_cwd : jsval;
  arg_maxBytes : option Z;
  arg_maxMatches : option Z
}.

Inductive args_value :=
| ArgsAbsent
| ArgsNull
| ArgsObject (a : tool_args).

Record tools_body := mkToolsBody {
  tool_name : option jsstring;
  tool_args_value : args_value
}.

Inductive tool_result :=
| ResultList (entries : list dir_entry)
| ResultRead (s : snapshot)
| ResultWrite (r : write_result)
| ResultPatch (r : patch_result)
| ResultGlob (paths : list jsstring)
| ResultGrep (matches : list grep_match).

(** The JSON object sent back: each key is present or not. *)
Record envelope := mkEnvelope {
  ok : option bool;
  result : option tool_result;
  error : option jsstring
}.

Record response := mkResponse {
  status : Z;
  body : envelope
}.

Section Server.

Context (P : platform).

Definition WORKSPACE_ROOT : jsstring :=
  Path.resolve (process_cwd P)
    [match env_WORKSPACE_ROOT P with
     | Some ((_ :: _) as r) => r
     | _ => process_cwd P
     end].

Definition DEFAULT_IGNORES : list jsstring :=
  [js ".git"; js "node_modules"; js "dist"; js "build"; js ".next"; js "out";
   js ".venv"; js "__pycache__"].

Definition ignore_globs : list jsstring :=
  List.map (fun i => js "**/" ++ i ++ js "/**") DEFAULT_IGNORES.

(** [path.resolve(WORKSPACE_ROOT, v)]; a non-string argument is rejected
    by the path module. *)
Definition path_resolve_in_root (v : jsval) : res jsstring :=
  match v with
  | JStr s => Ok (Path.resolve (process_cwd P) [WORKSPACE_ROOT; s])
  | _ => Throw (TypeError (js "The " ++ [34] ++ js "paths[1]" ++ [34]
                           ++ js " argument must be of type string."
                           ++ received P v))
  end.

Definition resolveSafe (relPath : jsval) : res jsstring :=
  match path_resolve_in_root (or_else relPath (JStr Path.dot)) with
  | Throw e => Throw e
  | Ok full =>
    if negb (startsWith full WORKSPACE_ROOT)
    then Throw (Error (js "Path escapes workspace root"))
    else Ok full
  end.

Fixpoint stat_entries (dir : jsstring) (es : list Fs.Dirent) : M (list dir_entry) :=
  match es with
  | [] => ret []
  | e :: rest =>
    do st <- Fs.statSync (Path.join [dir; Fs.dirent_name e]);
    do tl <- stat_entries dir rest;
    ret (mkEntry (Fs.dirent_name e)
                 (if Fs.dirent_isDirectory e then kind_dir else kind_file)
                 (if Fs.dirent_isDirectory e then None else Some (Fs.stat_size st))
         :: tl)
  end.

Definition listDir (relPath : jsval) : M (list dir_entry) :=
  do dir <- lift (resolveSafe (default_to (JStr Path.dot) relPath));
  do entries <- Fs.readdirSync dir;
  stat_entries dir
    (filter (fun e => Fs.dirent_name e ∉ DEFAULT_IGNORES) entries).

Definition readFile (relPath : jsval) (opts_maxBytes : option Z) : M snapshot :=
  do p <- lift (resolveSafe relPath);
  let maxBytes := match opts_maxBytes with
                  | Some n => if (n =? 0)%Z then 200000%Z else n
                  | None => 200000%Z
                  end in
  do data <- Fs.readFileSync p;
  if (byteLength data >? maxBytes)%Z
  then ret (mkSnapshot true (slice0 data maxBytes) (byteLength data))
  else ret (mkSnapshot false data (byteLength data)).

(** The current text of [p], empty when nothing is there. *)
Definition read_before (p : jsstring) : M jsstring :=
  do exists_ <- Fs.existsSync p;
  if exists_ : bool then Fs.readFileSync p else ret [].

Definition writeFile (relPath : jsval) (content : jsstring) (approve : jsval)
  : M write_result :=
  do p <- lift (resolveSafe relPath);
  do before <- read_before p;
  let patch := createTwoFilesPatch P relPath relPath before content
                 (js "before") (js "after") in
  if negb (truthy approve)
  then ret (WriteDryRun patch (js "Dry-run only. Set approve=true to apply."))
  else
    do _ <- Fs.mkdirSync_recursive (Path.dirname p);
    do _ <- Fs.writeFileSync p content;
    ret (WriteApplied (byteLength content)).

Definition applyUnifiedPatch (relPath : jsval) (unified : jsstring) (approve : jsval)
  : M patch_result :=
  do p <- lift (resolveSafe relPath);
  do before <- read_before p;
  if negb (truthy approve)
  then
    do result <- lift (applyPatch P before unified);
    match result with
    | Some text => ret (PatchDryRun true (Some text))
    | None => ret (PatchDryRun false None)
    end
  else
    do result <- lift (applyPatch P before unified);
    match result with
    | None => ret (PatchNotApplied (js "Failed to apply patch."))
    | Some text =>
      do _ <- Fs.mkdirSync_recursive (Path.dirname p);
      do _ <- Fs.writeFileSync p text;
      ret PatchApplied
    end.

Definition globSearch (pattern : jsval) (cwdRel : jsval) : M (list jsstring) :=
  do cwd <- lift (resolveSafe (default_to (JStr Path.dot) cwdRel));
  fun w => (fg_sync P (files w) (PatternValue pattern) cwd ignore_globs, w).

(** The [lines.forEach] of [grep]: one record per line the expression
    matches, numbered from 1. *)
Fixpoint scan_lines (test : jsstring -> bool) (file : jsstring) (idx : Z)
         (lines : list jsstring) : list grep_match :=
  match lines with
  | [] => []
  | line :: rest =>
    if test line
    then mkMatch file (idx + 1) line :: scan_lines test file (idx + 1) rest
    else scan_lines test file (idx + 1) rest
  end.

(** The [for (const f of files)] of [grep]: a file that cannot be read is
    skipped; the loop is left once [out] has [maxMatches] records. *)
Fixpoint grep_files (test : jsstring -> bool) (cwd : jsstring) (maxMatches : Z)
         (fs : list jsstring) (out : list grep_match) : M (list grep_match) :=
  match fs with
  | [] => ret out
  | f :: rest =>
    let full := Path.join [cwd; f] in
    fun w =>
      match Fs.readFileSync full w with
      | (Ok data, w') =>
        let out' := out ++ scan_lines test
                             (Path.relative (process_cwd P) WORKSPACE_ROOT full)
                             0 (split_lines data) in
        if (Z.of_nat (length out') >=? maxMatches)%Z
        then (Ok out', w')
        else grep_files test cwd maxMatches rest out' w'
      | (Throw _, w') => grep_files test cwd maxMatches rest out w'
      end
  end.

Definition grep (pattern : jsval) (cwdRel : jsval) (opt_maxMatches : option Z)
  : M (list grep_match) :=
  let maxMatches := match opt_maxMatches with Some n => n | None => 200%Z end in
  do cwd <- lift (resolveSafe (default_to (JStr Path.dot) cwdRel));
  do regex <- lift (RegExp P pattern (js "i"));
  do fs <- (fun w => (fg_sync P (files w) (PatternList [js "**/*.*"]) cwd ignore_globs, w));
  do out <- grep_files regex cwd maxMatches fs [];
  ret (slice0 out maxMatches).

(** *** The workspace summary of the later revision *)

Definition listSome (patterns : list jsstring) (limit : Z) : M (list jsstring) :=
  do fs <- (fun w => (fg_sync P (files w) (PatternList patterns) WORKSPACE_ROOT
                             ignore_globs, w));
  ret (slice0 fs limit).

Definition names_of (k : entry_kind) (top : list dir_entry) : list jsstring :=
  List.map entry_name
    (filter (fun x => entry_type x = k) top).

Definition count_line (label : jsstring) (n : nat) (tail : jsstring) : jsstring :=
  label ++ js " (" ++ of_nat n ++ js "):" ++ tail.

Definition workspaceSummary : M jsstring :=
  do top <- listDir (JStr Path.dot);
  let rootFiles := slice0 (names_of kind_file top) 30 in
  let rootDirs := slice0 (names_of kind_dir top) 15 in
  do serverFiles <- listSome [js "server/**/*.{js,ts}"] 60;
  do webFiles <- listSome [js "web/**/*.{js,jsx,ts,tsx,css,html}"; js "web/*.{js,ts}"] 80;
  let bullets := List.map (fun f => js " - " ++ f) in
  ret (JsString.join [10]
         ([js "Workspace: " ++ WORKSPACE_ROOT;
           count_line (js "Root files") (length rootFiles)
                      (js " " ++ JsString.join (js ", ") rootFiles);
           count_line (js "Root dirs") (length rootDirs)
                      (js " " ++ JsString.join (js ", ") rootDirs)]
          ++ match serverFiles with
             | [] => []
             | _ => [count_line (js "server/*") (length serverFiles) []]
             end
          ++ bullets serverFiles
          ++ match webFiles with
             | [] => []
             | _ => [count_line (js "web/*") (length webFiles) []]
             end
          ++ bullets webFiles)).

Definition buildSystemPrompt : M jsstring :=
  do summary <- workspaceSummary;
  ret (JsString.join [10]
         [js "Você é um assistente de engenharia de software local, especialista em código e projetos grandes.";
          js "Objetivo: pair programming, revisão, arquitetura, performance e segurança, sempre com foco no código do workspace.";
          js "Estilo: respostas concisas, claras, em Português do Brasil, sem repetir palavras, sem gagueira, sem emojis (a não ser que o usuário peça).";
          js "Se detectar repetição ou texto corrompido, reescreva imediatamente de forma limpa.";
          js "Quando pedir para ler/alterar arquivos, refira-se a eles pelo caminho relativo e proponha diffs ou patches minimalistas.";
          js "Limite-se ao escopo do workspace; se faltarem arquivos, solicite-os pelo caminho.";
          [];
          js "Resumo do workspace (somente para contexto, não repita na resposta a menos que útil):";
          summary]).

(** *** Chat streaming *)

(** [sseEvent(res, event, data)]: one event with its name and payload
    object (the two [res.write] calls and the JSON text of the payload
    are not told apart). *)
Definition sseEvent (event : string) (data : sse_payload) : action :=
  SseEvent (js event) data.

(** The [catch] of the chat handler. *)
Definition stream_failed (e : exn) : list action :=
  [sseEvent "error" (payload_error (error_text e)); ResEnd].

(** The [for await (const part of stream)] loop and what follows it. *)
Fixpoint relay (items : list stream_item) (fullText : jsstring) : list action :=
  match items with
  | [] => [sseEvent "done" (payload_message fullText); ResEnd]
  | StreamThrows e :: _ => stream_failed e
  | Part p :: rest =>
    match choices0 p with
    | None => relay rest fullText
    | Some c =>
      let emitted :=
        match delta_content c with
        | Some ((_ :: _) as text) => Some text
        | _ => None
        end in
      let fullText' := match emitted with Some t => fullText ++ t | None => fullText end in
      let tokens := match emitted with
                    | Some t => [sseEvent "token" (payload_content t)]
                    | None => []
                    end in
      match finish_reason c with
      | Some (_ :: _) => tokens ++ [sseEvent "done" (payload_message fullText'); ResEnd]
      | _ => tokens ++ relay rest fullText'
      end
    end
  end.

Definition open_and_relay (request : completion_request) : list action :=
  BackendCreate request ::
  match completions_create P request with
  | OpenFails e => stream_failed e
  | Stream items => relay items []
  end.

(** The argument of [client.chat.completions.create] in server.js. *)
Definition chat_request (b : chat_body) (messages : list chat_elem) : completion_request :=
  mkRequest (default (js "gpt-4o-mini") (body_model b))
            (default (Qmake 1 5) (body_temperature b))
            true None messages.

(** [app.post('/api/chat/stream')] of server/server.js *)
Definition chat_stream (b : chat_body) : list action :=
  match body_messages b with
  | None => [ResStatusJson 400 (js "messages must be an array")]
  | Some messages => SseInit :: open_and_relay (chat_request b messages)
  end.

Definition DEFAULT_MODEL : jsstring :=
  match env_MODEL P with
  | Some ((_ :: _) as m) => m
  | _ => js "gpt-4o-mini"
  end.

(** [messages.length && messages[0].role === 'system']; reading [role]
    of [null] throws. *)
Definition hasSystem (messages : list chat_elem) : res bool :=
  match messages with
  | [] => Ok false
  | ElemNull :: _ =>
    Throw (TypeError (js "Cannot read properties of null (reading 'role')"))
  | ElemMessage role _ :: _ => Ok (bool_decide (role = JStr (js "system")))
  end.

(** [app.post('/api/chat/stream')] of the later revision: a system prompt
    built from the workspace is put in front unless the request opens
    with one. *)
Definition chat_stream_with_prompt (b : chat_body) (w : world) : list action :=
  match body_messages b with
  | None => [ResStatusJson 400 (js "messages must be an array")]
  | Some messages =>
    SseInit ::
    match buildSystemPrompt w with
    | (Throw e, _) => stream_failed e
    | (Ok prompt, _) =>
      let sys := ElemMessage (JStr (js "system")) (JStr prompt) in
      match hasSystem messages with
      | Throw e => stream_failed e
      | Ok has =>
        let finalMessages := if has then messages else sys :: messages in
        open_and_relay
          (mkRequest (default DEFAULT_MODEL (body_model b))
                     (default (Qmake 1 10) (body_temperature b))
                     true (Some (Qmake 1 2, Qmake 1 5)) finalMessages)
      end
    end
  end.

(** *** The tool dispatcher *)

Definition success (r : tool_result) : response :=
  mkResponse 200 (mkEnvelope (Some true) (Some r) None).

Definition failure (code : Z) (msg : jsstring) : response :=
  mkResponse code (mkEnvelope None None (Some msg)).

(** [res.json({ ok: true, result: call })] inside the handler's [try],
    and the [catch] that answers 500 with the error's text (the
    [console.error] beside it is left out). *)
Definition respond {A} (wrap : A -> tool_result) (call : M A)
  : world -> response * world :=
  fun w => match call w with
           | (Ok a, w') => (success (wrap a), w')
           | (Throw e, w') => (failure 500 (error_text e), w')
           end.

Definition no_args : tool_args :=
  mkArgs JUndefined JUndefined JUndefined JUndefined JUndefined JUndefined None None.

(** Destructuring [args] inside a [case]: the default [{}] stands in for
    an absent [args], [null] cannot be destructured.  The wording of the
    TypeError depends on whether the first property of the pattern has a
    default. *)
Definition destructure (first_key : string) (has_default : bool) (v : args_value)
  : res tool_args :=
  match v with
  | ArgsAbsent => Ok no_args
  | ArgsObject a => Ok a
  | ArgsNull =>
    Throw (TypeError
             (if has_default
              then js "Cannot read properties of null (reading '" ++ js first_key
                   ++ js "')"
              else js "Cannot destructure property '" ++ js first_key
                   ++ js "' of 'args' as it is null."))
  end.

Definition with_args (first_key : string) (has_default : bool) (v : args_value)
           (k : tool_args -> world -> response * world) : world -> response * world :=
  fun w => match destructure first_key has_default v with
           | Throw e => (failure 500 (error_text e), w)
           | Ok a => k a w
           end.

Definition is_string (v : jsval) : option jsstring :=
  match v with JStr s => Some s | _ => None end.

(** [app.post('/api/tools')] *)
Definition tools (b : tools_body) : world -> response * world :=
  match tool_name b with
  | None | Some [] => fun w => (failure 400 (js "Tool name required"), w)
  | Some name =>
    let args := tool_args_value b in
    if eqb name (js "list_dir") then
      with_args "path" true args (fun a =>
        respond ResultList (listDir (default_to (JStr Path.dot) (arg_path a))))
    else if eqb name (js "read_file") then
      with_args "path" false args (fun a =>
        if negb (truthy (arg_path a))
        then fun w => (failure 400 (js "path required"), w)
        else respond ResultRead (readFile (arg_path a) (arg_maxBytes a)))
    else if eqb name (js "write_file") then
      with_args "path" false args (fun a =>
        match truthy (arg_path a), is_string (arg_content a) with
        | true, Some text =>
          respond ResultWrite
            (writeFile (arg_path a) text (default_to (JBool false) (arg_approve a)))
        | _, _ => fun w => (failure 400 (js "path and content required"), w)
        end)
    else if eqb name (js "apply_patch") then
      with_args "path" false args (fun a =>
        match truthy (arg_path a), is_string (arg_diff a) with
        | true, Some unified =>
          respond ResultPatch
            (applyUnifiedPatch (arg_path a) unified
                               (default_to (JBool false) (arg_approve a)))
        | _, _ => fun w => (failure 400 (js "path and diff required"), w)
        end)
    else if eqb name (js "glob") then
      with_args "pattern" true args (fun a =>
        respond ResultGlob
          (globSearch (default_to (JStr (js "**/*")) (arg_pattern a))
                      (default_to (JStr Path.dot) (arg_cwd a))))
    else if eqb name (js "grep") then
      with_args "pattern" false args (fun a =>
        if negb (truthy (arg_pattern a))
        then fun w => (failure 400 (js "pattern required"), w)
        else respond ResultGrep
               (grep (arg_pattern a) (default_to (JStr Path.dot) (arg_cwd a))
                     (arg_maxMatches a)))
    else fun w => (failure 400 (js "Unknown tool: " ++ name), w)
  end.

End Server.

(** ** A runnable platform

    Stand-ins for the third-party packages, used to run the server on
    concrete requests: a whole-file differ and the patcher that
    understands it, a glob that lists every file below the directory, and
    a matcher that looks for the pattern as a literal. *)

Module Sample.

Definition prefixed (c : N) (text : jsstring) : list jsstring :=
  match text with
  | [] => []
  | _ => List.map (fun l => c :: l) (split_lines text)
  end.

(** [-start,count] of a hunk header. *)
Definition hunk_range (text : jsstring) : jsstring :=
  match text with
  | [] => js "0,0"
  | _ => js "1," ++ of_nat (length (split_lines text))
  end.

(** The whole old text removed, the whole new text added, in one hunk. *)
Definition createTwoFilesPatch (oldName newName : jsval) (oldStr newStr : jsstring)
           (oldHeader newHeader : jsstring) : jsstring :=
  let name v := match v with JStr s => s | _ => [] end in
  JsString.join [10]
    ([js "Index: " ++ name oldName;
      js "===================================================================";
      js "--- " ++ name oldName ++ [9] ++ oldHeader;
      js "+++ " ++ name newName ++ [9] ++ newHeader;
      js "@@ -" ++ hunk_range oldStr ++ js " +" ++ hunk_range newStr ++ js " @@"]
     ++ prefixed 45 oldStr ++ prefixed 43 newStr).

(** The lines of the hunk that start with [c], without it. *)
Definition body_lines (c : N) (patch : jsstring) : list jsstring :=
  omap (fun l => match l with
                 | d :: rest => if (d =? c)%N then Some rest else None
                 | [] => None
                 end)
       (drop 5 (split_lines patch)).

(** Applies when the removed lines are exactly the source. *)
Definition applyPatch (source patch : jsstring) : res (option jsstring) :=
  if eqb (JsString.join [10] (body_lines 45 patch)) source
  then Ok (Some (JsString.join [10] (body_lines 43 patch)))
  else Ok None.

Definition fg_sync (fs : gmap jsstring node) (patterns : glob_patterns)
           (cwd : jsstring) (ignore : list jsstring) : res (list jsstring) :=
  Ok (omap (fun '(k, n) =>
              match n with
              | File _ =>
                if startsWith k (cwd ++ [Path.slash])
                then Some (drop (S (length cwd)) k)
                else None
              | Dir => None
              end)
           (map_to_list fs)).

Fixpoint contains (s p : jsstring) : bool :=
  startsWith s p || match s with [] => false | _ :: r => contains r p end.

Definition lower (s : jsstring) : jsstring :=
  List.map (fun c => if (65 <=? c)%N && (c <=? 90)%N then (c + 32)%N else c) s.

Definition RegExp (pattern : jsval) (flags : jsstring) : res (jsstring -> bool) :=
  match pattern with
  | JStr p =>
    if eqb p (js "(")
    then Throw (mkExn (js "SyntaxError")
                      (js "Invalid regular expression: /(/: Unterminated group"))
    else Ok (fun line => contains (lower line) (lower p))
  | _ => Ok (fun _ => false)
  end.

Definition received (v : jsval) : jsstring :=
  match v with
  | JUndefined => js " Received undefined"
  | JNull => js " Received null"
  | JBool b => js " Received type boolean (" ++ (if b then js "true" else js "false")
               ++ js ")"
  | JNum n => js " Received type number (" ++ (if (n <? 0)%Z then js "-" else [])
              ++ of_nat (Z.abs_nat n) ++ js ")"
  | JStr s => js " Received type string ('" ++ s ++ js "')"
  | JObject => js " Received an instance of Object"
  end.

Definition platform_with (backend : completion_request -> backend_response) : platform :=
  mkPlatform (js "/home/dev") (Some (js "/ws")) None
             createTwoFilesPatch applyPatch fg_sync RegExp backend received.

Definition text_part (text : string) : part :=
  mkPart (Some (mkChoice (Some (js text)) None)).

Definition finish_part : part :=
  mkPart (Some (mkChoice None (Some (js "stop")))).

Definition greeting_parts : list part :=
  [text_part "Ol"; text_part "á, "; text_part "mundo"].

Definition greeting : backend_response :=
  Stream (List.map Part (greeting_parts ++ [finish_part])).

Definition platform : platform := platform_with (fun _ => greeting).

Definition disk : world :=
  mkWorld (list_to_map
             [(js "/ws", Dir);
              (js "/ws/notes.txt", File (js "hello
World
HELLO again"));
              (js "/ws/src", Dir);
              (js "/ws/src/a.js", File (js "const hello = 1;
"));
              (js "/ws/accents.txt", File (js "ééé"));
              (js "/ws-private", Dir);
              (js "/ws-private/key.txt", File (js "secret"))])
          [].

(** A patch made against a text that is not the one on disk. *)
Definition stale_patch : jsstring :=
  createTwoFilesPatch (JStr (js "notes.txt")) (JStr (js "notes.txt"))
                      (js "an older text") (js "a newer text")
                      (js "before") (js "after").

Definition question : list chat_elem :=
  [ElemMessage (JStr (js "user")) (JStr (js "Diga olá"))].

(** The system prompt built on [disk]. *)
Definition prompt : jsstring :=
  match fst (buildSystemPrompt platform disk) with
  | Ok text => text
  | Throw _ => []
  end.

Definition own_system : list chat_elem :=
  ElemMessage (JStr (js "system")) (JStr (js "Responda em uma linha.")) :: question.

Definition read_request (path : string) : tools_body :=
  mkToolsBody (Some (js "read_file"))
              (ArgsObject (mkArgs (JStr (js path)) JUndefined JUndefined JUndefined
                                  JUndefined JUndefined None None)).

End Sample.

(** ** Notions the properties are stated with *)

(** [p] is [root] or lies below it, segment by segment. *)
Fixpoint segments_below (root p : list jsstring) : bool :=
  match root, p with
  | [], _ => true
  | _ :: _, [] => false
  | a :: root', b :: p' => eqb a b && segments_below root' p'
  end.

Definition inside_root (root p : jsstring) : bool :=
  segments_below (Path.segments root) (Path.segments p).

(** The text currently at [p], empty when there is no file. *)
Definition current_text (w : world) (p : jsstring) : jsstring :=
  match Fs.lookup (files w) p with
  | Some (File data) => data
  | _ => []
  end.

Definition is_directory (w : world) (p : jsstring) : bool :=
  match Fs.lookup (files w) p with
  | Some Dir => true
  | _ => false
  end.



(** The files written, in order. *)
Definition writes (es : list fs_effect) : list (jsstring * jsstring) :=
  omap (fun e => match e with DidWrite p data => Some (p, data) | DidMkdir _ => None end) es.


(** The text a part of the backend stream carries, if any, and whether it
    carries the finish marker. *)
Definition content_of (p : part) : option jsstring :=
  match choices0 p with
  | Some c =>
    match delta_content c with
    | Some ((_ :: _) as text) => Some text
    | _ => None
    end
  | None => None
  end.

Definition finishes (p : part) : bool :=
  match choices0 p with
  | Some c =>
    match finish_reason c with
    | Some (_ :: _) => true
    | _ => false
    end
  | None => false
  end.

Definition token (text : jsstring) : action := sseEvent "token" (payload_content text).
Definition done_ (fullText : jsstring) : action := sseEvent "done" (payload_message fullText).

Definition is_backend_create (a : action) : bool :=
  match a with BackendCreate _ => true | _ => false end.

Definition is_sse_event (a : action) : bool :=
  match a with SseEvent _ _ => true | _ => false end.

(** The first message is an object whose role is ['system']. *)
Definition opens_with_system (messages : list chat_elem) : bool :=
  match messages with
  | ElemMessage role _ :: _ => bool_decide (role = JStr (js "system"))
  | _ => false
  end.

(** *** grep, as the specification words it

    Records are taken line by line and file by file until [n] of them
    have been collected; collection stops there, in the middle of a file
    if need be. A file that cannot be read contributes nothing. *)

Fixpoint take_matching (n : nat) (test : jsstring -> bool) (file : jsstring) (idx : Z)
         (lines : list jsstring) : list grep_match :=
  match n, lines with
  | O, _ => []
  | _, [] => []
  | S n', line :: rest =>
    if test line
    then mkMatch file (idx + 1) line :: take_matching n' test file (idx + 1) rest
    else take_matching n test file (idx + 1) rest
  end.

Fixpoint collect_until (P : platform) (n : nat) (test : jsstring -> bool) (cwd : jsstring)
         (fs : list jsstring) (w : world) : list grep_match :=
  match n, fs with
  | O, _ => []
  | _, [] => []
  | _, f :: rest =>
    let full := Path.join [cwd; f] in
    match Fs.lookup (files w) full with
    | Some (File data) =>
      let found := take_matching n test
                     (Path.relative (process_cwd P) (WORKSPACE_ROOT P) full)
                     0 (split_lines data) in
      found ++ collect_until P (n - length found) test cwd rest w
    | _ => collect_until P n test cwd rest w
    end
  end.

(** The text of the file at [q], if a file is there. *)
Definition file_text (w : world) (q : jsstring) : option jsstring :=
  match files w !! q with
  | Some (File data) => Some data
  | _ => None
  end.

(** The records of one file, none when it cannot be read. *)
Definition file_matches (P : platform) (test : jsstring -> bool) (cwd : jsstring)
           (w : world) (f : jsstring) : list grep_match :=
  match Fs.lookup (files w) (Path.join [cwd; f]) with
  | Some (File data) =>
    scan_lines test
               (Path.relative (process_cwd P) (WORKSPACE_ROOT P) (Path.join [cwd; f]))
               0 (split_lines data)
  | _ => []
  end.

Definition all_matches (P : platform) (test : jsstring -> bool) (cwd : jsstring)
           (w : world) (fs : list jsstring) : list grep_match :=
  concat (List.map (file_matches P test cwd w) fs).

(** [grep] with the loop the specification describes in place of the
    loop of the code. *)
Definition grep_as_specified (P : platform) (pattern : jsval) (cwdRel : jsval)
           (opt_maxMatches : option Z) : M (list grep_match) :=
  let maxMatches := match opt_maxMatches with Some n => n | None => 200%Z end in
  do cwd <- lift (resolveSafe P (default_to (JStr Path.dot) cwdRel));
  do regex <- lift (RegExp P pattern (js "i"));
  do fs <- (fun w => (fg_sync P (files w) (PatternList [js "**/*.*"]) cwd ignore_globs, w));
  fun w => (Ok (collect_until P (Z.to_nat maxMatches) regex cwd fs w), w).

(** The two shapes an answer can take. *)
Definition success_envelope (r : response) : Prop :=
  status r = 200%Z /\ ok (body r) = Some true
  /\ is_Some (result (body r)) /\ error (body r) = None.

Definition error_envelope (r : response) : Prop :=
  (status r = 400%Z \/ status r = 500%Z) /\ ok (body r) = None
  /\ result (body r) = None /\ is_Some (error (body r)).

(** * Further notions *)

(** ** Paths *)

(** A segment a normalized path is made of. *)
Definition plain_segment (s : jsstring) : Prop :=
  s <> [] /\ s <> Path.dot /\ s <> Path.dotdot /\ Path.slash ∉ s.

(** The segments [path.resolve(root, rel)] ends with, for a normalized
    [root] whose segments are [rsegs]. *)
Definition resolved_segments (rsegs : list jsstring) (rel : jsstring) : list jsstring :=
  Path.normalize_segments false (if Path.isAbsolute rel then [] else rev rsegs)
                          (split Path.slash rel).

(** ** Reading and streaming *)

(** The limit [readFile] works with. *)
Definition effective_maxBytes (opt : option Z) : Z :=
  match opt with
  | Some n => if (n =? 0)%Z then 200000%Z else n
  | None => 200000%Z
  end.

(** The event the [catch] of the chat handler sends. *)
Definition error_event (e : exn) : action :=
  sseEvent "error" (payload_error (error_text e)).

(** ** The response on the wire and the client that reads it (web/src/App.jsx) *)

(** What [JSON.parse] gives, as far as the client looks at it: [null], or
    a value with its [content] and [error] properties ([undefined] when
    it has none). *)
Inductive parsed :=
| parsed_null
| parsed_value (content error : jsval).

(** [JSON.stringify] on the payload objects of the server and [JSON.parse]
    on the client. *)
Record json_codec := mkCodec {
  JSON_stringify : sse_payload -> jsstring;
  JSON_parse : jsstring -> res parsed
}.

(** What the client finds in the payload the server made, once it has
    been written out and parsed back. *)
Definition object_of (d : sse_payload) : parsed :=
  match d with
  | payload_content t => parsed_value (JStr t) JUndefined
  | payload_message _ => parsed_value JUndefined JUndefined
  | payload_error t => parsed_value JUndefined (JStr t)
  end.

(** What is assumed of the codec on a payload: the text of an object is
    in braces and on one line, and parsing it gives the object back. *)
Definition codec_agrees (J : json_codec) (d : sse_payload) : Prop :=
  head (JSON_stringify J d) = Some 123
  /\ last (JSON_stringify J d) = Some 125
  /\ (10 ∉ JSON_stringify J d)
  /\ JSON_parse J (JSON_stringify J d) = Ok (object_of d).

Module Wire.

(** The text each action of the server puts in the response body:
    [res.json({ error })], the [res.write] of [sseInit], the two
    [res.write] of [sseEvent]. *)
Definition text_of (J : json_codec) (a : action) : jsstring :=
  match a with
  | ResStatusJson _ err => JSON_stringify J (payload_error err)
  | SseInit => [10]
  | BackendCreate _ => []
  | SseEvent event data =>
    (js "event: " ++ event ++ [10])
    ++ (js "data: " ++ JSON_stringify J data ++ [10; 10])
  | ResEnd => []
  end.

Definition body_text (J : json_codec) (trace : list action) : jsstring :=
  concat (List.map (text_of J) trace).

End Wire.

Module Client.

(** White space and line terminators, as [String.prototype.trim] knows
    them. *)
Definition is_white_space (c : N) : bool :=
  bool_decide (c ∈ [9; 10; 11; 12; 13; 32; 160; 5760; 8192; 8193; 8194; 8195; 8196;
                    8197; 8198; 8199; 8200; 8201; 8202; 8232; 8233; 8239; 8287;
                    12288; 65279]).

Fixpoint trim_start (s : jsstring) : jsstring :=
  match s with
  | [] => []
  | c :: r => if is_white_space c then trim_start r else s
  end.

Definition trim (s : jsstring) : jsstring :=
  rev (trim_start (rev (trim_start s))).

(** [buffer.indexOf('\n\n')] *)
Fixpoint indexOf_blank_line (buffer : jsstring) : option nat :=
  match buffer with
  | [] => None
  | c :: r =>
    if (c =? 10) && (match r with d :: _ => d =? 10 | [] => false end)
    then Some 0%nat
    else S <$> indexOf_blank_line r
  end.

Inductive client_exn :=
| NoStream                      (** [new Error('No stream')] *)
| BadJson (e : exn)             (** thrown by [JSON.parse] *)
| NullData                      (** a property read on [null] *)
| StreamError (message : jsval) (** [new Error(data.error || 'Stream error')] *).

Inductive step :=
| Continue
| Return
| Throws (e : client_exn).

(** The three [if] on the event's name. The tokens are the arguments
    [onToken] is called with. *)
Definition on_event (event : jsstring) (data : parsed) : list jsval * step :=
  if eqb event (js "token") then
    match data with
    | parsed_null => ([], Throws NullData)
    | parsed_value content _ => ([or_else content (JStr [])], Continue)
    end
  else if eqb event (js "done") then ([], Return)
  else if eqb event (js "error") then
    match data with
    | parsed_null => ([], Throws NullData)
    | parsed_value _ error =>
      ([], Throws (StreamError (or_else error (JStr (js "Stream error")))))
    end
  else ([], Continue).

(** The body of the inner [while]: one block of the buffer. *)
Definition handle_block (J : json_codec) (block : jsstring) : list jsval * step :=
  let lines := split 10 (trim block) in
  let eventLine := List.find (fun l => startsWith l (js "event:")) lines in
  let dataLine := default (js "data: {}")
                          (List.find (fun l => startsWith l (js "data:")) lines) in
  match eventLine with
  | None => ([], Continue)
  | Some eventLine =>
    let event := trim (drop 6 eventLine) in
    let text := match trim (drop 5 dataLine) with [] => js "{}" | t => t end in
    match JSON_parse J text with
    | Throw e => ([], Throws (BadJson e))
    | Ok data => on_event event data
    end
  end.

(** The inner [while]: blocks are taken off the front of the buffer as
    long as it holds a blank line. Every turn shortens the buffer, so its
    length is fuel enough. *)
Fixpoint drain (J : json_codec) (fuel : nat) (buffer : jsstring)
  : list jsval * (jsstring + step) :=
  match fuel with
  | O => ([], inl buffer)
  | S fuel' =>
    match indexOf_blank_line buffer with
    | None => ([], inl buffer)
    | Some idx =>
      let block := take idx buffer in
      let buffer' := drop (idx + 2) buffer in
      match handle_block J block with
      | (tokens, Continue) =>
        let '(more, r) := drain J fuel' buffer' in (tokens ++ more, r)
      | (tokens, s) => (tokens, inr s)
      end
    end
  end.

(** The outer [while (true)]: one turn per chunk read; the end of the body
    leaves the loop and the function returns. *)
Fixpoint read_loop (J : json_codec) (chunks : list jsstring) (buffer : jsstring)
  : list jsval * option client_exn :=
  match chunks with
  | [] => ([], None)
  | chunk :: rest =>
    let buffer' := buffer ++ chunk in
    match drain J (length buffer') buffer' with
    | (tokens, inl buffer'') =>
      let '(more, r) := read_loop J rest buffer'' in (tokens ++ more, r)
    | (tokens, inr (Throws e)) => (tokens, Some e)
    | (tokens, inr _) => (tokens, None)
    end
  end.

(** [streamChat]: the tokens handed to [onToken], and the exception it
    ends with, if any. [None] as body is a response without one. *)
Definition streamChat (J : json_codec) (body : option (list jsstring))
  : list jsval * option client_exn :=
  match body with
  | None => ([], Some NoStream)
  | Some chunks => read_loop J chunks []
  end.

End Client.

(** [new Error(data.error || 'Stream error')] for an error text. *)
Definition thrown_for (text : jsstring) : Client.client_exn :=
  Client.StreamError (or_else (JStr text) (JStr (js "Stream error"))).

(** The payloads of the events of a response, the tokens among them, and
    the error the client is to throw for it. *)
Definition payloads (trace : list action) : list sse_payload :=
  omap (fun a => match a with SseEvent _ d => Some d | _ => None end) trace.

Definition tokens_sent (trace : list action) : list jsval :=
  omap (fun d => match d with payload_content t => Some (JStr t) | _ => None end)
       (payloads trace).

Definition error_sent (trace : list action) : option Client.client_exn :=
  head (omap (fun d => match d with
                       | payload_error t => Some (thrown_for t)
                       | _ => None
                       end)
             (payloads trace)).

(** How [streamChat] ends once the buffer has been drained for the last
    time. *)
Definition finish (x : list jsval * (jsstring + Client.step))
  : list jsval * option Client.client_exn :=
  match x with
  | (tokens, inr (Client.Throws e)) => (tokens, Some e)
  | (tokens, _) => (tokens, None)
  end.

(** The inner loop on a whole buffer. *)
Definition drain_all (J : json_codec) (buffer : jsstring)
  : list jsval * (jsstring + Client.step) :=
  Client.drain J (length buffer) buffer.

(** The text of one event without its closing blank line, possibly with
    the line feed of [sseInit] in front. *)
Definition event_block (lead event json : jsstring) : jsstring :=
  lead ++ (js "event: " ++ event) ++ 10 :: js "data: " ++ json.

(** ** A runnable JSON codec

    A stand-in for [JSON.stringify] on the three payload objects and for
    [JSON.parse] on such texts, used to run the client on concrete
    responses. *)

Module SampleJson.

Definition hex_digit (n : N) : N := if n <? 10 then 48 + n else 87 + n.

Definition escape_unit (c : N) : jsstring :=
  if c =? 34 then [92; 34]
  else if c =? 92 then [92; 92]
  else if c =? 10 then [92; 110]
  else if c =? 13 then [92; 114]
  else if c =? 9 then [92; 116]
  else if c <? 32 then [92; 117; 48; 48; hex_digit (c / 16); hex_digit (c mod 16)]
  else [c].

Definition quote (s : jsstring) : jsstring :=
  [34] ++ concat (List.map escape_unit s) ++ [34].

Definition object (key : string) (value : jsstring) : jsstring :=
  [123] ++ quote (js key) ++ [58] ++ quote value ++ [125].

Definition stringify (d : sse_payload) : jsstring :=
  match d with
  | payload_content t => object "content" t
  | payload_message t => object "message" t
  | payload_error t => object "error" t
  end.

Definition hex_value (c : N) : option N :=
  if (48 <=? c) && (c <=? 57) then Some (c - 48)
  else if (97 <=? c) && (c <=? 102) then Some (c - 87)
  else if (65 <=? c) && (c <=? 70) then Some (c - 55)
  else None.

(** Reads a string body up to its closing quote: the string and what
    follows the quote. *)
Fixpoint unquote (s : jsstring) : option (jsstring * jsstring) :=
  match s with
  | [] => None
  | c :: r =>
    if c =? 34 then Some ([], r)
    else if c =? 92 then
      match r with
      | e :: r' =>
        if e =? 117 then
          match r' with
          | a :: b :: c' :: d :: r'' =>
            match hex_value a, hex_value b, hex_value c', hex_value d, unquote r'' with
            | Some va, Some vb, Some vc, Some vd, Some (t, rest) =>
              Some ((va * 4096 + vb * 256 + vc * 16 + vd) :: t, rest)
            | _, _, _, _, _ => None
            end
          | _ => None
          end
        else
          let plain := if e =? 110 then Some 10
                       else if e =? 114 then Some 13
                       else if e =? 116 then Some 9
                       else if e =? 98 then Some 8
                       else if e =? 102 then Some 12
                       else if (e =? 34) || (e =? 92) || (e =? 47) then Some e
                       else None in
          match plain, unquote r' with
          | Some u, Some (t, rest) => Some (u :: t, rest)
          | _, _ => None
          end
      | [] => None
      end
    else if c <? 32 then None
    else match unquote r with
         | Some (t, rest) => Some (c :: t, rest)
         | None => None
         end
  end.

Definition syntax_error : exn :=
  mkExn (js "SyntaxError") (js "Unexpected token in JSON").

Definition parse (text : jsstring) : res parsed :=
  if eqb text (js "{}") then Ok (parsed_value JUndefined JUndefined)
  else if eqb text (js "null") then Ok parsed_null
  else
    match text with
    | 123 :: 34 :: r =>
      match unquote r with
      | Some (key, 58 :: 34 :: r') =>
        match unquote r' with
        | Some (value, [125]) =>
          Ok (parsed_value
                (if eqb key (js "content") then JStr value else JUndefined)
                (if eqb key (js "error") then JStr value else JUndefined))
        | _ => Throw syntax_error
        end
      | _ => Throw syntax_error
      end
    | _ => Throw syntax_error
    end.

Definition codec : json_codec := mkCodec stringify parse.

End SampleJson.

(** ** Inputs for the worked cases of the later properties *)

Module Scenario.

(** A patch made against the text of notes.txt as it is on [Sample.disk]. *)
Definition notes_patch : jsstring :=
  Sample.createTwoFilesPatch (JStr (js "notes.txt")) (JStr (js "notes.txt"))
                             (current_text Sample.disk (js "/ws/notes.txt")) (js "bye")
                             (js "before") (js "after").

(** [Sample.disk] after notes.txt has been overwritten. *)
Definition after_write : world :=
  snd (writeFile Sample.platform (JStr (js "notes.txt")) (js "bye") (JBool true)
                 Sample.disk).

(** The test [Sample.RegExp] compiles for the pattern [hello]. *)
Definition hello_test (line : jsstring) : bool :=
  Sample.contains (Sample.lower line) (Sample.lower (js "hello")).

(** Arguments with a path and a [cwd] that leave the workspace. *)
Definition escaping_args : tool_args :=
  mkArgs (JStr (js "../etc/passwd")) (JStr (js "x")) (JStr (js "d")) JUndefined
         (JStr (js "a")) (JStr (js "../..")) None None.

(** A backend that goes on after the finish marker. *)
Definition talkative : platform :=
  Sample.platform_with
    (fun _ => Stream (List.map Part Sample.greeting_parts
                      ++ Part Sample.finish_part
                      :: [Part (Sample.text_part "never sent");
                          StreamThrows (Error (js "late"))])).

Definition ask : chat_body := mkChatBody (Some Sample.question) None None.

(** A machine on which the workspace root does not exist. *)
Definition no_workspace : world := mkWorld ∅ [].

(** The response to [ask], cut in three at arbitrary places. *)
Definition chunks : list jsstring :=
  let text := Wire.body_text SampleJson.codec (chat_stream Sample.platform ask) in
  [take 10 text; take 25 (drop 10 text); drop 35 text].

(** A request without messages, and the response to it cut in two. *)
Definition refused : chat_body := mkChatBody None None None.

Definition refusal_chunks : list jsstring :=
  let text := Wire.body_text SampleJson.codec (chat_stream Sample.platform refused) in
  [take 5 text; drop 5 text].

End Scenario.

(** ** The answers of the tool dispatcher, as the claim words them *)

(** [{ ok: true, result }] with status 200, and [{ error }] with an error
    status. *)
Definition ok_answer (r : tool_result) : response :=
  mkResponse 200 (mkEnvelope (Some true) (Some r) None).

Definition error_answer (code : Z) (msg : jsstring) : response :=
  mkResponse code (mkEnvelope None None (Some msg)).

(** [answer] is the right answer to a delegate call with that outcome:
    the value wrapped when it returned, status 500 with the text of the
    exception when it threw; the state is the one the call left. *)
Definition answers {A} (wrap : A -> tool_result) (outcome : res A * world)
           (answer : response * world) : Prop :=
  match outcome with
  | (Ok a, w') => answer = (ok_answer (wrap a), w')
  | (Throw e, w') => answer = (error_answer 500 (error_text e), w')
  end.

(** The arguments a request comes with: an absent [args] counts as the
    empty object, [null] as none. *)
Definition given_args (v : args_value) : option tool_args :=
  match v with
  | ArgsAbsent => Some no_args
  | ArgsObject a => Some a
  | ArgsNull => None
  end.

Definition TOOL_NAMES : list jsstring :=
  [js "list_dir"; js "read_file"; js "write_file"; js "apply_patch"; js "glob"; js "grep"].

(** The fixed lines the system prompt opens with; the workspace summary
    follows them. *)
Definition prompt_instructions : list jsstring :=
  [js "Você é um assistente de engenharia de software local, especialista em código e projetos grandes.";
   js "Objetivo: pair programming, revisão, arquitetura, performance e segurança, sempre com foco no código do workspace.";
   js "Estilo: respostas concisas, claras, em Português do Brasil, sem repetir palavras, sem gagueira, sem emojis (a não ser que o usuário peça).";
   js "Se detectar repetição ou texto corrompido, reescreva imediatamente de forma limpa.";
   js "Quando pedir para ler/alterar arquivos, refira-se a eles pelo caminho relativo e proponha diffs ou patches minimalistas.";
   js "Limite-se ao escopo do workspace; se faltarem arquivos, solicite-os pelo caminho.";
   [];
   js "Resumo do workspace (somente para contexto, não repita na resposta a menos que útil):"].

(** * Properties *)

(** ** Strings and paths on concrete inputs *)

Example js_ola : js "Olá" = [79; 108; 225].
Proof. reflexivity. Qed.

Example byteLength_e_acute : byteLength (js "ééé") = 6%Z.
Proof. reflexivity. Qed.

Example resolve_inside :
  Path.resolve (js "/home") [js "/ws"; js "a/./b/../c"] = js "/ws/a/c".
Proof. reflexivity. Qed.

Example resolve_above_root :
  Path.resolve (js "/home") [js "/ws"; js "../../.."] = js "/".
Proof. reflexivity. Qed.

Example resolve_from_cwd : Path.resolve (js "/home/u") [js "proj/"] = js "/home/u/proj".
Proof. reflexivity. Qed.

Example dirname_nested : Path.dirname (js "/ws/a/b.txt") = js "/ws/a".
Proof. reflexivity. Qed.

Example dirname_top : Path.dirname (js "/ws") = js "/".
Proof. reflexivity. Qed.

Example relative_down :
  Path.relative (js "/") (js "/ws") (js "/ws/a/b.txt") = js "a/b.txt".
Proof. reflexivity. Qed.

Example relative_up :
  Path.relative (js "/") (js "/ws") (js "/ws2/b.txt") = js "../ws2/b.txt".
Proof. reflexivity. Qed.

Example join_file : Path.join [js "/ws/src"; js "a/../b.js"] = js "/ws/src/b.js".
Proof. reflexivity. Qed.

Example split_lines_crlf : split_lines [97; 13; 10; 98; 10; 99] = [js "a"; js "b"; js "c"].
Proof. reflexivity. Qed.

Example slice0_negative : slice0 (js "abcdef") (-2) = js "abcd".
Proof. reflexivity. Qed.

(** ** PathGuard *)

Section PathGuard.

Context (P : platform).

Lemma startsWith_app (s p : jsstring) :
  startsWith s p = true <-> exists rest, s = p ++ rest.
Proof.
  revert s. induction p as [|a p IH]; intros s; simpl.
  - split; [intros _; by exists s | done].
  - destruct s as [|b s].
    + split; [done | intros [rest H]; discriminate].
    + rewrite andb_true_iff, N.eqb_eq, IH. split.
      * intros [-> [rest ->]]. by exists rest.
      * intros [rest H]. injection H as -> ->. split; [done | by exists rest].
Qed.

(** What the guard does establish: an accepted path starts with the
    characters of the root. *)
Lemma resolveSafe_string_prefix (relPath : jsval) (full : jsstring) :
  resolveSafe P relPath = Ok full ->
  exists rest, full = WORKSPACE_ROOT P ++ rest.
Proof.
  unfold resolveSafe. destruct (path_resolve_in_root P _) as [f|e]; [|done].
  destruct (startsWith f (WORKSPACE_ROOT P)) eqn:Hs; simpl; [|done].
  intros [= <-]. by apply startsWith_app.
Qed.

Lemma resolveSafe_escape_message (relPath : jsval) (e : exn) :
  resolveSafe P relPath = Throw e ->
  (exists s, or_else relPath (JStr Path.dot) = JStr s) ->
  e = Error (js "Path escapes workspace root").
Proof.
  unfold resolveSafe. intros H [s Hs]. rewrite Hs in H. simpl in H.
  destruct (startsWith _ _); simpl in H; congruence.
Qed.

End PathGuard.

Example resolveSafe_inside :
  resolveSafe Sample.platform (JStr (js "src/../notes.txt")) = Ok (js "/ws/notes.txt").
Proof. reflexivity. Qed.

Example resolveSafe_parent_rejected :
  resolveSafe Sample.platform (JStr (js "../etc/passwd"))
  = Throw (Error (js "Path escapes workspace root")).
Proof. reflexivity. Qed.

Example resolveSafe_absent_is_root :
  resolveSafe Sample.platform JUndefined = Ok (js "/ws").
Proof. reflexivity. Qed.

(** C1. The claim says a relative path whose resolution leaves the
    workspace root is refused with the escape error.  The guard compares
    characters, not path segments: with the root [/ws], the path
    [../ws-private/key.txt] resolves to [/ws-private/key.txt], which is
    outside the root and yet accepted, and [readFile] then returns the
    text of that file. *)
Lemma resolveSafe_accepts_sibling_of_root :
  WORKSPACE_ROOT Sample.platform = js "/ws"
  /\ resolveSafe Sample.platform (JStr (js "../ws-private/key.txt"))
     = Ok (js "/ws-private/key.txt")
  /\ inside_root (js "/ws") (js "/ws-private/key.txt") = false
  /\ fst (readFile Sample.platform (JStr (js "../ws-private/key.txt")) None Sample.disk)
     = Ok (mkSnapshot false (js "secret") 6).
Proof. repeat split; vm_compute; reflexivity. Qed.

(** ** Bounded reads *)

Lemma byteLength_ascii (s : jsstring) :
  Forall (fun c => c < 128) s -> byteLength s = Z.of_nat (length s).
Proof.
  induction 1 as [|c s Hc _ IH]; [done|].
  cbn [byteLength length]. apply N.ltb_lt in Hc. rewrite Hc, IH. lia.
Qed.

Lemma length_slice0_within {A} (l : list A) (e : Z) :
  (0 <= e <= Z.of_nat (length l))%Z -> Z.of_nat (length (slice0 l e)) = e.
Proof.
  intros He. unfold slice0.
  destruct (Z.ltb_spec e 0); [lia|].
  rewrite length_take. lia.
Qed.

(** On text made of ASCII characters only, a unit is a byte and the
    truncated prefix has exactly [maxBytes] bytes. *)
Lemma readFile_ascii_truncation (P : platform) (rel : jsval) (p data : jsstring)
      (maxBytes : Z) (w : world) :
  resolveSafe P rel = Ok p ->
  Fs.lookup (files w) p = Some (File data) ->
  Forall (fun c => c < 128) data ->
  (0 < maxBytes < byteLength data)%Z ->
  exists prefix,
    readFile P rel (Some maxBytes) w = (Ok (mkSnapshot true prefix (byteLength data)), w)
    /\ byteLength prefix = maxBytes
    /\ exists rest, data = prefix ++ rest.
Proof.
  intros Hres Hfile Hascii Hmax.
  exists (slice0 data maxBytes).
  unfold readFile, bind, lift, Fs.readFileSync, ret. rewrite Hres, Hfile.
  destruct (Z.eqb_spec maxBytes 0); [lia|].
  destruct (Z.gtb_spec (byteLength data) maxBytes); [|lia].
  split; [done|]. split.
  - rewrite byteLength_ascii.
    + apply length_slice0_within. rewrite byteLength_ascii in Hmax by done. lia.
    + unfold slice0. by apply Forall_take.
  - unfold slice0. eexists. symmetry. apply take_drop.
Qed.

(** C5. The claim says a file longer than [maxBytes] bytes is returned as
    a prefix of exactly [maxBytes] bytes.  The length test counts UTF-8
    bytes but the cut counts UTF-16 units: a file holding three e-acute
    (6 bytes, 3 units), read with [maxBytes = 4], is flagged as truncated
    and yet returned whole, 6 bytes long. *)
Lemma readFile_cuts_units_not_bytes :
  fst (readFile Sample.platform (JStr (js "accents.txt")) (Some 4%Z) Sample.disk)
  = Ok (mkSnapshot true (js "ééé") 6)
  /\ current_text Sample.disk (js "/ws/accents.txt") = js "ééé"
  /\ byteLength (js "ééé") = 6%Z.
Proof. repeat split; vm_compute; reflexivity. Qed.

Example readFile_at_the_limit :
  fst (readFile Sample.platform (JStr (js "../ws-private/key.txt")) (Some 6%Z) Sample.disk)
  = Ok (mkSnapshot false (js "secret") 6).
Proof. vm_compute. reflexivity. Qed.

Example readFile_one_over :
  fst (readFile Sample.platform (JStr (js "../ws-private/key.txt")) (Some 5%Z) Sample.disk)
  = Ok (mkSnapshot true (js "secre") 6).
Proof. vm_compute. reflexivity. Qed.

(** ** The mutation engine *)


Lemma read_before_unchanged (p : jsstring) (w : world) :
  snd (read_before p w) = w.
Proof.
  unfold read_before, bind, Fs.existsSync, Fs.readFileSync, ret.
  destruct (bool_decide _); [|done].
  destruct (Fs.lookup (files w) p) as [[d|]|]; done.
Qed.

Lemma read_before_text (p : jsstring) (w : world) :
  is_directory w p = false ->
  read_before p w = (Ok (current_text w p), w).
Proof.
  unfold read_before, bind, Fs.existsSync, Fs.readFileSync, ret,
    is_directory, current_text.
  destruct (Fs.lookup (files w) p) as [[d|]|] eqn:Hl; intros Hd; try done.
  cbn. by rewrite Hl.
Qed.

Lemma writes_app (es es' : list fs_effect) :
  writes (es ++ es') = writes es ++ writes es'.
Proof. apply omap_app. Qed.

Lemma lookup_None_files (fs : gmap jsstring node) (d : jsstring) :
  Fs.lookup fs d = None -> fs !! d = None.
Proof. unfold Fs.lookup. by destruct (eqb d [Path.slash]). Qed.

(** Creating directories writes no file and changes no file's text. *)
Lemma mkdir_each_frame (target : jsstring) (dirs : list jsstring) (w : world) :
  writes (effects (snd (Fs.mkdir_each target dirs w))) = writes (effects w)
  /\ forall q, file_text (snd (Fs.mkdir_each target dirs w)) q = file_text w q.
Proof.
  revert w. induction dirs as [|d dirs IH]; intros w; [done|].
  cbn [Fs.mkdir_each].
  destruct (Fs.lookup (files w) d) as [[data|]|] eqn:Hl; [done | apply IH |].
  destruct (IH (mkWorld (<[d:=Dir]> (files w)) (effects w ++ [DidMkdir d])))
    as [Hw Hf].
  split.
  - rewrite Hw. cbn [effects]. rewrite writes_app. cbn. apply app_nil_r.
  - intros q. rewrite Hf. unfold file_text. cbn [files].
    destruct (decide (d = q)) as [<-|Hne].
    + rewrite lookup_insert_eq, (lookup_None_files _ _ Hl). done.
    + by rewrite lookup_insert_ne.
Qed.

(** What one [writeFileSync] does. *)
Lemma writeFileSync_cases (p data : jsstring) (w : world) :
  (exists e, Fs.writeFileSync p data w = (Throw e, w))
  \/ Fs.writeFileSync p data w
     = (Ok tt, mkWorld (<[p := File (toWellFormed data)]> (files w))
                       (effects w ++ [DidWrite p data])).
Proof.
  unfold Fs.writeFileSync.
  destruct (Fs.lookup (files w) p) as [[d|]|];
    destruct (Fs.lookup (files w) (Path.dirname p)) as [[d'|]|]; eauto.
Qed.

Section Mutation.

Context (P : platform).

Lemma writeFile_dry_run_unchanged rel text approve w :
  truthy approve = false ->
  snd (writeFile P rel text approve w) = w.
Proof.
  intros Ha. unfold writeFile, bind, lift.
  destruct (resolveSafe P rel) as [p|e]; [|done].
  pose proof (read_before_unchanged p w) as Hr.
  destruct (read_before p w) as [[before|e] w']; simpl in Hr; subst w'; [|done].
  by rewrite Ha.
Qed.

Lemma applyUnifiedPatch_rejected rel unified approve w p :
  resolveSafe P rel = Ok p ->
  is_directory w p = false ->
  applyPatch P (current_text w p) unified = Ok None ->
  applyUnifiedPatch P rel unified approve w
  = (Ok (if truthy approve
         then PatchNotApplied (js "Failed to apply patch.")
         else PatchDryRun false None), w).
Proof.
  intros Hres Hdir Hrej. unfold applyUnifiedPatch, bind, lift.
  rewrite Hres, (read_before_text _ _ Hdir).
  destruct (truthy approve); cbn [negb]; by rewrite Hrej.
Qed.

(** C3, as the code has it.  When the patch is rejected, an approved
    call answers with the not-applied record and its error text, a call
    that is not approved answers with the dry-run record whose
    [canApply] is false and whose preview is null, without an error
    text; the state is unchanged in both. *)
Theorem applyUnifiedPatch_rejected_by_mode rel unified approve w p :
  resolveSafe P rel = Ok p ->
  is_directory w p = false ->
  applyPatch P (current_text w p) unified = Ok None ->
  fst (applyUnifiedPatch P rel unified approve w)
  = Ok (if truthy approve
        then PatchNotApplied (js "Failed to apply patch.")
        else PatchDryRun false None)
  /\ snd (applyUnifiedPatch P rel unified approve w) = w.
Proof.
  intros Hres Hdir Hrej.
  by rewrite (applyUnifiedPatch_rejected _ _ _ _ _ Hres Hdir Hrej).
Qed.

(** C4. An approved call with a patch that does not apply to the text on
    disk returns the not-applied record and leaves the files and the
    mutation log exactly as they were. *)
Theorem applyUnifiedPatch_conflict_leaves_disk rel unified approve w p :
  truthy approve = true ->
  resolveSafe P rel = Ok p ->
  is_directory w p = false ->
  applyPatch P (current_text w p) unified = Ok None ->
  exists reason w',
    applyUnifiedPatch P rel unified approve w = (Ok (PatchNotApplied reason), w')
    /\ files w' = files w
    /\ effects w' = effects w
    /\ current_text w' p = current_text w p.
Proof.
  intros Ha Hres Hdir Hrej.
  exists (js "Failed to apply patch."), w.
  rewrite (applyUnifiedPatch_rejected _ _ _ _ _ Hres Hdir Hrej), Ha. done.
Qed.

End Mutation.

(** ** The streaming proxy *)

Section Streaming.

Context (P : platform).

(** One turn of the loop. *)
Lemma relay_part (p : part) (rest : list stream_item) (acc : jsstring) :
  relay (Part p :: rest) acc
  = match content_of p with Some t => [token t] | None => [] end
    ++ (if finishes p
        then [done_ (acc ++ default [] (content_of p)); ResEnd]
        else relay rest (acc ++ default [] (content_of p))).
Proof.
  unfold content_of, finishes. cbn [relay].
  destruct (choices0 p) as [c|]; [|cbn; by rewrite app_nil_r].
  destruct (delta_content c) as [[|? ?]|];
    destruct (finish_reason c) as [[|? ?]|]; cbn; rewrite ?app_nil_r; done.
Qed.

Lemma omap_content_cons (p : part) (ps : list part) :
  omap content_of (p :: ps)
  = match content_of p with Some t => [t] | None => [] end ++ omap content_of ps.
Proof. simpl. by destruct (content_of p). Qed.

(** Parts without the finish marker are relayed one by one; the text
    accumulates. *)
Lemma relay_unfinished (init : list part) (rest : list stream_item) (acc : jsstring) :
  Forall (fun p => finishes p = false) init ->
  relay (List.map Part init ++ rest) acc
  = List.map token (omap content_of init)
    ++ relay rest (acc ++ concat (omap content_of init)).
Proof.
  intros Hinit. revert acc.
  induction Hinit as [|p init Hp _ IH]; intros acc.
  - cbn. by rewrite app_nil_r.
  - cbn [List.map app]. rewrite relay_part, Hp, IH, omap_content_cons.
    destruct (content_of p) as [t|]; cbn; rewrite <- ?app_assoc, ?app_nil_r; done.
Qed.

(** The part that carries the finish marker ends the loop. *)
Lemma relay_finishing (last : part) (rest : list stream_item) (acc : jsstring) :
  finishes last = true ->
  relay (Part last :: rest) acc
  = List.map token (omap content_of [last])
    ++ [done_ (acc ++ concat (omap content_of [last])); ResEnd].
Proof.
  intros Hl. rewrite relay_part, Hl, omap_content_cons.
  destruct (content_of last) as [t|]; cbn; rewrite ?app_nil_r; done.
Qed.

Lemma relay_opens_nothing (items : list stream_item) (acc : jsstring) :
  Forall (fun a => is_backend_create a = false) (relay items acc).
Proof.
  revert acc. induction items as [|[p|e] items IH]; intros acc.
  - by repeat constructor.
  - rewrite relay_part. apply Forall_app. split.
    + destruct (content_of p); by repeat constructor.
    + destruct (finishes p); [by repeat constructor | apply IH].
  - by repeat constructor.
Qed.

Lemma open_and_relay_opens_once (request r : completion_request) :
  BackendCreate r ∈ open_and_relay P request -> r = request.
Proof.
  unfold open_and_relay. rewrite elem_of_cons. intros [[= ->]|Hin]; [done|].
  exfalso.
  assert (Forall (fun a => is_backend_create a = false)
                 match completions_create P request with
                 | OpenFails e => stream_failed e
                 | Stream items => relay items []
                 end) as Hall.
  { destruct (completions_create P request).
    - by repeat constructor.
    - apply relay_opens_nothing. }
  rewrite Forall_forall in Hall. by apply Hall in Hin.
Qed.

(** C7, as the code has it.  The request is refused before anything is
    opened only when [messages] is not an array: the answer is then the
    single 400 response.  Any array, the empty one included, is
    forwarded to the backend once the event stream has been set up. *)
Theorem chat_stream_validation (b : chat_body) :
  (body_messages b = None ->
   chat_stream P b = [ResStatusJson 400 (js "messages must be an array")]
   /\ Forall (fun a => is_backend_create a = false /\ is_sse_event a = false)
             (chat_stream P b))
  /\ (forall messages,
         body_messages b = Some messages ->
         exists request rest,
           chat_stream P b = SseInit :: BackendCreate request :: rest
           /\ req_messages request = messages).
Proof.
  unfold chat_stream. split.
  - intros ->. split; [done|]. by repeat constructor.
  - intros messages ->. unfold open_and_relay. eauto.
Qed.

(** C8. When the backend stream is a sequence of parts of which the last,
    and only the last, carries the finish marker, the proxy emits one
    token event per part that carries text, in order, then one done
    event holding the concatenation of those texts, and ends the
    response. *)
Theorem chat_stream_relays_in_order (b : chat_body) (messages : list chat_elem)
        (init : list part) (last : part) :
  body_messages b = Some messages ->
  completions_create P (chat_request b messages) = Stream (List.map Part (init ++ [last])) ->
  Forall (fun p => finishes p = false) init ->
  finishes last = true ->
  chat_stream P b
  = [SseInit; BackendCreate (chat_request b messages)]
    ++ List.map token (omap content_of (init ++ [last]))
    ++ [done_ (concat (omap content_of (init ++ [last]))); ResEnd].
Proof.
  intros Hm Hback Hinit Hlast. unfold chat_stream, open_and_relay.
  rewrite Hm, Hback.
  rewrite List.map_app. cbn [List.map].
  rewrite (relay_unfinished _ _ _ Hinit), (relay_finishing _ _ _ Hlast).
  rewrite omap_app, List.map_app, concat_app. cbn [app].
  rewrite <- !app_assoc. done.
Qed.

Lemma buildSystemPrompt_text (w : world) (prompt : jsstring) :
  fst (buildSystemPrompt P w) = Ok prompt ->
  exists summary,
    fst (workspaceSummary P w) = Ok summary
    /\ prompt = JsString.join [10] (prompt_instructions ++ [summary]).
Proof.
  unfold buildSystemPrompt, bind.
  destruct (workspaceSummary P w) as [[summary|e] w']; [|done].
  unfold ret. cbn [fst]. intros Heq. exists summary. split; [done|].
  unfold prompt_instructions. cbn [app]. congruence.
Qed.

(** C10, as the code has it.  In the later revision the handler builds
    the system prompt before it looks at the list.  When that fails, or
    when the first element of the list is [null], the response is one
    error event and nothing is forwarded, whatever the list opens with.
    Otherwise exactly one list is forwarded: the submitted one as it is
    when it opens with a message whose role is [system], and otherwise
    the submitted one with the system message in front, whose content is
    the fixed instructions followed by the workspace summary. *)
Theorem chat_stream_with_prompt_forwards (b : chat_body) (w : world) :
  (body_messages b = None ->
   chat_stream_with_prompt P b w = [ResStatusJson 400 (js "messages must be an array")])
  /\ (forall messages e,
         body_messages b = Some messages ->
         fst (buildSystemPrompt P w) = Throw e ->
         chat_stream_with_prompt P b w = [SseInit; error_event e; ResEnd])
  /\ (forall messages prompt,
         body_messages b = Some messages ->
         fst (buildSystemPrompt P w) = Ok prompt ->
         head messages = Some ElemNull ->
         chat_stream_with_prompt P b w
         = [SseInit;
            error_event (TypeError (js "Cannot read properties of null (reading 'role')"));
            ResEnd])
  /\ (forall messages prompt,
         body_messages b = Some messages ->
         fst (buildSystemPrompt P w) = Ok prompt ->
         head messages <> Some ElemNull ->
         exists request rest,
           chat_stream_with_prompt P b w = SseInit :: BackendCreate request :: rest
           /\ req_messages request
              = (if opens_with_system messages then messages
                 else ElemMessage (JStr (js "system")) (JStr prompt) :: messages)
           /\ Forall (fun a => is_backend_create a = false) rest)
  /\ (forall prompt,
         fst (buildSystemPrompt P w) = Ok prompt ->
         exists summary,
           fst (workspaceSummary P w) = Ok summary
           /\ prompt = JsString.join [10] (prompt_instructions ++ [summary]))
  /\ (forall request,
         BackendCreate request ∈ chat_stream_with_prompt P b w ->
         exists messages prompt,
           body_messages b = Some messages
           /\ fst (buildSystemPrompt P w) = Ok prompt
           /\ req_messages request
              = if opens_with_system messages then messages
                else ElemMessage (JStr (js "system")) (JStr prompt) :: messages).
Proof.
  assert (forall request,
             Forall (fun a => is_backend_create a = false)
                    match completions_create P request with
                    | OpenFails e => stream_failed e
                    | Stream items => relay items []
                    end) as Hrest.
  { intros request. destruct (completions_create P request).
    - by repeat constructor.
    - apply relay_opens_nothing. }
  unfold chat_stream_with_prompt.
  split; [|split; [|split; [|split; [|split]]]].
  - by intros ->.
  - intros messages e -> He.
    destruct (buildSystemPrompt P w) as [[prompt|e'] w']; cbn [fst] in He; [done|].
    by injection He as ->.
  - intros messages prompt -> Hp Hnull.
    destruct (buildSystemPrompt P w) as [[prompt'|e] w']; [|done].
    destruct messages as [|[|role text] messages]; try done.
  - intros messages prompt -> Hp Hnull.
    destruct (buildSystemPrompt P w) as [[prompt'|e] w']; simpl in Hp; [|done].
    injection Hp as ->.
    destruct messages as [|[|role text] messages]; cbn [hasSystem].
    + unfold open_and_relay. do 2 eexists. split; [reflexivity|]. split; [done|].
      apply Hrest.
    + by destruct Hnull.
    + unfold open_and_relay. do 2 eexists. split; [reflexivity|].
      split; [|apply Hrest].
      cbn [req_messages opens_with_system].
      destruct (bool_decide _); reflexivity.
  - apply buildSystemPrompt_text.
  - intros request.
    destruct (body_messages b) as [messages|].
    2: { rewrite list_elem_of_singleton. done. }
    destruct (buildSystemPrompt P w) as [[prompt|e] w'].
    2: { unfold stream_failed, sseEvent.
         rewrite !elem_of_cons, elem_of_nil. intuition discriminate. }
    rewrite elem_of_cons. intros [|Hin]; [done|].
    exists messages, prompt. split; [done|]. split; [done|].
    destruct messages as [|[|role text] messages]; cbn [hasSystem] in Hin.
    + apply open_and_relay_opens_once in Hin. by subst.
    + revert Hin. unfold stream_failed, sseEvent.
      rewrite !elem_of_cons, elem_of_nil. intuition discriminate.
    + apply open_and_relay_opens_once in Hin. subst.
      cbn [req_messages opens_with_system].
      destruct (bool_decide _); reflexivity.
Qed.

End Streaming.

(** ** Search *)

Section Search.

Context (P : platform).

Lemma take_matching_scan (test : jsstring -> bool) (file : jsstring)
      (lines : list jsstring) :
  forall n idx,
    take_matching n test file idx lines = take n (scan_lines test file idx lines).
Proof.
  induction lines as [|line lines IH]; intros [|n] idx; cbn; try done.
  destruct (test line); cbn; by rewrite IH.
Qed.

Lemma collect_until_take (test : jsstring -> bool) (cwd : jsstring) (w : world)
      (fs : list jsstring) :
  forall n, collect_until P n test cwd fs w = take n (all_matches P test cwd w fs).
Proof.
  induction fs as [|f fs IH]; intros [|n]; try done.
  cbn [collect_until]. unfold all_matches. cbn [List.map concat].
  fold (all_matches P test cwd w fs). unfold file_matches.
  destruct (Fs.lookup (files w) (Path.join [cwd; f])) as [[data|]|]; try apply IH.
  rewrite take_matching_scan, IH, take_app, length_take.
  f_equal.
  destruct (Nat.le_gt_cases (S n) (length (scan_lines test
    (Path.relative (process_cwd P) (WORKSPACE_ROOT P) (Path.join [cwd; f])) 0
    (split_lines data)))) as [Hle|Hgt].
  - rewrite Nat.min_l by done.
    replace (S n - S n)%nat with 0%nat by lia.
    by replace (S n - _)%nat with 0%nat by lia.
  - by rewrite Nat.min_r by lia.
Qed.

(** The loop of the code: whatever it leaves the loop with agrees with
    all the matches on the first [maxMatches] records. *)
Lemma grep_files_take (test : jsstring -> bool) (cwd : jsstring) (maxMatches : Z)
      (w : world) (fs : list jsstring) :
  forall out,
  exists r,
    grep_files P test cwd maxMatches fs out w = (Ok r, w)
    /\ take (Z.to_nat maxMatches) r
       = take (Z.to_nat maxMatches) (out ++ all_matches P test cwd w fs).
Proof.
  induction fs as [|f fs IH]; intros out.
  - exists out. unfold all_matches. cbn. by rewrite app_nil_r.
  - cbn [grep_files]. unfold all_matches. cbn [List.map concat].
    fold (all_matches P test cwd w fs). unfold file_matches, Fs.readFileSync.
    destruct (Fs.lookup (files w) (Path.join [cwd; f])) as [[data|]|];
      try apply IH.
    set (found := scan_lines test _ 0 (split_lines data)).
    rewrite app_assoc.
    destruct (Z.geb_spec (Z.of_nat (length (out ++ found))) maxMatches) as [Hge|Hlt].
    + exists (out ++ found). split; [reflexivity|].
      rewrite (take_app_le (out ++ found)); [reflexivity|lia].
    + apply IH.
Qed.

Lemma slice0_take {A} (l : list A) (e : Z) :
  (0 <= e)%Z -> slice0 l e = take (Z.to_nat e) l.
Proof.
  intros He. unfold slice0. destruct (Z.ltb_spec e 0); [lia|].
  destruct (Z.min_spec e (Z.of_nat (length l))) as [[_ ->]|[Hlt ->]]; [done|].
  rewrite Nat2Z.id, !take_ge; [done | lia | done].
Qed.

(** C9. For a non-negative [maxMatches], [grep] returns what the
    collector of the specification returns: one record per matching
    line under the case-insensitive expression, files in processing
    order, nothing past the [maxMatches]-th record even when that record
    lies in the middle of a file, unreadable files skipped; at most
    [maxMatches] records; and the filesystem is left as it was. *)
Theorem grep_meets_its_description (pattern cwdRel : jsval) (opt : option Z) (w : world) :
  (0 <= default 200 opt)%Z ->
  grep P pattern cwdRel opt w = grep_as_specified P pattern cwdRel opt w
  /\ snd (grep P pattern cwdRel opt w) = w
  /\ forall r, fst (grep P pattern cwdRel opt w) = Ok r ->
               (Z.of_nat (length r) <= default 200 opt)%Z.
Proof.
  intros Hmax.
  assert (grep P pattern cwdRel opt w = grep_as_specified P pattern cwdRel opt w) as Heq.
  { unfold grep, grep_as_specified, bind, lift.
    destruct (resolveSafe P _) as [cwd|e]; [|done].
    destruct (RegExp P pattern (js "i")) as [test|e]; [|done].
    destruct (fg_sync P _ _ _ _) as [fs|e]; [|done].
    destruct (grep_files_take test cwd (default 200%Z opt) w fs []) as (r & Hr & Ht).
    replace (match opt with Some n => n | None => 200%Z end)
      with (default 200%Z opt) by by destruct opt.
    rewrite Hr. cbn [ret]. rewrite slice0_take by done.
    rewrite Ht, collect_until_take. done. }
  split; [done|]. rewrite Heq. split.
  - unfold grep_as_specified, bind, lift.
    destruct (resolveSafe P _) as [cwd|e]; [|done].
    destruct (RegExp P pattern (js "i")) as [test|e]; [|done].
    by destruct (fg_sync P _ _ _ _) as [fs|e].
  - intros r. unfold grep_as_specified, bind, lift.
    destruct (resolveSafe P _) as [cwd|e]; [|done].
    destruct (RegExp P pattern (js "i")) as [test|e]; [|done].
    destruct (fg_sync P _ _ _ _) as [fs|e]; [|done].
    cbn [fst]. intros [= <-]. rewrite collect_until_take, length_take.
    replace (match opt with Some n => n | None => 200%Z end)
      with (default 200%Z opt) by by destruct opt.
    lia.
Qed.

End Search.

(** ** The tool dispatcher *)

Section Dispatcher.

Context (P : platform).

Lemma success_is_success_envelope (r : tool_result) :
  success_envelope (success r).
Proof. by repeat split; eauto. Qed.

Lemma failure_is_error_envelope (code : Z) (msg : jsstring) :
  code = 400%Z \/ code = 500%Z -> error_envelope (failure code msg).
Proof. by repeat split; eauto. Qed.

(** The [try]/[catch] around a delegate: its value is wrapped, its
    exception becomes the text of a 500 answer. *)
Lemma respond_outcome {A} (wrap : A -> tool_result) (call : M A) (w : world) :
  respond wrap call w
  = (match fst (call w) with
     | Ok a => success (wrap a)
     | Throw e => failure 500 (error_text e)
     end, snd (call w)).
Proof. unfold respond. by destruct (call w) as [[a|e] w']. Qed.

Lemma respond_envelope {A} (wrap : A -> tool_result) (call : M A) (w : world) :
  success_envelope (fst (respond wrap call w))
  \/ error_envelope (fst (respond wrap call w)).
Proof.
  rewrite respond_outcome. cbn [fst]. destruct (fst (call w)).
  - left. apply success_is_success_envelope.
  - right. apply failure_is_error_envelope. by right.
Qed.

Lemma with_args_envelope (key : string) (d : bool) (v : args_value)
      (k : tool_args -> world -> response * world) (w : world) :
  (forall a, success_envelope (fst (k a w)) \/ error_envelope (fst (k a w))) ->
  success_envelope (fst (with_args key d v k w))
  \/ error_envelope (fst (with_args key d v k w)).
Proof.
  intros Hk. unfold with_args. destruct (destructure key d v) as [a|e]; [apply Hk|].
  right. apply failure_is_error_envelope. by right.
Qed.

(** A name outside the six tools is answered with status 400. *)
Lemma tools_unknown_name (name : jsstring) (v : args_value) (w : world) :
  name <> [] ->
  name ∉ [js "list_dir"; js "read_file"; js "write_file"; js "apply_patch";
          js "glob"; js "grep"] ->
  tools P (mkToolsBody (Some name) v) w
  = (failure 400 (js "Unknown tool: " ++ name), w).
Proof.
  intros Hne Hnot. unfold tools. cbn [tool_name tool_args_value].
  rewrite !not_elem_of_cons in Hnot.
  destruct Hnot as (H1 & H2 & H3 & H4 & H5 & H6 & _).
  destruct name as [|c name]; [done|].
  unfold eqb. rewrite !bool_decide_eq_false_2 by assumption. reflexivity.
Qed.

End Dispatcher.

(** ** The theorems on concrete runs *)

Example writeFile_dry_run_text :
  fst (writeFile Sample.platform (JStr (js "notes.txt")) (js "bye") JUndefined Sample.disk)
  = Ok (WriteDryRun
          (JsString.join [10]
             [js "Index: notes.txt";
              js "===================================================================";
              js "--- notes.txt" ++ [9] ++ js "before";
              js "+++ notes.txt" ++ [9] ++ js "after";
              js "@@ -1,3 +1,1 @@";
              js "-hello"; js "-World"; js "-HELLO again"; js "+bye"])
          (js "Dry-run only. Set approve=true to apply.")).
Proof. vm_compute. reflexivity. Qed.

Example writeFile_approved_creates_directories :
  let w' := snd (writeFile Sample.platform (JStr (js "docs/new/readme.md")) (js "# hi")
                           (JBool true) Sample.disk) in
  effects w' = [DidMkdir (js "/ws/docs"); DidMkdir (js "/ws/docs/new");
                DidWrite (js "/ws/docs/new/readme.md") (js "# hi")]
  /\ file_text w' (js "/ws/docs/new/readme.md") = Some (js "# hi").
Proof. split; vm_compute; reflexivity. Qed.

(** C3 as stated fails when the call is not approved: the rejected patch
    is answered with the dry-run record, which carries no reason. *)
Lemma applyUnifiedPatch_dry_run_carries_no_reason :
  applyPatch Sample.platform (current_text Sample.disk (js "/ws/notes.txt"))
             Sample.stale_patch = Ok None
  /\ fst (applyUnifiedPatch Sample.platform (JStr (js "notes.txt")) Sample.stale_patch
                            (JBool false) Sample.disk)
     = Ok (PatchDryRun false None)
  /\ forall reason,
      fst (applyUnifiedPatch Sample.platform (JStr (js "notes.txt")) Sample.stale_patch
                             (JBool false) Sample.disk)
      <> Ok (PatchNotApplied reason).
Proof.
  split; [vm_compute; reflexivity|].
  assert (fst (applyUnifiedPatch Sample.platform (JStr (js "notes.txt")) Sample.stale_patch
                                 (JBool false) Sample.disk)
          = Ok (PatchDryRun false None)) as H by (vm_compute; reflexivity).
  split; [exact H|]. intros reason. rewrite H. discriminate.
Qed.

Lemma applyUnifiedPatch_rejected_by_mode_witness :
  (resolveSafe Sample.platform (JStr (js "notes.txt")) = Ok (js "/ws/notes.txt")
   /\ is_directory Sample.disk (js "/ws/notes.txt") = false
   /\ applyPatch Sample.platform (current_text Sample.disk (js "/ws/notes.txt"))
                 Sample.stale_patch = Ok None)
  /\ (fst (applyUnifiedPatch Sample.platform (JStr (js "notes.txt")) Sample.stale_patch
                             (JBool true) Sample.disk)
      = Ok (PatchNotApplied (js "Failed to apply patch."))
      /\ snd (applyUnifiedPatch Sample.platform (JStr (js "notes.txt")) Sample.stale_patch
                                (JBool true) Sample.disk) = Sample.disk)
  /\ (fst (applyUnifiedPatch Sample.platform (JStr (js "notes.txt")) Sample.stale_patch
                             JUndefined Sample.disk)
      = Ok (PatchDryRun false None)
      /\ snd (applyUnifiedPatch Sample.platform (JStr (js "notes.txt")) Sample.stale_patch
                                JUndefined Sample.disk) = Sample.disk).
Proof.
  split; [repeat split; vm_compute; reflexivity|]. split.
  - apply (applyUnifiedPatch_rejected_by_mode Sample.platform (JStr (js "notes.txt"))
             Sample.stale_patch (JBool true) Sample.disk (js "/ws/notes.txt"));
      vm_compute; reflexivity.
  - apply (applyUnifiedPatch_rejected_by_mode Sample.platform (JStr (js "notes.txt"))
             Sample.stale_patch JUndefined Sample.disk (js "/ws/notes.txt"));
      vm_compute; reflexivity.
Defined.

Lemma applyUnifiedPatch_conflict_leaves_disk_witness :
  (truthy (JBool true) = true
   /\ resolveSafe Sample.platform (JStr (js "notes.txt")) = Ok (js "/ws/notes.txt")
   /\ is_directory Sample.disk (js "/ws/notes.txt") = false
   /\ applyPatch Sample.platform (current_text Sample.disk (js "/ws/notes.txt"))
                 Sample.stale_patch = Ok None)
  /\ exists reason w',
      applyUnifiedPatch Sample.platform (JStr (js "notes.txt")) Sample.stale_patch
                        (JBool true) Sample.disk
      = (Ok (PatchNotApplied reason), w')
      /\ files w' = files Sample.disk
      /\ effects w' = effects Sample.disk
      /\ current_text w' (js "/ws/notes.txt")
         = current_text Sample.disk (js "/ws/notes.txt").
Proof.
  split; [repeat split; vm_compute; reflexivity|].
  apply (applyUnifiedPatch_conflict_leaves_disk Sample.platform (JStr (js "notes.txt"))
           Sample.stale_patch (JBool true) Sample.disk (js "/ws/notes.txt"));
    vm_compute; reflexivity.
Defined.

Example applyUnifiedPatch_round_trip :
  let patch := Sample.createTwoFilesPatch (JStr (js "notes.txt")) (JStr (js "notes.txt"))
                 (current_text Sample.disk (js "/ws/notes.txt")) (js "bye")
                 (js "before") (js "after") in
  let out := applyUnifiedPatch Sample.platform (JStr (js "notes.txt")) patch (JBool true)
                               Sample.disk in
  fst out = Ok PatchApplied
  /\ file_text (snd out) (js "/ws/notes.txt") = Some (js "bye").
Proof. split; vm_compute; reflexivity. Qed.

(** C6 as stated fails on its own example: reading a path that is not
    there is answered with status 500 and an error text, and the answer
    has no [ok] key, so it is not [ok: false]. *)
Lemma tools_failure_has_no_ok_key :
  fst (tools Sample.platform (Sample.read_request "nope.txt") Sample.disk)
  = mkResponse 500
      (mkEnvelope None None
         (Some (js "ENOENT: no such file or directory, open '/ws/nope.txt'")))
  /\ ok (body (fst (tools Sample.platform (Sample.read_request "nope.txt") Sample.disk)))
     <> Some false.
Proof.
  assert (fst (tools Sample.platform (Sample.read_request "nope.txt") Sample.disk)
          = mkResponse 500
              (mkEnvelope None None
                 (Some (js "ENOENT: no such file or directory, open '/ws/nope.txt'"))))
    as H by (vm_compute; reflexivity).
  split; [exact H|]. rewrite H. discriminate.
Qed.

Example tools_read_success :
  fst (tools Sample.platform (Sample.read_request "src/a.js") Sample.disk)
  = mkResponse 200
      (mkEnvelope (Some true)
         (Some (ResultRead (mkSnapshot false (js "const hello = 1;" ++ [10]) 17)))
         None).
Proof. vm_compute. reflexivity. Qed.

Example tools_escape :
  fst (tools Sample.platform (Sample.read_request "../etc/passwd") Sample.disk)
  = mkResponse 500 (mkEnvelope None None (Some (js "Path escapes workspace root"))).
Proof. vm_compute. reflexivity. Qed.

Example tools_missing_path :
  fst (tools Sample.platform (mkToolsBody (Some (js "read_file")) ArgsAbsent) Sample.disk)
  = mkResponse 400 (mkEnvelope None None (Some (js "path required"))).
Proof. vm_compute. reflexivity. Qed.

Example tools_unknown :
  fst (tools Sample.platform (mkToolsBody (Some (js "delete_file")) ArgsAbsent) Sample.disk)
  = mkResponse 400 (mkEnvelope None None (Some (js "Unknown tool: delete_file"))).
Proof. vm_compute. reflexivity. Qed.

Example tools_null_args :
  fst (tools Sample.platform (mkToolsBody (Some (js "grep")) ArgsNull) Sample.disk)
  = mkResponse 500
      (mkEnvelope None None
         (Some (js "Cannot destructure property 'pattern' of 'args' as it is null."))).
Proof. vm_compute. reflexivity. Qed.

(** C7 as stated fails on its own example: with the empty list the
    backend stream is opened and events are emitted. *)
Lemma chat_stream_empty_list_reaches_backend :
  chat_stream Sample.platform (mkChatBody (Some []) None None)
  = [SseInit;
     BackendCreate (mkRequest (js "gpt-4o-mini") (Qmake 1 5) true None []);
     token (js "Ol"); token (js "á, "); token (js "mundo");
     done_ (js "Olá, mundo"); ResEnd]
  /\ existsb is_backend_create
             (chat_stream Sample.platform (mkChatBody (Some []) None None)) = true
  /\ existsb is_sse_event
             (chat_stream Sample.platform (mkChatBody (Some []) None None)) = true.
Proof. repeat split; vm_compute; reflexivity. Qed.

Lemma chat_stream_validation_witness :
  (body_messages (mkChatBody None None None) = None
   /\ body_messages (mkChatBody (Some []) None None) = Some [])
  /\ (chat_stream Sample.platform (mkChatBody None None None)
      = [ResStatusJson 400 (js "messages must be an array")]
      /\ Forall (fun a => is_backend_create a = false /\ is_sse_event a = false)
                (chat_stream Sample.platform (mkChatBody None None None)))
  /\ exists request rest,
      chat_stream Sample.platform (mkChatBody (Some []) None None)
      = SseInit :: BackendCreate request :: rest
      /\ req_messages request = [].
Proof.
  split; [split; reflexivity|]. split.
  - apply (proj1 (chat_stream_validation Sample.platform (mkChatBody None None None))).
    reflexivity.
  - apply (proj2 (chat_stream_validation Sample.platform (mkChatBody (Some []) None None))).
    reflexivity.
Defined.

(** C8 on the stream of the specification's scenario. *)
Lemma chat_stream_relays_in_order_witness :
  (body_messages (mkChatBody (Some Sample.question) None None) = Some Sample.question
   /\ completions_create Sample.platform
        (chat_request (mkChatBody (Some Sample.question) None None) Sample.question)
      = Stream (List.map Part (Sample.greeting_parts ++ [Sample.finish_part]))
   /\ Forall (fun p => finishes p = false) Sample.greeting_parts
   /\ finishes Sample.finish_part = true)
  /\ chat_stream Sample.platform (mkChatBody (Some Sample.question) None None)
     = [SseInit;
        BackendCreate (mkRequest (js "gpt-4o-mini") (Qmake 1 5) true None Sample.question);
        token (js "Ol"); token (js "á, "); token (js "mundo");
        done_ (js "Olá, mundo"); ResEnd].
Proof.
  assert (Forall (fun p => finishes p = false) Sample.greeting_parts) as Hinit
      by (repeat constructor).
  split; [repeat split; try reflexivity; exact Hinit|].
  exact (chat_stream_relays_in_order Sample.platform
           (mkChatBody (Some Sample.question) None None) Sample.question
           Sample.greeting_parts Sample.finish_part eq_refl eq_refl Hinit eq_refl).
Defined.

Example grep_stops_in_the_middle_of_a_file :
  fst (grep Sample.platform (JStr (js "hello")) JUndefined (Some 1%Z) Sample.disk)
  = Ok [mkMatch (js "notes.txt") 1 (js "hello")].
Proof. vm_compute. reflexivity. Qed.

Example grep_all_matches_in_file_order :
  fst (grep Sample.platform (JStr (js "hello")) JUndefined None Sample.disk)
  = Ok [mkMatch (js "notes.txt") 1 (js "hello");
        mkMatch (js "notes.txt") 3 (js "HELLO again");
        mkMatch (js "src/a.js") 1 (js "const hello = 1;")].
Proof. vm_compute. reflexivity. Qed.

Lemma grep_meets_its_description_witness :
  (0 <= default 200 (Some 1))%Z
  /\ grep Sample.platform (JStr (js "hello")) JUndefined (Some 1%Z) Sample.disk
     = grep_as_specified Sample.platform (JStr (js "hello")) JUndefined (Some 1%Z) Sample.disk
  /\ snd (grep Sample.platform (JStr (js "hello")) JUndefined (Some 1%Z) Sample.disk)
     = Sample.disk
  /\ forall r,
      fst (grep Sample.platform (JStr (js "hello")) JUndefined (Some 1%Z) Sample.disk) = Ok r ->
      (Z.of_nat (length r) <= default 200 (Some 1))%Z.
Proof.
  split; [cbn; lia|].
  apply (grep_meets_its_description Sample.platform (JStr (js "hello")) JUndefined
           (Some 1%Z) Sample.disk).
  cbn; lia.
Defined.

(** The summary of the later revision on the sample workspace. *)
Example workspaceSummary_sample :
  fst (workspaceSummary Sample.platform Sample.disk)
  = Ok (js "Workspace: /ws
Root files (2): accents.txt, notes.txt
Root dirs (1): src
server/* (3):
 - accents.txt
 - notes.txt
 - src/a.js
web/* (3):
 - accents.txt
 - notes.txt
 - src/a.js").
Proof. vm_compute. reflexivity. Qed.

Example chat_stream_with_prompt_null_first :
  chat_stream_with_prompt Sample.platform (mkChatBody (Some [ElemNull]) None None) Sample.disk
  = [SseInit;
     sseEvent "error" (payload_error (js "Cannot read properties of null (reading 'role')"));
     ResEnd].
Proof. vm_compute. reflexivity. Qed.

(** C10 as stated fails when the workspace cannot be listed: a list that
    opens with its own system message is then not forwarded at all, and
    neither is a list that opens with [null]. *)
Lemma chat_stream_with_prompt_own_system_not_forwarded :
  opens_with_system Sample.own_system = true
  /\ chat_stream_with_prompt Sample.platform
       (mkChatBody (Some Sample.own_system) None None) Scenario.no_workspace
     = [SseInit;
        sseEvent "error"
                 (payload_error (js "ENOENT: no such file or directory, scandir '/ws'"));
        ResEnd]
  /\ (forall request,
         BackendCreate request
         ∉ chat_stream_with_prompt Sample.platform
             (mkChatBody (Some Sample.own_system) None None) Scenario.no_workspace)
  /\ (forall request,
         BackendCreate request
         ∉ chat_stream_with_prompt Sample.platform
             (mkChatBody (Some [ElemNull]) None None) Sample.disk).
Proof.
  assert (chat_stream_with_prompt Sample.platform
            (mkChatBody (Some Sample.own_system) None None) Scenario.no_workspace
          = [SseInit;
             sseEvent "error"
                      (payload_error (js "ENOENT: no such file or directory, scandir '/ws'"));
             ResEnd]) as H by (vm_compute; reflexivity).
  assert (chat_stream_with_prompt Sample.platform
            (mkChatBody (Some [ElemNull]) None None) Sample.disk
          = [SseInit;
             sseEvent "error"
                      (payload_error (js "Cannot read properties of null (reading 'role')"));
             ResEnd]) as H' by (vm_compute; reflexivity).
  split; [vm_compute; reflexivity|]. split; [exact H|]. split.
  - intros request Hin. rewrite H in Hin. unfold sseEvent in Hin.
    repeat (apply elem_of_cons in Hin as [Hin|Hin]; [discriminate Hin|]).
    by apply elem_of_nil in Hin.
  - intros request Hin. rewrite H' in Hin. unfold sseEvent in Hin.
    repeat (apply elem_of_cons in Hin as [Hin|Hin]; [discriminate Hin|]).
    by apply elem_of_nil in Hin.
Qed.

Lemma chat_stream_with_prompt_forwards_witness :
  (body_messages (mkChatBody (Some Sample.question) None None) = Some Sample.question
   /\ body_messages (mkChatBody (Some Sample.own_system) None None)
      = Some Sample.own_system
   /\ fst (buildSystemPrompt Sample.platform Sample.disk) = Ok Sample.prompt
   /\ head Sample.question <> Some ElemNull
   /\ head Sample.own_system <> Some ElemNull
   /\ opens_with_system Sample.question = false
   /\ opens_with_system Sample.own_system = true)
  /\ (exists request rest,
         chat_stream_with_prompt Sample.platform
           (mkChatBody (Some Sample.question) None None) Sample.disk
         = SseInit :: BackendCreate request :: rest
         /\ req_messages request
            = (if opens_with_system Sample.question then Sample.question
               else ElemMessage (JStr (js "system")) (JStr Sample.prompt)
                    :: Sample.question)
         /\ Forall (fun a => is_backend_create a = false) rest)
  /\ (exists request rest,
         chat_stream_with_prompt Sample.platform
           (mkChatBody (Some Sample.own_system) None None) Sample.disk
         = SseInit :: BackendCreate request :: rest
         /\ req_messages request
            = (if opens_with_system Sample.own_system then Sample.own_system
               else ElemMessage (JStr (js "system")) (JStr Sample.prompt)
                    :: Sample.own_system)
         /\ Forall (fun a => is_backend_create a = false) rest)
  /\ (exists summary,
         fst (workspaceSummary Sample.platform Sample.disk) = Ok summary
         /\ Sample.prompt = JsString.join [10] (prompt_instructions ++ [summary])).
Proof.
  assert (fst (buildSystemPrompt Sample.platform Sample.disk) = Ok Sample.prompt) as Hp
      by (vm_compute; reflexivity).
  split.
  { split; [reflexivity|]. split; [reflexivity|]. split; [exact Hp|].
    split; [discriminate|]. split; [discriminate|].
    split; vm_compute; reflexivity. }
  split.
  { destruct (chat_stream_with_prompt_forwards Sample.platform
                (mkChatBody (Some Sample.question) None None) Sample.disk)
      as (_ & _ & _ & Hfwd & _).
    exact (Hfwd Sample.question Sample.prompt eq_refl Hp ltac:(discriminate)). }
  split.
  { destruct (chat_stream_with_prompt_forwards Sample.platform
                (mkChatBody (Some Sample.own_system) None None) Sample.disk)
      as (_ & _ & _ & Hfwd & _).
    exact (Hfwd Sample.own_system Sample.prompt eq_refl Hp ltac:(discriminate)). }
  destruct (chat_stream_with_prompt_forwards Sample.platform
              (mkChatBody (Some Sample.question) None None) Sample.disk)
    as (_ & _ & _ & _ & Htext & _).
  exact (Htext Sample.prompt Hp).
Defined.

(** * Further properties *)
(** ** Path theory *)

Lemma split_rev_app (sep : N) (a b cur : jsstring) :
  split_rev sep cur (a ++ sep :: b) = split_rev sep cur a ++ split_rev sep [] b.
Proof.
  revert cur. induction a as [|c a IH]; intros cur; cbn [app split_rev].
  - by rewrite N.eqb_refl.
  - destruct (c =? sep); [by rewrite IH | apply IH].
Qed.

Lemma split_rev_no_sep (sep : N) (s cur : jsstring) :
  sep ∉ s -> split_rev sep cur s = [rev cur ++ s].
Proof.
  revert cur. induction s as [|c s IH]; intros cur Hs; cbn [split_rev].
  - by rewrite app_nil_r.
  - apply not_elem_of_cons in Hs as [Hc Hs].
    destruct (N.eqb_spec c sep) as [->|_]; [done|].
    rewrite IH by done. cbn [rev]. by rewrite <- app_assoc.
Qed.

Lemma not_elem_of_rev {A} (x : A) (l : list A) : x ∉ l -> x ∉ rev l.
Proof. rewrite !list_elem_of_In. intros H Hin. apply H. by apply in_rev. Qed.

Lemma split_rev_pieces (sep : N) (s cur : jsstring) :
  sep ∉ cur -> Forall (fun piece => sep ∉ piece) (split_rev sep cur s).
Proof.
  revert cur. induction s as [|c s IH]; intros cur Hcur; cbn [split_rev].
  - constructor; [|constructor]. by apply not_elem_of_rev.
  - destruct (N.eqb_spec c sep) as [->|Hne].
    + constructor; [by apply not_elem_of_rev|]. apply IH. apply not_elem_of_nil.
    + apply IH. apply not_elem_of_cons. split; [congruence | done].
Qed.

Lemma split_pieces (sep : N) (s : jsstring) :
  Forall (fun piece => sep ∉ piece) (split sep s).
Proof. apply split_rev_pieces, not_elem_of_nil. Qed.

Lemma split_join (sep : N) (segs : list jsstring) :
  segs <> [] ->
  Forall (fun s => sep ∉ s) segs ->
  split sep (JsString.join [sep] segs) = segs.
Proof.
  intros Hne Hall. induction Hall as [|s segs Hs Hall IH]; [done|].
  destruct segs as [|s' segs].
  - cbn. unfold split. by rewrite split_rev_no_sep.
  - change (JsString.join [sep] (s :: s' :: segs))
      with (s ++ sep :: JsString.join [sep] (s' :: segs)).
    unfold split. rewrite split_rev_app, split_rev_no_sep by done.
    cbn [rev app]. f_equal. by apply IH.
Qed.

Lemma join_app (sep : jsstring) (a b : list jsstring) :
  a <> [] -> b <> [] ->
  JsString.join sep (a ++ b) = JsString.join sep a ++ sep ++ JsString.join sep b.
Proof.
  intros Ha Hb. induction a as [|x a IH]; [done|].
  destruct a as [|y a].
  - destruct b; done.
  - change (JsString.join sep ((x :: y :: a) ++ b))
      with (x ++ sep ++ JsString.join sep ((y :: a) ++ b)).
    rewrite IH by done. cbn [JsString.join]. by rewrite <- !app_assoc.
Qed.

Lemma plain_segment_tests (s : jsstring) :
  plain_segment s ->
  eqb s [] = false /\ eqb s Path.dot = false /\ eqb s Path.dotdot = false.
Proof.
  intros (H1 & H2 & H3 & _). unfold eqb.
  by rewrite !bool_decide_eq_false_2.
Qed.

(** Plain segments pass through normalization untouched. *)
Lemma normalize_segments_plain (allow : bool) (segs stack : list jsstring) :
  Forall plain_segment segs ->
  Path.normalize_segments allow stack segs = rev stack ++ segs.
Proof.
  intros Hall. revert stack.
  induction Hall as [|s segs Hs _ IH]; intros stack; cbn [Path.normalize_segments].
  - by rewrite app_nil_r.
  - destruct (plain_segment_tests s Hs) as (-> & -> & ->). cbn [orb].
    rewrite IH. cbn [rev]. by rewrite <- app_assoc.
Qed.

Lemma normalize_segments_app (allow : bool) (s1 s2 stack : list jsstring) :
  Path.normalize_segments allow stack (s1 ++ s2)
  = Path.normalize_segments allow (rev (Path.normalize_segments allow stack s1)) s2.
Proof.
  revert stack. induction s1 as [|s s1 IH]; intros stack;
    cbn [app Path.normalize_segments].
  - by rewrite rev_involutive.
  - destruct (eqb s [] || eqb s Path.dot); [apply IH|].
    destruct (eqb s Path.dotdot); [|apply IH].
    destruct stack as [|top below]; [destruct allow; apply IH|].
    destruct (eqb top Path.dotdot); apply IH.
Qed.

(** Below an absolute path, normalization leaves plain segments only. *)
Lemma normalize_segments_gives_plain (segs stack : list jsstring) :
  Forall plain_segment stack ->
  Forall (fun s => Path.slash ∉ s) segs ->
  Forall plain_segment (Path.normalize_segments false stack segs).
Proof.
  intros Hstack Hsegs. revert stack Hstack.
  induction Hsegs as [|s segs Hs _ IH]; intros stack Hstack;
    cbn [Path.normalize_segments].
  - apply Forall_forall. intros x Hx. rewrite Forall_forall in Hstack.
    apply Hstack. rewrite list_elem_of_In in *. by apply in_rev.
  - unfold eqb at 1 2.
    destruct (decide (s = [])) as [->|Hne];
      [rewrite bool_decide_eq_true_2 by done; by apply IH|].
    rewrite (bool_decide_eq_false_2 (s = [])) by done.
    destruct (decide (s = Path.dot)) as [->|Hdot];
      [rewrite bool_decide_eq_true_2 by done; by apply IH|].
    rewrite (bool_decide_eq_false_2 (s = Path.dot)) by done. cbn [orb].
    unfold eqb at 1.
    destruct (decide (s = Path.dotdot)) as [->|Hdd].
    + rewrite bool_decide_eq_true_2 by done.
      destruct stack as [|top below]; [by apply IH|].
      inversion Hstack as [|? ? Htop Hbelow]; subst.
      destruct (plain_segment_tests top Htop) as (_ & _ & ->). by apply IH.
    + rewrite bool_decide_eq_false_2 by done. apply IH.
      constructor; [|done]. by repeat split.
Qed.

Lemma resolve_loop_absolute (cwd : jsstring) (rargs : list jsstring) (r : jsstring) :
  Path.isAbsolute cwd = true -> snd (Path.resolve_loop cwd rargs r) = true.
Proof.
  intros Hcwd. revert r. induction rargs as [|p rargs IH]; intros r;
    cbn [Path.resolve_loop].
  - destruct cwd; [done|]. done.
  - destruct p as [|c p]; [apply IH|].
    destruct (Path.isAbsolute (c :: p)); [done | apply IH].
Qed.

(** From an absolute working directory, [path.resolve] always gives a
    slash followed by plain segments joined by slashes. *)
Lemma resolve_shape (cwd : jsstring) (args : list jsstring) :
  Path.isAbsolute cwd = true ->
  exists segs,
    Forall plain_segment segs
    /\ Path.resolve cwd args = Path.slash :: JsString.join [Path.slash] segs.
Proof.
  intros Hcwd. unfold Path.resolve.
  pose proof (resolve_loop_absolute cwd (rev args) [] Hcwd) as Habs.
  destruct (Path.resolve_loop cwd (rev args) []) as [resolved absolute].
  cbn [snd] in Habs. subst absolute. cbn [negb].
  eexists. split; [|reflexivity].
  apply normalize_segments_gives_plain; [constructor | apply split_pieces].
Qed.

Lemma split_slash_first (s : jsstring) :
  split Path.slash (Path.slash :: s) = [] :: split Path.slash s.
Proof. unfold split. cbn [split_rev]. by rewrite N.eqb_refl. Qed.

Lemma split_then_slash (s : jsstring) :
  split Path.slash (s ++ [Path.slash]) = split Path.slash s ++ [[]].
Proof. unfold split. by rewrite split_rev_app. Qed.

Lemma normalize_segments_split_join (allow : bool) (segs stack more : list jsstring) :
  Forall plain_segment segs ->
  Path.normalize_segments allow stack
    (split Path.slash (JsString.join [Path.slash] segs) ++ more)
  = Path.normalize_segments allow (rev segs ++ stack) more.
Proof.
  intros Hall. destruct segs as [|s segs]; [reflexivity|].
  rewrite split_join; [|done|].
  - rewrite normalize_segments_app, (normalize_segments_plain allow (s :: segs)) by done.
    by rewrite rev_app_distr, rev_involutive.
  - eapply Forall_impl; [exact Hall|]. by intros x (_ & _ & _ & Hx).
Qed.

Lemma normalize_segments_trailing (allow : bool) (stack segs : list jsstring) :
  Path.normalize_segments allow stack (segs ++ [[]])
  = Path.normalize_segments allow stack segs.
Proof. rewrite normalize_segments_app. cbn. by rewrite rev_involutive. Qed.

Lemma split_app_slash (a b : jsstring) :
  split Path.slash (a ++ Path.slash :: b) = split Path.slash a ++ split Path.slash b.
Proof. unfold split. apply split_rev_app. Qed.

Lemma normalize_segments_skip_empty (allow : bool) (stack segs : list jsstring) :
  Path.normalize_segments allow stack ([] :: segs)
  = Path.normalize_segments allow stack segs.
Proof. reflexivity. Qed.

Lemma isAbsolute_slash (s : jsstring) : Path.isAbsolute (Path.slash :: s) = true.
Proof. reflexivity. Qed.

Lemma resolve_in_root (cwd rel : jsstring) (rsegs : list jsstring) :
  Forall plain_segment rsegs ->
  Path.resolve cwd [Path.slash :: JsString.join [Path.slash] rsegs; rel]
  = Path.slash :: JsString.join [Path.slash] (resolved_segments rsegs rel).
Proof.
  intros Hr. unfold Path.resolve, resolved_segments. cbn [rev app Path.resolve_loop].
  destruct rel as [|c rel].
  - rewrite isAbsolute_slash. cbn [negb Path.isAbsolute].
    unfold Path.normalizeString. do 2 f_equal.
    rewrite split_slash_first, normalize_segments_skip_empty, split_then_slash.
    rewrite normalize_segments_split_join by done. by rewrite app_nil_r.
  - destruct (Path.isAbsolute (c :: rel)) eqn:Habs; cbn [negb].
    + unfold Path.normalizeString. do 2 f_equal.
      by rewrite split_then_slash, normalize_segments_trailing.
    + rewrite isAbsolute_slash. cbn [negb].
      unfold Path.normalizeString. do 2 f_equal.
      rewrite split_slash_first, normalize_segments_skip_empty, split_app_slash.
      rewrite normalize_segments_split_join by done.
      rewrite split_then_slash, normalize_segments_trailing. by rewrite app_nil_r.
Qed.

Lemma startsWith_self_app (p rest : jsstring) : startsWith (p ++ rest) p = true.
Proof. apply startsWith_app. by exists rest. Qed.

Lemma startsWith_length (s p : jsstring) :
  startsWith s p = true -> (length p <= length s)%nat.
Proof.
  intros [rest ->]%startsWith_app. rewrite length_app. lia.
Qed.

Lemma segments_of_joined (segs : list jsstring) :
  Forall plain_segment segs ->
  Path.segments (Path.slash :: JsString.join [Path.slash] segs) = segs.
Proof.
  intros Hall. unfold Path.segments. rewrite split_slash_first.
  rewrite filter_cons_False by (intros H; by apply H).
  destruct segs as [|s segs]; [reflexivity|].
  rewrite split_join; [|done|].
  - induction Hall as [|x l (Hx & _) _ IH]; [done|].
    rewrite filter_cons_True by done. by rewrite IH.
  - eapply Forall_impl; [exact Hall|]. by intros x (_ & _ & _ & Hx).
Qed.

Lemma segments_below_app (rsegs fsegs : list jsstring) :
  segments_below rsegs fsegs = true <-> exists more, fsegs = rsegs ++ more.
Proof.
  revert fsegs. induction rsegs as [|r rsegs IH]; intros fsegs; cbn [segments_below].
  - split; [intros _; by exists fsegs | done].
  - destruct fsegs as [|f fsegs].
    + split; [done | intros [more H]; discriminate].
    + rewrite andb_true_iff, IH. unfold eqb. rewrite bool_decide_eq_true. split.
      * intros [-> [more ->]]. by exists more.
      * intros [more H]. injection H as -> ->. split; [done | by exists more].
Qed.

Lemma startsWith_joined (rsegs more : list jsstring) :
  startsWith (JsString.join [Path.slash] (rsegs ++ more))
             (JsString.join [Path.slash] rsegs) = true.
Proof.
  destruct rsegs as [|r rsegs]; [done|].
  destruct more as [|m more].
  - rewrite app_nil_r. apply startsWith_app. exists []. by rewrite app_nil_r.
  - rewrite join_app by done. apply startsWith_self_app.
Qed.

Lemma split_rev_cur (sep : N) (s cur : jsstring) :
  split_rev sep cur s
  = match split_rev sep [] s with
    | x :: xs => (rev cur ++ x) :: xs
    | [] => []
    end.
Proof.
  revert cur. induction s as [|c s IH]; intros cur; cbn [split_rev].
  - cbn. by rewrite app_nil_r.
  - destruct (c =? sep).
    + cbn. by rewrite app_nil_r.
    + rewrite (IH (c :: cur)), (IH [c]).
      destruct (split_rev sep [] s) as [|x xs]; [done|].
      cbn [rev app]. by rewrite <- app_assoc.
Qed.

Lemma split_rev_nonempty (sep : N) (s cur : jsstring) : split_rev sep cur s <> [].
Proof.
  revert cur. induction s as [|c s IH]; intros cur; cbn [split_rev]; [done|].
  destruct (c =? sep); [done | apply IH].
Qed.

(** Splitting a concatenation: the last piece of the left part and the
    first piece of the right part merge. *)
Lemma split_rev_app_merge (sep : N) (a cur : jsstring) :
  exists front lastp,
    split_rev sep cur a = front ++ [lastp]
    /\ forall b, split_rev sep cur (a ++ b) = front ++ split_rev sep (rev lastp) b.
Proof.
  revert cur. induction a as [|c a IH]; intros cur.
  - exists [], (rev cur). split; [done|]. intros b. cbn. by rewrite rev_involutive.
  - cbn [split_rev app]. destruct (c =? sep).
    + destruct (IH []) as (front & lastp & Hs & Hb).
      exists (rev cur :: front), lastp. rewrite Hs. split; [done|].
      intros b. by rewrite Hb.
    + apply IH.
Qed.

Lemma split_app_merge (sep : N) (init : list jsstring) (l a b : jsstring) :
  split sep a = init ++ [l] ->
  exists e more, split sep (a ++ b) = init ++ (l ++ e) :: more.
Proof.
  intros Ha. unfold split in *.
  destruct (split_rev_app_merge sep a []) as (front & lastp & Hs & Hb).
  rewrite Hs in Ha. apply app_inj_tail in Ha as [-> ->].
  rewrite Hb, split_rev_cur, rev_involutive.
  destruct (split_rev sep [] b) as [|x xs] eqn:Hx.
  - by apply split_rev_nonempty in Hx.
  - by exists x, xs.
Qed.

(** When the joined segments of one path start, as strings, with those of
    another: same leading segments, and the segment at the other's last
    position extends its last segment. *)
Lemma startsWith_joined_iff (rsegs fsegs : list jsstring) :
  Forall plain_segment rsegs -> Forall plain_segment fsegs ->
  startsWith (JsString.join [Path.slash] fsegs) (JsString.join [Path.slash] rsegs) = true
  <-> rsegs = []
      \/ exists init l e more, rsegs = init ++ [l] /\ fsegs = init ++ (l ++ e) :: more.
Proof.
  intros Hr Hf. split.
  - intros [k Hk]%startsWith_app.
    destruct rsegs as [|r0 rsegs'] eqn:Hrs; [by left|]. right. rewrite <- Hrs in *.
    assert (rsegs <> []) as Hne by by rewrite Hrs.
    destruct (exists_last Hne) as (init & l & Hil).
    assert (Forall (fun s => Path.slash ∉ s) rsegs) as Hrns.
    { eapply Forall_impl; [exact Hr|]. by intros x (_ & _ & _ & Hx). }
    assert (Forall (fun s => Path.slash ∉ s) fsegs) as Hfns.
    { eapply Forall_impl; [exact Hf|]. by intros x (_ & _ & _ & Hx). }
    assert (fsegs <> []) as Hfne.
    { intros ->. cbn in Hk. symmetry in Hk. apply app_eq_nil in Hk as [Hk _].
      rewrite Hrs in Hk, Hr. inversion Hr as [|? ? (Hr0 & _) _]; subst.
      destruct r0; [done|]. by destruct rsegs'. }
    pose proof (split_join Path.slash rsegs Hne Hrns) as Hsr. rewrite Hil in Hsr at 2.
    destruct (split_app_merge Path.slash init l _ k Hsr) as (e & more & Hsplit).
    rewrite <- Hk, split_join in Hsplit by done.
    exists init, l, e, more. by rewrite <- Hil.
  - intros [-> | (init & l & e & more & -> & ->)]; [done|].
    apply startsWith_app.
    destruct init as [|i0 init'].
    + cbn [app]. destruct more as [|m more].
      * exists e. done.
      * exists (e ++ [Path.slash] ++ JsString.join [Path.slash] (m :: more)).
        change (JsString.join [Path.slash] ((l ++ e) :: m :: more))
          with ((l ++ e) ++ [Path.slash] ++ JsString.join [Path.slash] (m :: more)).
        cbn [JsString.join]. by rewrite <- !app_assoc.
    + rewrite !(join_app [Path.slash] (i0 :: init')) by done.
      destruct more as [|m more].
      * exists e. cbn [JsString.join]. by rewrite <- !app_assoc.
      * exists (e ++ [Path.slash] ++ JsString.join [Path.slash] (m :: more)).
        change (JsString.join [Path.slash] ((l ++ e) :: m :: more))
          with ((l ++ e) ++ [Path.slash] ++ JsString.join [Path.slash] (m :: more)).
        cbn [JsString.join]. by rewrite <- !app_assoc.
Qed.
Section PathGuardFacts.

Context (P : platform).
Hypothesis Hcwd : Path.isAbsolute (process_cwd P) = true.

(** The root is a slash followed by plain segments. *)
Lemma WORKSPACE_ROOT_shape :
  exists rsegs,
    Forall plain_segment rsegs
    /\ WORKSPACE_ROOT P = Path.slash :: JsString.join [Path.slash] rsegs.
Proof. unfold WORKSPACE_ROOT. by apply resolve_shape. Qed.

(** The guard on a string, in terms of the segments of the root and of
    the resolved path. *)
Lemma resolveSafe_by_segments (rel : jsstring) :
  exists rsegs fsegs,
    Forall plain_segment rsegs /\ Forall plain_segment fsegs
    /\ Path.segments (WORKSPACE_ROOT P) = rsegs
    /\ Path.segments (Path.resolve (process_cwd P) [WORKSPACE_ROOT P; rel]) = fsegs
    /\ Path.resolve (process_cwd P) [WORKSPACE_ROOT P; rel]
       = Path.slash :: JsString.join [Path.slash] fsegs
    /\ fsegs = resolved_segments rsegs rel
    /\ (rel <> [] ->
        resolveSafe P (JStr rel)
        = if startsWith (JsString.join [Path.slash] fsegs)
                        (JsString.join [Path.slash] rsegs)
          then Ok (Path.resolve (process_cwd P) [WORKSPACE_ROOT P; rel])
          else Throw (Error (js "Path escapes workspace root"))).
Proof.
  destruct WORKSPACE_ROOT_shape as (rsegs & Hplain & Hroot).
  assert (Forall plain_segment (resolved_segments rsegs rel)) as Hf.
  { unfold resolved_segments. apply normalize_segments_gives_plain.
    - destruct (Path.isAbsolute rel); [constructor|].
      apply Forall_forall. intros x Hx. rewrite Forall_forall in Hplain.
      apply Hplain. rewrite list_elem_of_In in *. by apply in_rev.
    - apply split_pieces. }
  assert (Path.resolve (process_cwd P) [WORKSPACE_ROOT P; rel]
          = Path.slash :: JsString.join [Path.slash] (resolved_segments rsegs rel))
    as Hfull by (rewrite Hroot; by apply resolve_in_root).
  exists rsegs, (resolved_segments rsegs rel).
  split; [done|]. split; [done|].
  split; [by rewrite Hroot, segments_of_joined|].
  split; [by rewrite Hfull, segments_of_joined|].
  split; [done|]. split; [done|].
  intros Hrel. unfold resolveSafe, or_else. cbn [truthy].
  unfold eqb. rewrite bool_decide_eq_false_2 by done.
  cbn [negb path_resolve_in_root]. rewrite Hfull. rewrite Hroot at 1.
  cbn [startsWith]. rewrite N.eqb_refl. cbn [andb]. by destruct (startsWith _ _).
Qed.

Lemma resolveSafe_dot :
  resolveSafe P (JStr Path.dot) = Ok (WORKSPACE_ROOT P).
Proof.
  unfold resolveSafe, or_else. change (truthy (JStr Path.dot)) with true.
  cbn [path_resolve_in_root].
  assert (Path.resolve (process_cwd P) [WORKSPACE_ROOT P; Path.dot] = WORKSPACE_ROOT P)
    as ->.
  { destruct WORKSPACE_ROOT_shape as (rsegs & Hplain & Hroot).
    rewrite Hroot, resolve_in_root by done.
    unfold resolved_segments. cbn. by rewrite rev_involutive. }
  rewrite (proj2 (startsWith_app (WORKSPACE_ROOT P) (WORKSPACE_ROOT P)))
    by (exists []; by rewrite app_nil_r).
  reflexivity.
Qed.

(** X1. An absent, empty or otherwise falsy path, and the path [.],
    resolve to the workspace root itself. *)
Theorem resolveSafe_default_is_root (v : jsval) :
  truthy v = false \/ v = JStr Path.dot ->
  resolveSafe P v = Ok (WORKSPACE_ROOT P).
Proof.
  intros Hv. rewrite <- resolveSafe_dot. unfold resolveSafe, or_else.
  destruct Hv as [-> | ->]; done.
Qed.

(** X2. Whatever [resolveSafe] accepts is absolute and normalized: a
    slash followed by segments none of which is empty, [.] or [..] or
    holds a slash. *)
Theorem resolveSafe_result_is_normalized (v : jsval) (full : jsstring) :
  resolveSafe P v = Ok full ->
  Forall plain_segment (Path.segments full)
  /\ full = Path.slash :: JsString.join [Path.slash] (Path.segments full).
Proof.
  unfold resolveSafe. destruct (or_else v (JStr Path.dot)) as [| | | |s|]; try done.
  cbn [path_resolve_in_root].
  destruct (resolve_shape (process_cwd P) [WORKSPACE_ROOT P; s] Hcwd)
    as (segs & Hplain & Hfull).
  destruct (startsWith _ _); cbn [negb]; [|done]. intros [= <-].
  rewrite Hfull, segments_of_joined by done. done.
Qed.

(** X3. The guard accepts exactly two kinds of paths: those whose
    resolution lies below the root, and those whose resolution has the
    root's leading segments and then a segment that extends the root's
    last segment by some characters; everything else is refused with the
    escape error. *)
Theorem resolveSafe_accepts_exactly (rel : jsstring) :
  rel <> [] ->
  let full := Path.resolve (process_cwd P) [WORKSPACE_ROOT P; rel] in
  let accepted :=
    Path.segments (WORKSPACE_ROOT P) = []
    \/ exists init l e more,
        Path.segments (WORKSPACE_ROOT P) = init ++ [l]
        /\ Path.segments full = init ++ (l ++ e) :: more in
  (accepted /\ resolveSafe P (JStr rel) = Ok full)
  \/ (~ accepted
      /\ resolveSafe P (JStr rel) = Throw (Error (js "Path escapes workspace root"))).
Proof.
  intros Hrel full accepted. subst full accepted.
  destruct (resolveSafe_by_segments rel)
    as (rsegs & fsegs & Hr & Hf & -> & -> & _ & _ & Hsafe).
  rewrite (Hsafe Hrel).
  pose proof (startsWith_joined_iff rsegs fsegs Hr Hf) as Hiff.
  destruct (startsWith _ _).
  - left. split; [by apply Hiff | done].
  - right. split; [|done]. intros Hacc. by apply Hiff in Hacc.
Qed.

(** X4. The true half of the containment property: a path whose
    resolution lies below the root segment by segment is accepted, and
    what is returned is that resolution. *)
Theorem resolveSafe_accepts_inside (rel : jsstring) :
  rel <> [] ->
  inside_root (WORKSPACE_ROOT P)
              (Path.resolve (process_cwd P) [WORKSPACE_ROOT P; rel]) = true ->
  resolveSafe P (JStr rel)
  = Ok (Path.resolve (process_cwd P) [WORKSPACE_ROOT P; rel]).
Proof.
  intros Hrel Hin. unfold inside_root in Hin.
  destruct (resolveSafe_by_segments rel)
    as (rsegs & fsegs & Hr & Hf & Hrs & Hfs & _ & _ & Hsafe).
  rewrite Hrs, Hfs in Hin. apply segments_below_app in Hin as [more ->].
  by rewrite (Hsafe Hrel), startsWith_joined.
Qed.

(** X5. A path that resolves to fewer segments than the root has (a
    proper ancestor of the root, or anything below one at a smaller
    depth) is refused. *)
Theorem resolveSafe_refuses_shallower (rel : jsstring) :
  rel <> [] ->
  (length (Path.segments (Path.resolve (process_cwd P) [WORKSPACE_ROOT P; rel]))
   < length (Path.segments (WORKSPACE_ROOT P)))%nat ->
  resolveSafe P (JStr rel) = Throw (Error (js "Path escapes workspace root")).
Proof.
  intros Hrel Hlen.
  destruct (resolveSafe_by_segments rel)
    as (rsegs & fsegs & Hr & Hf & Hrs & Hfs & _ & _ & Hsafe).
  rewrite Hrs, Hfs in Hlen. rewrite (Hsafe Hrel).
  pose proof (startsWith_joined_iff rsegs fsegs Hr Hf) as Hiff.
  destruct (startsWith _ _); [|done]. exfalso.
  destruct (proj1 Hiff eq_refl) as [-> | (init & l & e & more & -> & ->)].
  - cbn in Hlen. lia.
  - rewrite !length_app in Hlen. cbn in Hlen. lia.
Qed.

(** X6. A relative path made of plain names resolves below the root, to
    the root's segments followed by those names. *)
Theorem resolveSafe_plain_names (names : list jsstring) :
  names <> [] ->
  Forall plain_segment names ->
  exists full,
    resolveSafe P (JStr (JsString.join [Path.slash] names)) = Ok full
    /\ Path.segments full = Path.segments (WORKSPACE_ROOT P) ++ names
    /\ inside_root (WORKSPACE_ROOT P) full = true.
Proof.
  intros Hne Hnames.
  assert (Forall (fun s => Path.slash ∉ s) names) as Hns.
  { eapply Forall_impl; [exact Hnames|]. by intros x (_ & _ & _ & Hx). }
  assert (JsString.join [Path.slash] names <> []) as Hrel.
  { destruct names as [|n names]; [done|].
    inversion Hnames as [|? ? (Hn & _) _]; subst.
    destruct n; [done|]. by destruct names. }
  assert (Path.isAbsolute (JsString.join [Path.slash] names) = false) as Hnabs.
  { destruct names as [|n names]; [done|].
    inversion Hnames as [|? ? (Hn & _ & _ & Hslash) _]; subst.
    destruct n as [|c n]; [done|].
    assert (c <> Path.slash) as Hc by (intros ->; apply Hslash; left).
    destruct names; cbn; by apply N.eqb_neq. }
  destruct (resolveSafe_by_segments (JsString.join [Path.slash] names))
    as (rsegs & fsegs & Hr & Hf & Hrs & Hfs & Hfull & Hdef & Hsafe).
  assert (fsegs = rsegs ++ names) as ->.
  { rewrite Hdef. unfold resolved_segments.
    rewrite Hnabs, split_join, normalize_segments_plain by done.
    by rewrite rev_involutive. }
  exists (Path.resolve (process_cwd P)
            [WORKSPACE_ROOT P; JsString.join [Path.slash] names]).
  split; [|split].
  - by rewrite (Hsafe Hrel), startsWith_joined.
  - by rewrite Hfs, Hrs.
  - unfold inside_root. rewrite Hfs, Hrs. apply segments_below_app. by exists names.
Qed.

End PathGuardFacts.

(** ** What the read-only operations leave alone *)

Lemma stat_entries_unchanged (dir : jsstring) (es : list Fs.Dirent) (w : world) :
  snd (stat_entries dir es w) = w.
Proof.
  induction es as [|e es IH]; [done|].
  cbn [stat_entries]. unfold bind, Fs.statSync, ret in *.
  destruct (Fs.lookup (files w) _) as [n|]; [|done].
  by destruct (stat_entries dir es w) as [[tl|err] w'].
Qed.

Lemma listDir_unchanged (P : platform) (v : jsval) (w : world) :
  snd (listDir P v w) = w.
Proof.
  unfold listDir, bind, lift, Fs.readdirSync.
  destruct (resolveSafe P _) as [dir|e]; [|done].
  destruct (Fs.lookup (files w) dir) as [[d|]|]; try done.
  apply stat_entries_unchanged.
Qed.

Lemma readFile_unchanged (P : platform) (v : jsval) (opt : option Z) (w : world) :
  snd (readFile P v opt w) = w.
Proof.
  unfold readFile, bind, lift, Fs.readFileSync, ret.
  destruct (resolveSafe P v) as [p|e]; [|done].
  destruct (Fs.lookup (files w) p) as [[d|]|]; try done.
  by destruct (_ >? _)%Z.
Qed.

Lemma globSearch_unchanged (P : platform) (pattern cwd : jsval) (w : world) :
  snd (globSearch P pattern cwd w) = w.
Proof.
  unfold globSearch, bind, lift. by destruct (resolveSafe P _).
Qed.

Lemma grep_files_unchanged (P : platform) (test : jsstring -> bool) (cwd : jsstring)
      (maxMatches : Z) (w : world) (fs : list jsstring) (out : list grep_match) :
  snd (grep_files P test cwd maxMatches fs out w) = w.
Proof.
  destruct (grep_files_take P test cwd maxMatches w fs out) as (r & -> & _). done.
Qed.

Lemma grep_unchanged (P : platform) (pattern cwd : jsval) (opt : option Z) (w : world) :
  snd (grep P pattern cwd opt w) = w.
Proof.
  unfold grep, bind, lift.
  destruct (resolveSafe P _) as [dir|e]; [|done].
  destruct (RegExp P pattern (js "i")) as [test|e]; [|done].
  destruct (fg_sync P _ _ _ _) as [fs|e]; [|done].
  pose proof (grep_files_unchanged P test dir
                (match opt with Some n => n | None => 200%Z end) w fs []) as H.
  by destruct (grep_files P test dir _ fs [] w) as [[out|e] w'].
Qed.

Lemma listSome_unchanged (P : platform) (patterns : list jsstring) (limit : Z) (w : world) :
  snd (listSome P patterns limit w) = w.
Proof. unfold listSome, bind, ret. by destruct (fg_sync P _ _ _ _). Qed.

Lemma workspaceSummary_unchanged (P : platform) (w : world) :
  snd (workspaceSummary P w) = w.
Proof.
  unfold workspaceSummary, bind.
  pose proof (listDir_unchanged P (JStr Path.dot) w) as H1.
  destruct (listDir P (JStr Path.dot) w) as [[top|e] w1]; cbn in H1; subst; [|done].
  pose proof (listSome_unchanged P [js "server/**/*.{js,ts}"] 60 w) as H2.
  destruct (listSome P [js "server/**/*.{js,ts}"] 60 w) as [[sf|e] w2];
    cbn in H2; subst; [|done].
  pose proof (listSome_unchanged P
                [js "web/**/*.{js,jsx,ts,tsx,css,html}"; js "web/*.{js,ts}"] 80 w) as H3.
  destruct (listSome P [js "web/**/*.{js,jsx,ts,tsx,css,html}"; js "web/*.{js,ts}"] 80 w)
    as [[wf|e] w3]; cbn in H3; subst; done.
Qed.

Lemma buildSystemPrompt_unchanged (P : platform) (w : world) :
  snd (buildSystemPrompt P w) = w.
Proof.
  unfold buildSystemPrompt, bind.
  pose proof (workspaceSummary_unchanged P w) as H.
  by destruct (workspaceSummary P w) as [[s|e] w'].
Qed.

(** X7. Listing, reading, globbing, searching and building the workspace
    summary or the system prompt never change the filesystem, whatever
    their arguments and whether they return or throw. *)
Theorem read_only_operations_change_nothing (P : platform) (w : world) :
  (forall v, snd (listDir P v w) = w)
  /\ (forall v opt, snd (readFile P v opt w) = w)
  /\ (forall pattern cwd, snd (globSearch P pattern cwd w) = w)
  /\ (forall pattern cwd opt, snd (grep P pattern cwd opt w) = w)
  /\ snd (workspaceSummary P w) = w
  /\ snd (buildSystemPrompt P w) = w.
Proof.
  repeat split; intros.
  - apply listDir_unchanged.
  - apply readFile_unchanged.
  - apply globSearch_unchanged.
  - apply grep_unchanged.
  - apply workspaceSummary_unchanged.
  - apply buildSystemPrompt_unchanged.
Qed.

(** ** Bytes and well-formed text *)

Lemma high_surrogate_range (c : N) :
  is_high_surrogate c = true -> (c <? 128) = false /\ (c <? 2048) = false
                                /\ is_low_surrogate c = false.
Proof.
  unfold is_high_surrogate, is_low_surrogate.
  rewrite andb_true_iff, N.leb_le, N.ltb_lt. intros [H1 H2].
  repeat split; [apply N.ltb_ge; lia | apply N.ltb_ge; lia |].
  apply andb_false_iff. left. apply N.leb_gt. lia.
Qed.

Lemma low_surrogate_range (c : N) :
  is_low_surrogate c = true -> (c <? 128) = false /\ (c <? 2048) = false
                               /\ is_high_surrogate c = false.
Proof.
  unfold is_high_surrogate, is_low_surrogate.
  rewrite andb_true_iff, N.leb_le, N.ltb_lt. intros [H1 H2].
  repeat split; [apply N.ltb_ge; lia | apply N.ltb_ge; lia |].
  apply andb_false_iff. right. apply N.ltb_ge. lia.
Qed.

Lemma small_unit_range (c : N) :
  (c <? 2048) = true -> is_high_surrogate c = false /\ is_low_surrogate c = false.
Proof.
  unfold is_high_surrogate, is_low_surrogate. rewrite N.ltb_lt. intros H.
  split; apply andb_false_iff; left; apply N.leb_gt; lia.
Qed.

Lemma replacement_unit_bytes (r : jsstring) :
  byteLength (65533 :: r) = (3 + byteLength r)%Z.
Proof. reflexivity. Qed.

(** Writing a text as UTF-8 and reading it back keeps its byte length. *)
Lemma byteLength_toWellFormed (s : jsstring) :
  byteLength (toWellFormed s) = byteLength s.
Proof.
  assert (forall n s, (length s <= n)%nat ->
                      byteLength (toWellFormed s) = byteLength s) as H.
  { clear s. induction n as [|n IH]; intros s Hn.
    - destruct s; [done | cbn in Hn; lia].
    - destruct s as [|c r]; [done|]. cbn [length] in Hn.
      assert (byteLength (toWellFormed r) = byteLength r) as IHr by (apply IH; lia).
      cbn [toWellFormed byteLength].
      destruct (is_high_surrogate c) eqn:Hh.
      + destruct (high_surrogate_range c Hh) as (-> & -> & _).
        destruct r as [|d r']; [done|].
        destruct (is_low_surrogate d) eqn:Hl.
        * cbn [byteLength]. destruct (high_surrogate_range c Hh) as (-> & -> & _).
          rewrite Hh, Hl. f_equal. apply IH. cbn [length] in Hn. lia.
        * by rewrite replacement_unit_bytes, IHr.
      + destruct (is_low_surrogate c) eqn:Hl.
        * destruct (low_surrogate_range c Hl) as (-> & -> & _).
          by rewrite replacement_unit_bytes, IHr.
        * cbn [byteLength]. rewrite Hh.
          destruct (c <? 128); [by rewrite IHr|].
          destruct (c <? 2048); by rewrite IHr. }
  by apply (H (length s)).
Qed.

Lemma byteLength_nonneg (s : jsstring) : (0 <= byteLength s)%Z.
Proof.
  assert (forall n s, (length s <= n)%nat -> (0 <= byteLength s)%Z) as H.
  { clear s. induction n as [|n IH]; intros s Hn.
    - destruct s; [done | cbn in Hn; lia].
    - destruct s as [|c r]; [done|]. cbn [length] in Hn.
      assert (0 <= byteLength r)%Z as IHr by (apply IH; lia).
      cbn [byteLength].
      destruct (c <? 128); [lia|]. destruct (c <? 2048); [lia|].
      destruct (is_high_surrogate c); [|lia].
      destruct r as [|d r']; [lia|].
      destruct (is_low_surrogate d); [|lia].
      assert (0 <= byteLength r')%Z by (apply IH; cbn [length] in Hn; lia). lia. }
  by apply (H (length s)).
Qed.

(** ** More on the mutation engine *)

Lemma eqb_eq (s t : jsstring) : eqb s t = true <-> s = t.
Proof. unfold eqb. apply bool_decide_eq_true. Qed.

(** *** Approved writes that succeed *)














Lemma writeFileSync_written (p data : jsstring) (w w' : world) :
  Fs.writeFileSync p data w = (Ok tt, w') ->
  Fs.lookup (files w') p = Some (File (toWellFormed data))
  /\ w' = mkWorld (<[p := File (toWellFormed data)]> (files w))
                  (effects w ++ [DidWrite p data]).
Proof.
  unfold Fs.writeFileSync, Fs.lookup.
  destruct (eqb p [Path.slash]) eqn:Hroot; [done|].
  destruct (files w !! p) as [[d|]|];
    destruct (if eqb (Path.dirname p) [Path.slash] then Some Dir
              else files w !! Path.dirname p) as [[d'|]|];
    try done; intros [= <-]; cbn [files]; by rewrite lookup_insert_eq.
Qed.

(** What an approved [writeFile] that returns has done. *)
Lemma writeFile_applied (P : platform) (rel : jsval) (text : jsstring) (approve : jsval)
      (w w' : world) (out : write_result) :
  truthy approve = true ->
  writeFile P rel text approve w = (Ok out, w') ->
  exists p w1,
    resolveSafe P rel = Ok p
    /\ out = WriteApplied (byteLength text)
    /\ Fs.writeFileSync p text w1 = (Ok tt, w')
    /\ writes (effects w1) = writes (effects w)
    /\ forall q, file_text w1 q = file_text w q.
Proof.
  intros Ha. unfold writeFile, bind, lift.
  destruct (resolveSafe P rel) as [p|e]; [|done].
  pose proof (read_before_unchanged p w) as Hr.
  destruct (read_before p w) as [[before|e] w0]; simpl in Hr; subst w0; [|done].
  rewrite Ha. cbn [negb]. unfold Fs.mkdirSync_recursive.
  destruct (mkdir_each_frame (Path.dirname p) (Fs.ancestors (Path.dirname p)) w)
    as [Hw Hf].
  destruct (Fs.mkdir_each (Path.dirname p) (Fs.ancestors (Path.dirname p)) w)
    as [[[]|e] w1]; cbn [snd] in Hw, Hf; [|done].
  destruct (Fs.writeFileSync p text w1) as [[[]|e] w2] eqn:Hwrite; [|done].
  cbn [ret]. intros [= <- <-]. by exists p, w1.
Qed.

(** What an approved [applyUnifiedPatch] does when the patch applies. *)
Lemma applyUnifiedPatch_applied_cases (P : platform) (rel : jsval) (unified : jsstring)
      (approve : jsval) (w : world) (p text : jsstring) :
  truthy approve = true ->
  resolveSafe P rel = Ok p ->
  is_directory w p = false ->
  applyPatch P (current_text w p) unified = Ok (Some text) ->
  exists w1,
    writes (effects w1) = writes (effects w)
    /\ (forall q, file_text w1 q = file_text w q)
    /\ ((exists e, applyUnifiedPatch P rel unified approve w = (Throw e, w1))
        \/ exists w2,
            applyUnifiedPatch P rel unified approve w = (Ok PatchApplied, w2)
            /\ Fs.writeFileSync p text w1 = (Ok tt, w2)).
Proof.
  intros Ha Hres Hdir Happ. unfold applyUnifiedPatch, bind, lift.
  rewrite Hres, (read_before_text _ _ Hdir), Ha. cbn [negb]. rewrite Happ.
  unfold Fs.mkdirSync_recursive.
  destruct (mkdir_each_frame (Path.dirname p) (Fs.ancestors (Path.dirname p)) w)
    as [Hw Hf].
  destruct (Fs.mkdir_each (Path.dirname p) (Fs.ancestors (Path.dirname p)) w)
    as [[[]|e] w1]; cbn [snd] in Hw, Hf.
  - exists w1. split; [done|]. split; [done|].
    destruct (writeFileSync_cases p text w1) as [[e He] | He]; rewrite He.
    + left. by exists e.
    + right. eexists. by split.
  - exists w1. split; [done|]. split; [done|]. left. by exists e.
Qed.

(** X8. When a patch applies, the text shown by the dry run is the text
    the approved call writes: the dry run returns it as preview and
    changes nothing; the approved call, when it returns, has written that
    text to the resolved path, once, and touched the text of no other
    file; when it throws it has written no file. *)
Theorem applyUnifiedPatch_writes_its_preview (P : platform) (rel : jsval)
        (unified : jsstring) (w : world) (p text : jsstring) :
  resolveSafe P rel = Ok p ->
  is_directory w p = false ->
  applyPatch P (current_text w p) unified = Ok (Some text) ->
  (forall approve,
      truthy approve = false ->
      applyUnifiedPatch P rel unified approve w
      = (Ok (PatchDryRun true (Some text)), w))
  /\ (forall approve,
         truthy approve = true ->
         match applyUnifiedPatch P rel unified approve w with
         | (Ok out, w') =>
           out = PatchApplied
           /\ writes (effects w') = writes (effects w) ++ [(p, text)]
           /\ file_text w' p = Some (toWellFormed text)
           /\ forall q, q <> p -> file_text w' q = file_text w q
         | (Throw _, w') =>
           writes (effects w') = writes (effects w)
           /\ forall q, file_text w' q = file_text w q
         end).
Proof.
  intros Hres Hdir Happ. split.
  - intros approve Ha. unfold applyUnifiedPatch, bind, lift.
    by rewrite Hres, (read_before_text _ _ Hdir), Ha, Happ.
  - intros approve Ha.
    destruct (applyUnifiedPatch_applied_cases P rel unified approve w p text
                Ha Hres Hdir Happ) as (w1 & Hw & Hf & [[e ->] | (w2 & -> & Hwrite)]);
      [done|].
    apply writeFileSync_written in Hwrite as [_ ->].
    split; [done|]. cbn [effects files]. rewrite writes_app, Hw.
    split; [done|]. unfold file_text at 1. cbn [files]. rewrite lookup_insert_eq.
    split; [done|]. intros q Hq. rewrite <- Hf. unfold file_text. cbn [files].
    by rewrite lookup_insert_ne.
Qed.

(** *** Reading *)

Lemma readFile_of_file (P : platform) (rel : jsval) (opt : option Z) (w : world)
      (p data : jsstring) :
  resolveSafe P rel = Ok p ->
  Fs.lookup (files w) p = Some (File data) ->
  readFile P rel opt w
  = (Ok (if (byteLength data >? effective_maxBytes opt)%Z
         then mkSnapshot true (slice0 data (effective_maxBytes opt)) (byteLength data)
         else mkSnapshot false data (byteLength data)), w).
Proof.
  intros Hres Hfile. unfold readFile, bind, lift, Fs.readFileSync, ret.
  rewrite Hres, Hfile. fold (effective_maxBytes opt).
  by destruct (_ >? _)%Z.
Qed.

Lemma slice0_prefix {A} (l : list A) (e : Z) : exists rest, l = slice0 l e ++ rest.
Proof. unfold slice0. eexists. symmetry. apply take_drop. Qed.

(** X9. What [readFile] returns for a file, whatever the limit: the
    total is the byte length of the whole text, the content is a prefix
    of the text and is the whole text when the file is not reported as
    truncated, and the file is reported as truncated exactly when its
    byte length exceeds the limit in force (200000 when the limit is
    absent or zero). *)
Theorem readFile_snapshot_facts (P : platform) (rel : jsval) (opt : option Z) (w : world)
        (p data : jsstring) :
  resolveSafe P rel = Ok p ->
  Fs.lookup (files w) p = Some (File data) ->
  exists s,
    readFile P rel opt w = (Ok s, w)
    /\ totalBytes s = byteLength data
    /\ (exists rest, data = content s ++ rest)
    /\ (truncated s = false -> content s = data)
    /\ (truncated s = true <-> (byteLength data > effective_maxBytes opt)%Z).
Proof.
  intros Hres Hfile. rewrite (readFile_of_file P rel opt w p data Hres Hfile).
  destruct (Z.gtb_spec (byteLength data) (effective_maxBytes opt)) as [Hgt|Hle];
    eexists; (split; [reflexivity|]); cbn [totalBytes content truncated].
  - split; [done|]. split; [apply slice0_prefix|]. split; [done|]. split; [lia|done].
  - split; [done|]. split; [exists []; by rewrite app_nil_r|]. split; [done|].
    split; [done | lia].
Qed.

(** X10. The edges of the limit: zero means the default, exactly like an
    absent limit; with a negative limit every file, even an empty one, is
    reported as truncated, and its content is the text without its last
    units, as many as the limit counts below zero. *)
Theorem readFile_limit_edges (P : platform) (rel : jsval) (w : world) :
  readFile P rel (Some 0%Z) w = readFile P rel None w
  /\ forall n p data,
      (n < 0)%Z ->
      resolveSafe P rel = Ok p ->
      Fs.lookup (files w) p = Some (File data) ->
      readFile P rel (Some n) w
      = (Ok (mkSnapshot true (take (length data - Z.to_nat (- n)) data) (byteLength data)),
         w).
Proof.
  split; [reflexivity|].
  intros n p data Hn Hres Hfile.
  rewrite (readFile_of_file P rel (Some n) w p data Hres Hfile).
  cbn [effective_maxBytes]. destruct (Z.eqb_spec n 0); [lia|].
  pose proof (byteLength_nonneg data).
  destruct (Z.gtb_spec (byteLength data) n); [|lia].
  do 3 f_equal. unfold slice0. destruct (Z.ltb_spec n 0); [|lia]. f_equal. lia.
Qed.

(** X11. Writing and reading back: after an approved [writeFile] has
    returned, [readFile] on the same path returns; the total it reports is
    the number of bytes the write reported, and unless it reports the file
    as truncated its content is the text written, lone surrogates
    replaced. *)
Theorem writeFile_then_readFile (P : platform) (rel : jsval) (text : jsstring)
        (approve : jsval) (opt : option Z) (w w' : world) (out : write_result) :
  truthy approve = true ->
  writeFile P rel text approve w = (Ok out, w') ->
  exists s,
    readFile P rel opt w' = (Ok s, w')
    /\ out = WriteApplied (totalBytes s)
    /\ totalBytes s = byteLength text
    /\ (truncated s = false -> content s = toWellFormed text)
    /\ (truncated s = true <-> (byteLength text > effective_maxBytes opt)%Z).
Proof.
  intros Ha Hwrite.
  destruct (writeFile_applied P rel text approve w w' out Ha Hwrite)
    as (p & w1 & Hres & -> & Hsync & _ & _).
  apply writeFileSync_written in Hsync as [Hfile _].
  rewrite (readFile_of_file P rel opt w' p _ Hres Hfile), byteLength_toWellFormed.
  destruct (Z.gtb_spec (byteLength text) (effective_maxBytes opt)) as [Hgt|Hle];
    eexists; (split; [reflexivity|]); cbn [totalBytes content truncated].
  - split; [done|]. split; [done|]. split; [done|]. split; [lia|done].
  - split; [done|]. split; [done|]. split; [done|]. split; [done | lia].
Qed.

(** ** More on listing and searching *)

Lemma stat_entries_result (dir : jsstring) (es : list Fs.Dirent) (w : world)
      (r : list dir_entry) :
  fst (stat_entries dir es w) = Ok r ->
  List.map entry_name r = List.map Fs.dirent_name es
  /\ Forall (fun x => entry_type x = kind_dir <-> entry_size x = None) r.
Proof.
  revert r. induction es as [|e es IH]; intros r.
  - cbn. intros [= <-]. by split.
  - cbn [stat_entries]. unfold bind, Fs.statSync, ret in *.
    destruct (Fs.lookup (files w) _) as [n|]; [|done].
    destruct (stat_entries dir es w) as [[tl|err] w']; [|done].
    cbn [fst] in *. intros [= <-]. destruct (IH tl eq_refl) as [Hn Hs].
    split; [cbn; by rewrite Hn|]. constructor; [|done].
    cbn. by destruct (Fs.dirent_isDirectory e).
Qed.

(** X12. Every entry [listDir] returns has a name outside the ignore
    list, and carries a size exactly when it is a file. *)
Theorem listDir_entries (P : platform) (v : jsval) (w : world) (r : list dir_entry) :
  fst (listDir P v w) = Ok r ->
  Forall (fun x => (entry_name x ∉ DEFAULT_IGNORES)
                   /\ (entry_type x = kind_dir <-> entry_size x = None)) r.
Proof.
  unfold listDir, bind, lift.
  destruct (resolveSafe P _) as [dir|e]; [|done].
  destruct (Fs.readdirSync dir w) as [[entries|e] w1]; [|done].
  intros Hr. apply stat_entries_result in Hr as [Hnames Hsizes].
  apply Forall_forall. intros x Hx. split.
  - assert (entry_name x ∈ List.map entry_name r) as Hin.
    { rewrite list_elem_of_In. apply in_map. by rewrite <- list_elem_of_In. }
    rewrite Hnames in Hin. rewrite list_elem_of_In in Hin.
    apply in_map_iff in Hin as (d & Hd & Hdin). rewrite <- list_elem_of_In in Hdin.
    apply list_elem_of_filter in Hdin as [Hok _]. by rewrite <- Hd.
  - rewrite Forall_forall in Hsizes. by apply Hsizes.
Qed.

Lemma scan_lines_records (test : jsstring -> bool) (file : jsstring) (idx : Z)
      (lines : list jsstring) :
  (0 <= idx)%Z ->
  Forall (fun m => test (match_text m) = true /\ (1 <= match_line m)%Z
                   /\ match_file m = file)
         (scan_lines test file idx lines).
Proof.
  revert idx. induction lines as [|line lines IH]; intros idx Hidx;
    cbn [scan_lines]; [constructor|].
  destruct (test line) eqn:Ht.
  - constructor; [cbn; repeat split; [done | lia] | apply IH; lia].
  - apply IH. lia.
Qed.

Lemma grep_files_records (P : platform) (test : jsstring -> bool) (cwd : jsstring)
      (maxMatches : Z) (w : world) (fs : list jsstring) :
  forall out r,
    Forall (fun m => test (match_text m) = true /\ (1 <= match_line m)%Z) out ->
    fst (grep_files P test cwd maxMatches fs out w) = Ok r ->
    Forall (fun m => test (match_text m) = true /\ (1 <= match_line m)%Z) r.
Proof.
  induction fs as [|f fs IH]; intros out r Hout.
  - cbn. by intros [= <-].
  - cbn [grep_files]. unfold Fs.readFileSync.
    destruct (Fs.lookup (files w) (Path.join [cwd; f])) as [[data|]|];
      try (by apply IH).
    match goal with
    | |- context [out ++ ?found] =>
      assert (Forall (fun m => test (match_text m) = true /\ (1 <= match_line m)%Z)
                     (out ++ found)) as Hall
    end.
    { apply Forall_app. split; [done|].
      eapply Forall_impl; [by apply scan_lines_records|].
      by intros m (? & ? & _). }
    destruct (_ >=? _)%Z; [cbn; by intros [= <-] | by apply IH].
Qed.

(** X13. Whatever the cap, every record [grep] returns is a line the
    compiled expression matches, numbered from 1. *)
Theorem grep_records_match (P : platform) (pattern cwdRel : jsval) (opt : option Z)
        (w : world) (test : jsstring -> bool) (r : list grep_match) :
  RegExp P pattern (js "i") = Ok test ->
  fst (grep P pattern cwdRel opt w) = Ok r ->
  Forall (fun m => test (match_text m) = true /\ (1 <= match_line m)%Z) r.
Proof.
  intros Hre. unfold grep, bind, lift.
  destruct (resolveSafe P _) as [cwd|e]; [|done]. rewrite Hre.
  destruct (fg_sync P _ _ _ _) as [fs|e]; [|done].
  pose proof (grep_files_records P test cwd
                (match opt with Some n => n | None => 200%Z end) w fs [] ) as Hrec.
  destruct (grep_files P test cwd _ fs [] w) as [[out|e] w']; [|done].
  cbn [fst ret]. intros [= <-]. unfold slice0. apply Forall_take.
  by apply Hrec.
Qed.

(** ** More on the dispatcher *)

(** Settles the comparisons between tool names written out in full. *)
Ltac decide_names :=
  repeat match goal with
         | |- context [eqb (js ?a) (js ?b)] =>
           let v := eval vm_compute in (eqb (js a) (js b)) in
           replace (eqb (js a) (js b)) with v by (vm_compute; reflexivity);
           cbv iota
         end.

(** ** Which request gets which answer *)

(** Enters the branch of [tools] for a name written out in full. *)
Ltac enter_tool :=
  match goal with
  | |- context [tools _ (mkToolsBody (Some (js ?s)) _)] =>
    let n := fresh "n" in
    let H := fresh "H" in
    remember (js s) as n eqn:H;
    destruct n; [by vm_compute in H|];
    unfold tools; cbn [tool_name tool_args_value]; rewrite H; decide_names
  end.

Section Routing.

Context (P : platform).

Lemma respond_answers {A} (wrap : A -> tool_result) (call : M A) (w : world) :
  answers wrap (call w) (respond wrap call w).
Proof. unfold answers, respond. by destruct (call w) as [[a|e] w']. Qed.

Lemma with_args_given (key : string) (d : bool) (v : args_value) (a : tool_args)
      (k : tool_args -> world -> response * world) (w : world) :
  given_args v = Some a -> with_args key d v k w = k a w.
Proof. unfold with_args, destructure. by destruct v; intros [= <-]. Qed.

Lemma with_args_null (key : string) (d : bool)
      (k : tool_args -> world -> response * world) (w : world) :
  exists msg, with_args key d ArgsNull k w = (error_answer 500 msg, w).
Proof. unfold with_args, destructure. by eexists. Qed.

Lemma tools_list_dir (v : args_value) :
  tools P (mkToolsBody (Some (js "list_dir")) v)
  = with_args "path" true v (fun a =>
      respond ResultList (listDir P (default_to (JStr Path.dot) (arg_path a)))).
Proof. by enter_tool. Qed.

Lemma tools_read_file (v : args_value) :
  tools P (mkToolsBody (Some (js "read_file")) v)
  = with_args "path" false v (fun a =>
      if negb (truthy (arg_path a))
      then fun w => (failure 400 (js "path required"), w)
      else respond ResultRead (readFile P (arg_path a) (arg_maxBytes a))).
Proof. by enter_tool. Qed.

Lemma tools_write_file (v : args_value) :
  tools P (mkToolsBody (Some (js "write_file")) v)
  = with_args "path" false v (fun a =>
      match truthy (arg_path a), is_string (arg_content a) with
      | true, Some text =>
        respond ResultWrite
          (writeFile P (arg_path a) text (default_to (JBool false) (arg_approve a)))
      | _, _ => fun w => (failure 400 (js "path and content required"), w)
      end).
Proof. by enter_tool. Qed.

Lemma tools_apply_patch (v : args_value) :
  tools P (mkToolsBody (Some (js "apply_patch")) v)
  = with_args "path" false v (fun a =>
      match truthy (arg_path a), is_string (arg_diff a) with
      | true, Some unified =>
        respond ResultPatch
          (applyUnifiedPatch P (arg_path a) unified
                             (default_to (JBool false) (arg_approve a)))
      | _, _ => fun w => (failure 400 (js "path and diff required"), w)
      end).
Proof. by enter_tool. Qed.

Lemma tools_glob (v : args_value) :
  tools P (mkToolsBody (Some (js "glob")) v)
  = with_args "pattern" true v (fun a =>
      respond ResultGlob
        (globSearch P (default_to (JStr (js "**/*")) (arg_pattern a))
                    (default_to (JStr Path.dot) (arg_cwd a)))).
Proof. by enter_tool. Qed.

Lemma tools_grep (v : args_value) :
  tools P (mkToolsBody (Some (js "grep")) v)
  = with_args "pattern" false v (fun a =>
      if negb (truthy (arg_pattern a))
      then fun w => (failure 400 (js "pattern required"), w)
      else respond ResultGrep
             (grep P (arg_pattern a) (default_to (JStr Path.dot) (arg_cwd a))
                   (arg_maxMatches a))).
Proof. by enter_tool. Qed.

(** C6, as the code has it.  Every answer of the dispatcher has one of
    two shapes: status 200 with [ok: true] and a result, or status 400
    or 500 with an error text and neither [ok] nor a result.  Which
    request gets which: a missing or empty name, a name outside the six
    tools and a missing required argument are answered with status 400
    and their message, as the state is; [null] as [args] with status
    500; otherwise the delegate is called with the arguments and their
    defaults, and the answer wraps its value under [ok: true] when it
    returns and carries the text of its exception with status 500 when
    it throws, as on a path the guard refuses or a file that is not
    there. *)
Theorem tools_answers_in_two_shapes (b : tools_body) (w : world) :
  (success_envelope (fst (tools P b w)) \/ error_envelope (fst (tools P b w)))
  /\ (tool_name b = None \/ tool_name b = Some [] ->
      tools P b w = (error_answer 400 (js "Tool name required"), w))
  /\ (forall name,
         tool_name b = Some name -> name <> [] -> name ∉ TOOL_NAMES ->
         tools P b w = (error_answer 400 (js "Unknown tool: " ++ name), w))
  /\ (forall name,
         tool_name b = Some name -> name ∈ TOOL_NAMES ->
         tool_args_value b = ArgsNull ->
         exists msg, tools P b w = (error_answer 500 msg, w))
  /\ (forall a,
         given_args (tool_args_value b) = Some a ->
         (tool_name b = Some (js "list_dir") ->
          answers ResultList
                  (listDir P (default_to (JStr Path.dot) (arg_path a)) w)
                  (tools P b w))
         /\ (tool_name b = Some (js "read_file") ->
             (truthy (arg_path a) = false ->
              tools P b w = (error_answer 400 (js "path required"), w))
             /\ (truthy (arg_path a) = true ->
                 answers ResultRead
                         (readFile P (arg_path a) (arg_maxBytes a) w)
                         (tools P b w)))
         /\ (tool_name b = Some (js "write_file") ->
             (truthy (arg_path a) = false \/ (forall text, arg_content a <> JStr text) ->
              tools P b w = (error_answer 400 (js "path and content required"), w))
             /\ (forall text,
                    truthy (arg_path a) = true -> arg_content a = JStr text ->
                    answers ResultWrite
                            (writeFile P (arg_path a) text
                                       (default_to (JBool false) (arg_approve a)) w)
                            (tools P b w)))
         /\ (tool_name b = Some (js "apply_patch") ->
             (truthy (arg_path a) = false \/ (forall unified, arg_diff a <> JStr unified) ->
              tools P b w = (error_answer 400 (js "path and diff required"), w))
             /\ (forall unified,
                    truthy (arg_path a) = true -> arg_diff a = JStr unified ->
                    answers ResultPatch
                            (applyUnifiedPatch P (arg_path a) unified
                                               (default_to (JBool false) (arg_approve a)) w)
                            (tools P b w)))
         /\ (tool_name b = Some (js "glob") ->
             answers ResultGlob
                     (globSearch P (default_to (JStr (js "**/*")) (arg_pattern a))
                                 (default_to (JStr Path.dot) (arg_cwd a)) w)
                     (tools P b w))
         /\ (tool_name b = Some (js "grep") ->
             (truthy (arg_pattern a) = false ->
              tools P b w = (error_answer 400 (js "pattern required"), w))
             /\ (truthy (arg_pattern a) = true ->
                 answers ResultGrep
                         (grep P (arg_pattern a)
                               (default_to (JStr Path.dot) (arg_cwd a))
                               (arg_maxMatches a) w)
                         (tools P b w))))
  /\ (forall a,
         given_args (tool_args_value b) = Some a ->
         tool_name b = Some (js "read_file") ->
         truthy (arg_path a) = true ->
         (resolveSafe P (arg_path a) = Throw (Error (js "Path escapes workspace root")) ->
          tools P b w = (error_answer 500 (js "Path escapes workspace root"), w))
         /\ (forall p,
                resolveSafe P (arg_path a) = Ok p ->
                Fs.lookup (files w) p = None ->
                tools P b w
                = (error_answer 500 (error_text (Fs.not_found "open" p (files w))), w))).
Proof.
  assert (forall msg : jsstring, error_envelope (failure 400 msg)) as Hbad.
  { intros msg. apply failure_is_error_envelope. by left. }
  destruct b as [n v]. cbn [tool_name tool_args_value].
  split; [|split; [|split; [|split; [|split]]]].
  - unfold tools. cbn [tool_name tool_args_value].
    destruct n as [[|c name]|]; [right; apply Hbad| |right; apply Hbad].
    repeat match goal with
           | |- context [if eqb ?x ?y then _ else _] => destruct (eqb x y)
           end;
      try (right; apply Hbad);
      apply with_args_envelope; intros a;
      repeat match goal with
             | |- context [truthy ?v] => destruct (truthy v); cbn [negb]
             | |- context [is_string ?v] => destruct (is_string v)
             end;
      first [apply respond_envelope | right; apply Hbad].
  - by intros [-> | ->].
  - intros name [= ->] Hne Hnot. by apply tools_unknown_name.
  - intros name [= ->] Hin ->. unfold TOOL_NAMES in Hin.
    rewrite !elem_of_cons, elem_of_nil in Hin.
    destruct Hin as [-> | [-> | [-> | [-> | [-> | [-> | []]]]]]].
    + rewrite tools_list_dir. apply with_args_null.
    + rewrite tools_read_file. apply with_args_null.
    + rewrite tools_write_file. apply with_args_null.
    + rewrite tools_apply_patch. apply with_args_null.
    + rewrite tools_glob. apply with_args_null.
    + rewrite tools_grep. apply with_args_null.
  - intros a Ha. split; [|split; [|split; [|split; [|split]]]]; intros [= ->].
    + rewrite tools_list_dir, (with_args_given _ _ _ _ _ _ Ha). apply respond_answers.
    + rewrite tools_read_file, (with_args_given _ _ _ _ _ _ Ha).
      split; intros ->; cbn [negb]; [done | apply respond_answers].
    + rewrite tools_write_file, (with_args_given _ _ _ _ _ _ Ha). split.
      * intros [-> | Hno]; [done|]. destruct (truthy (arg_path a)); [|done].
        destruct (arg_content a) as [| | | |text|]; try done. by destruct (Hno text).
      * intros text -> ->. apply respond_answers.
    + rewrite tools_apply_patch, (with_args_given _ _ _ _ _ _ Ha). split.
      * intros [-> | Hno]; [done|]. destruct (truthy (arg_path a)); [|done].
        destruct (arg_diff a) as [| | | |text|]; try done. by destruct (Hno text).
      * intros unified -> ->. apply respond_answers.
    + rewrite tools_glob, (with_args_given _ _ _ _ _ _ Ha). apply respond_answers.
    + rewrite tools_grep, (with_args_given _ _ _ _ _ _ Ha).
      split; intros ->; cbn [negb]; [done | apply respond_answers].
  - intros a Ha [= ->] Hpath.
    rewrite tools_read_file, (with_args_given _ _ _ _ _ _ Ha), Hpath. cbn [negb].
    split.
    + intros Hres. unfold respond, readFile, bind, lift. rewrite Hres.
      replace (error_text (Error (js "Path escapes workspace root")))
        with (js "Path escapes workspace root") by (vm_compute; reflexivity).
      reflexivity.
    + intros p Hres Hnone.
      unfold respond, readFile, bind, lift, Fs.readFileSync. by rewrite Hres, Hnone.
Qed.

End Routing.

Section DispatcherFacts.

Context (P : platform).

Lemma respond_status {A} (wrap : A -> tool_result) (call : M A) (w : world) :
  status (fst (respond wrap call w)) <> 400%Z.
Proof. unfold respond. by destruct (call w) as [[a|e] w']. Qed.

Lemma with_args_400 (key : string) (d : bool) (v : args_value)
      (k : tool_args -> world -> response * world) (w : world) :
  (forall a, status (fst (k a w)) = 400%Z -> snd (k a w) = w) ->
  status (fst (with_args key d v k w)) = 400%Z ->
  snd (with_args key d v k w) = w.
Proof.
  unfold with_args. destruct (destructure key d v) as [a|e]; [by auto | done].
Qed.

(** X14. An answer with status 400 (no tool name, unknown tool, missing
    argument) is given without any change to the filesystem: validation
    comes before any delegate. *)
Theorem tools_400_changes_nothing (b : tools_body) (w : world) :
  status (fst (tools P b w)) = 400%Z -> snd (tools P b w) = w.
Proof.
  unfold tools. destruct (tool_name b) as [[|c name]|]; [done| |done].
  repeat match goal with
         | |- context [if eqb ?x ?y then _ else _] => destruct (eqb x y)
         end;
    try done;
    apply with_args_400; intros a;
    repeat match goal with
           | |- context [truthy ?v] => destruct (truthy v); cbn [negb]
           | |- context [is_string ?v] => destruct (is_string v)
           end;
    try done; intros H; by apply respond_status in H.
Qed.

Lemma respond_unchanged {A} (wrap : A -> tool_result) (call : M A) (w : world) :
  snd (call w) = w -> snd (respond wrap call w) = w.
Proof. unfold respond. by destruct (call w) as [[a|e] w']. Qed.

Lemma with_args_unchanged (key : string) (d : bool) (v : args_value)
      (k : tool_args -> world -> response * world) (w : world) (Q : Prop) :
  (forall a, v = ArgsObject a \/ a = no_args -> snd (k a w) = w \/ Q) ->
  snd (with_args key d v k w) = w \/ Q.
Proof.
  unfold with_args, destructure. destruct v as [| |a]; [|by left|]; auto.
Qed.

Lemma applyUnifiedPatch_dry_run_unchanged rel unified approve w :
  truthy approve = false ->
  snd (applyUnifiedPatch P rel unified approve w) = w.
Proof.
  intros Ha. unfold applyUnifiedPatch, bind, lift.
  destruct (resolveSafe P rel) as [p|e]; [|done].
  pose proof (read_before_unchanged p w) as Hr.
  destruct (read_before p w) as [[before|e] w']; simpl in Hr; subst w'; [|done].
  rewrite Ha. cbn [negb].
  destruct (applyPatch P before unified) as [[text|]|e]; done.
Qed.

(** X15. The filesystem changes only through [write_file] or
    [apply_patch] called with an [approve] that counts as true: every
    other request, whatever it answers, leaves the state exactly as it
    was. *)
Theorem tools_change_only_when_approved (b : tools_body) (w : world) :
  snd (tools P b w) = w
  \/ exists a,
      tool_args_value b = ArgsObject a
      /\ truthy (arg_approve a) = true
      /\ (tool_name b = Some (js "write_file") \/ tool_name b = Some (js "apply_patch")).
Proof.
  unfold tools. destruct (tool_name b) as [[|c name]|] eqn:Hname; [by left| |by left].
  destruct (eqb (c :: name) (js "list_dir")).
  { apply with_args_unchanged. intros a _. left.
    apply respond_unchanged, listDir_unchanged. }
  destruct (eqb (c :: name) (js "read_file")).
  { apply with_args_unchanged. intros a _. left.
    destruct (truthy (arg_path a)); cbn [negb]; [|done].
    apply respond_unchanged, readFile_unchanged. }
  destruct (eqb (c :: name) (js "write_file")) eqn:Hw.
  { apply eqb_eq in Hw.
    apply with_args_unchanged. intros a Ha.
    destruct (truthy (arg_path a)); [|by left].
    destruct (is_string (arg_content a)) as [text|]; [|by left].
    destruct (truthy (arg_approve a)) eqn:Happ.
    - destruct Ha as [Ha | ->]; [|done]. right. exists a.
      split; [done|]. split; [done|]. left. by rewrite Hw.
    - left. apply respond_unchanged, writeFile_dry_run_unchanged.
      by destruct (arg_approve a). }
  destruct (eqb (c :: name) (js "apply_patch")) eqn:Hp.
  { apply eqb_eq in Hp.
    apply with_args_unchanged. intros a Ha.
    destruct (truthy (arg_path a)); [|by left].
    destruct (is_string (arg_diff a)) as [unified|]; [|by left].
    destruct (truthy (arg_approve a)) eqn:Happ.
    - destruct Ha as [Ha | ->]; [|done]. right. exists a.
      split; [done|]. split; [done|]. right. by rewrite Hp.
    - left. apply respond_unchanged, applyUnifiedPatch_dry_run_unchanged.
      by destruct (arg_approve a). }
  destruct (eqb (c :: name) (js "glob")).
  { apply with_args_unchanged. intros a _. left.
    apply respond_unchanged, globSearch_unchanged. }
  destruct (eqb (c :: name) (js "grep")).
  { apply with_args_unchanged. intros a _. left.
    destruct (truthy (arg_pattern a)); cbn [negb]; [|done].
    apply respond_unchanged, grep_unchanged. }
  by left.
Qed.

End DispatcherFacts.

Section RefusedPaths.

Context (P : platform).

(** The default [.] of the delegates makes no difference to the guard,
    which has the same default. *)
Lemma resolveSafe_default (v : jsval) :
  resolveSafe P (default_to (JStr Path.dot) v) = resolveSafe P v.
Proof. by destruct v. Qed.

(** X16. A path the guard refuses is answered with status 500 and the
    guard's message, and nothing is read or written: for [list_dir]
    whatever the other arguments, for [read_file], [write_file] and
    [apply_patch] once the arguments the tool asks for are there, and
    likewise for a refused [cwd] of [glob] and [grep]. *)
Theorem tools_refused_path (a : tool_args) (w : world) :
  (resolveSafe P (arg_path a) = Throw (Error (js "Path escapes workspace root")) ->
   tools P (mkToolsBody (Some (js "list_dir")) (ArgsObject a)) w
   = (failure 500 (js "Path escapes workspace root"), w)
   /\ (truthy (arg_path a) = true ->
       tools P (mkToolsBody (Some (js "read_file")) (ArgsObject a)) w
       = (failure 500 (js "Path escapes workspace root"), w))
   /\ (forall text,
          truthy (arg_path a) = true -> arg_content a = JStr text ->
          tools P (mkToolsBody (Some (js "write_file")) (ArgsObject a)) w
          = (failure 500 (js "Path escapes workspace root"), w))
   /\ (forall unified,
          truthy (arg_path a) = true -> arg_diff a = JStr unified ->
          tools P (mkToolsBody (Some (js "apply_patch")) (ArgsObject a)) w
          = (failure 500 (js "Path escapes workspace root"), w)))
  /\ (resolveSafe P (arg_cwd a) = Throw (Error (js "Path escapes workspace root")) ->
      tools P (mkToolsBody (Some (js "glob")) (ArgsObject a)) w
      = (failure 500 (js "Path escapes workspace root"), w)
      /\ (truthy (arg_pattern a) = true ->
          tools P (mkToolsBody (Some (js "grep")) (ArgsObject a)) w
          = (failure 500 (js "Path escapes workspace root"), w))).
Proof.
  assert (error_text (Error (js "Path escapes workspace root"))
          = js "Path escapes workspace root") as Htext by (vm_compute; reflexivity).
  split.
  - intros Hres. split; [|split; [|split]].
    + rewrite tools_list_dir. unfold with_args, destructure, respond, listDir, bind, lift.
      by rewrite !resolveSafe_default, Hres, Htext.
    + intros Hpath. rewrite tools_read_file.
      unfold with_args, destructure, respond, readFile, bind, lift.
      by rewrite Hpath, Hres, Htext.
    + intros text Hpath Hcontent. rewrite tools_write_file.
      unfold with_args, destructure, respond, writeFile, bind, lift.
      by rewrite Hpath, Hcontent, Hres, Htext.
    + intros unified Hpath Hdiff. rewrite tools_apply_patch.
      unfold with_args, destructure, respond, applyUnifiedPatch, bind, lift.
      by rewrite Hpath, Hdiff, Hres, Htext.
  - intros Hres. split.
    + rewrite tools_glob. unfold with_args, destructure, respond, globSearch, bind, lift.
      by rewrite !resolveSafe_default, Hres, Htext.
    + intros Hpat. rewrite tools_grep.
      unfold with_args, destructure, respond, grep, bind, lift.
      by rewrite Hpat, !resolveSafe_default, Hres, Htext.
Qed.

End RefusedPaths.

(** ** More on the streaming proxy *)

Ltac no_backend_call :=
  unfold stream_failed, sseEvent; rewrite ?filter_cons_False by done;
  rewrite filter_nil; cbn [length]; lia.

Section StreamingFacts.

Context (P : platform).

(** However the backend stream goes, the relay emits tokens, then one
    closing event, then ends the response. *)
Lemma relay_shape (items : list stream_item) (acc : jsstring) :
  exists texts closing,
    relay items acc = List.map token texts ++ [closing; ResEnd]
    /\ Forall (fun t => t <> []) texts
    /\ (closing = done_ (acc ++ concat texts) \/ exists e, closing = error_event e).
Proof.
  revert acc. induction items as [|[p|e] items IH]; intros acc.
  - exists [], (done_ acc). cbn. rewrite app_nil_r. by repeat split; [constructor | left].
  - rewrite relay_part.
    assert (forall t, content_of p = Some t -> t <> []) as Hne.
    { intros t. unfold content_of. destruct (choices0 p) as [c|]; [|done].
      by destruct (delta_content c) as [[|? ?]|]; intros [= <-]. }
    destruct (finishes p).
    + destruct (content_of p) as [t|] eqn:Ht.
      * exists [t], (done_ (acc ++ t)). cbn. rewrite app_nil_r.
        split; [done|]. split; [|by left]. constructor; [by apply Hne | constructor].
      * exists [], (done_ (acc ++ [])). cbn. rewrite !app_nil_r.
        split; [done|]. split; [constructor | by left].
    + destruct (content_of p) as [t|] eqn:Ht; cbn [default from_option id].
      * destruct (IH (acc ++ t)) as (texts & closing & -> & Hall & Hc).
        exists (t :: texts), closing. split; [done|].
        split; [constructor; [by apply Hne | done]|].
        destruct Hc as [-> | Hc]; [left | by right].
        cbn [concat]. by rewrite <- app_assoc.
      * destruct (IH (acc ++ [])) as (texts & closing & -> & Hall & Hc).
        exists texts, closing. split; [done|]. split; [done|].
        by rewrite app_nil_r in Hc.
  - exists [], (error_event e). cbn. split; [done|]. split; [constructor|].
    right. by exists e.
Qed.

(** X17. Once the event stream is set up, every response of the proxy is:
    the backend call, token events with non-empty texts, exactly one
    closing event, the end of the response.  The closing event is either
    [done] carrying the concatenation of all the tokens sent, or [error];
    never both, whatever the backend does (a stream that ends without a
    finish marker, an error in mid-stream, a refusal to open). *)
Theorem chat_stream_always_closes_once (b : chat_body) (messages : list chat_elem) :
  body_messages b = Some messages ->
  exists texts closing,
    chat_stream P b
    = [SseInit; BackendCreate (chat_request b messages)]
      ++ List.map token texts ++ [closing; ResEnd]
    /\ Forall (fun t => t <> []) texts
    /\ (closing = done_ (concat texts) \/ exists e, closing = error_event e).
Proof.
  intros Hm. unfold chat_stream, open_and_relay. rewrite Hm.
  destruct (completions_create P (chat_request b messages)) as [e|items].
  - exists [], (error_event e). split; [done|]. split; [constructor|].
    right. by exists e.
  - destruct (relay_shape items []) as (texts & closing & -> & Hall & Hc).
    by exists texts, closing.
Qed.

(** X18. Nothing that follows the part with the finish marker is
    relayed, be it more text or an error of the stream: the events are
    those of the parts up to and including that part. *)
Theorem chat_stream_stops_at_finish (b : chat_body) (messages : list chat_elem)
        (init : list part) (last : part) (rest : list stream_item) :
  body_messages b = Some messages ->
  completions_create P (chat_request b messages)
  = Stream (List.map Part init ++ Part last :: rest) ->
  Forall (fun p => finishes p = false) init ->
  finishes last = true ->
  chat_stream P b
  = [SseInit; BackendCreate (chat_request b messages)]
    ++ List.map token (omap content_of (init ++ [last]))
    ++ [done_ (concat (omap content_of (init ++ [last]))); ResEnd].
Proof.
  intros Hm Hback Hinit Hlast. unfold chat_stream, open_and_relay.
  rewrite Hm, Hback.
  rewrite (relay_unfinished _ _ _ Hinit), (relay_finishing _ _ _ Hlast).
  rewrite omap_app, List.map_app, concat_app. cbn [app].
  rewrite <- !app_assoc. done.
Qed.

(** X19. In the later revision the backend is called at most once, and
    the list it receives always opens with a system message. *)
Theorem chat_stream_with_prompt_opens_with_system (b : chat_body) (w : world) :
  (length (filter (fun a => is_backend_create a = true)
                  (chat_stream_with_prompt P b w)) <= 1)%nat
  /\ forall request,
      BackendCreate request ∈ chat_stream_with_prompt P b w ->
      opens_with_system (req_messages request) = true.
Proof.
  assert (forall request,
             filter (fun a => is_backend_create a = true) (open_and_relay P request)
             = [BackendCreate request]) as Hfilter.
  { intros request. unfold open_and_relay.
    rewrite filter_cons_True by done. f_equal.
    assert (Forall (fun a => is_backend_create a = false)
                   match completions_create P request with
                   | OpenFails e => stream_failed e
                   | Stream items => relay items []
                   end) as Hall.
    { destruct (completions_create P request).
      - by repeat constructor.
      - apply relay_opens_nothing. }
    induction Hall as [|a l Ha _ IH]; [done|].
    rewrite filter_cons_False by (by rewrite Ha). done. }
  unfold chat_stream_with_prompt.
  destruct (body_messages b) as [messages|].
  2: { split; [no_backend_call|]. intros request. rewrite list_elem_of_singleton. done. }
  destruct (buildSystemPrompt P w) as [[prompt|e] w'].
  2: { split; [no_backend_call|]. intros request. unfold stream_failed, sseEvent.
       rewrite !elem_of_cons, elem_of_nil. intuition discriminate. }
  destruct (hasSystem messages) as [has|e] eqn:Hhas.
  2: { split; [no_backend_call|]. intros request. unfold stream_failed, sseEvent.
       rewrite !elem_of_cons, elem_of_nil. intuition discriminate. }
  split.
  - rewrite filter_cons_False by done. rewrite Hfilter. cbn [length]. lia.
  - intros request. rewrite elem_of_cons. intros [|Hin]; [done|].
    apply open_and_relay_opens_once in Hin. subst request. cbn [req_messages].
    destruct messages as [|[|role text] messages]; cbn [hasSystem] in Hhas.
    + injection Hhas as <-. cbn [opens_with_system]. by apply bool_decide_eq_true_2.
    + done.
    + injection Hhas as <-. cbn [opens_with_system].
      destruct (bool_decide (role = JStr (js "system"))) eqn:Hrole; [done|].
      cbn [opens_with_system]. by apply bool_decide_eq_true_2.
Qed.


(** Under a regular file the error is ENOTDIR. *)
Example not_found_below_a_file :
  Fs.not_found "scandir" (js "/a/b") {[ js "/a" := File (js "text") ]}
  = Fs.ENOTDIR "scandir" (js "/a/b").
Proof. vm_compute. reflexivity. Qed.


End StreamingFacts.

(** ** The client's reading loop *)

Section ClientLoop.

Context (J : json_codec).

Lemma indexOf_blank_line_bound (a : jsstring) (idx : nat) :
  Client.indexOf_blank_line a = Some idx -> (idx + 2 <= length a)%nat.
Proof.
  revert idx. induction a as [|c r IH]; intros idx; cbn [Client.indexOf_blank_line];
    [done|].
  destruct ((c =? 10) && match r with d :: _ => d =? 10 | [] => false end) eqn:Hhere.
  - intros [= <-]. destruct r; [by rewrite andb_false_r in Hhere|]. cbn. lia.
  - destruct (Client.indexOf_blank_line r) as [i|]; [|done].
    cbn. intros [= <-]. specialize (IH i eq_refl). cbn. lia.
Qed.

(** A blank line found in the buffer is still the first one when more
    text arrives. *)
Lemma indexOf_blank_line_app (a b : jsstring) (idx : nat) :
  Client.indexOf_blank_line a = Some idx ->
  Client.indexOf_blank_line (a ++ b) = Some idx.
Proof.
  revert idx. induction a as [|c r IH]; intros idx; cbn [Client.indexOf_blank_line app];
    [done|].
  destruct r as [|d r'].
  - rewrite andb_false_r. done.
  - cbn [app]. destruct ((c =? 10) && (d =? 10)); [done|].
    change (d :: r' ++ b) with ((d :: r') ++ b).
    destruct (Client.indexOf_blank_line (d :: r')) as [i|]; [|done].
    intros [= <-]. by rewrite (IH i eq_refl).
Qed.

Lemma drain_no_blank_line (fuel : nat) (buffer : jsstring) :
  Client.indexOf_blank_line buffer = None ->
  Client.drain J fuel buffer = ([], inl buffer).
Proof. intros H. destruct fuel; [done|]. cbn [Client.drain]. by rewrite H. Qed.

(** Fuel beyond the length of the buffer changes nothing. *)
Lemma drain_enough (f1 : nat) :
  forall f2 buffer,
    (length buffer <= f1)%nat -> (length buffer <= f2)%nat ->
    Client.drain J f1 buffer = Client.drain J f2 buffer.
Proof.
  induction f1 as [|f1 IH]; intros f2 buffer H1 H2.
  - destruct buffer; [|cbn in H1; lia]. by destruct f2.
  - destruct f2 as [|f2].
    { destruct buffer; [done | cbn in H2; lia]. }
    cbn [Client.drain].
    destruct (Client.indexOf_blank_line buffer) as [idx|] eqn:Hidx; [|done].
    apply indexOf_blank_line_bound in Hidx.
    rewrite (IH f2 (drop (idx + 2) buffer)); [done | |];
      rewrite length_drop; lia.
Qed.

(** What is left in the buffer holds no blank line. *)
Lemma drain_leaves_no_blank_line (fuel : nat) :
  forall buffer tokens rem,
    (length buffer <= fuel)%nat ->
    Client.drain J fuel buffer = (tokens, inl rem) ->
    Client.indexOf_blank_line rem = None.
Proof.
  induction fuel as [|fuel IH]; intros buffer tokens rem Hlen.
  - destruct buffer; [|cbn in Hlen; lia]. cbn. by intros [= _ <-].
  - cbn [Client.drain].
    destruct (Client.indexOf_blank_line buffer) as [idx|] eqn:Hidx.
    2: { by intros [= _ <-]. }
    pose proof (indexOf_blank_line_bound _ _ Hidx) as Hb.
    destruct (Client.handle_block J (take idx buffer)) as [toks [| |e]]; try done.
    destruct (Client.drain J fuel (drop (idx + 2) buffer)) as [more r] eqn:Hd.
    intros [= _ ->]. eapply (IH _ _ _ _ Hd).
    Unshelve. rewrite length_drop. lia.
Qed.

(** Draining a buffer to which text has been appended is draining the
    buffer first and then what is left of it with that text appended. *)
Lemma drain_app (fuel : nat) :
  forall a b,
    (length a <= fuel)%nat ->
    Client.drain J (length (a ++ b)) (a ++ b)
    = match Client.drain J fuel a with
      | (tokens, inl rem) =>
        let '(more, r) := Client.drain J (length (rem ++ b)) (rem ++ b) in
        (tokens ++ more, r)
      | (tokens, inr s) => (tokens, inr s)
      end.
Proof.
  induction fuel as [|fuel IH]; intros a b Hlen.
  - destruct a; [|cbn in Hlen; lia]. cbn [Client.drain app].
    by destruct (Client.drain J (length b) b).
  - cbn [Client.drain].
    destruct (Client.indexOf_blank_line a) as [idx|] eqn:Hidx.
    2: { by destruct (Client.drain J (length (a ++ b)) (a ++ b)). }
    pose proof (indexOf_blank_line_bound _ _ Hidx) as Hb.
    destruct (length (a ++ b)) as [|n] eqn:Hn; [rewrite length_app in Hn; lia|].
    cbn [Client.drain]. rewrite (indexOf_blank_line_app _ b _ Hidx).
    rewrite take_app_le by lia. rewrite drop_app_le by lia.
    destruct (Client.handle_block J (take idx a)) as [toks [| |e]]; try done.
    rewrite (drain_enough n (length (drop (idx + 2) a ++ b))).
    + rewrite (IH (drop (idx + 2) a) b) by (rewrite length_drop; lia).
      destruct (Client.drain J fuel (drop (idx + 2) a)) as [more [rem|s]]; [|done].
      destruct (Client.drain J (length (rem ++ b)) (rem ++ b)) as [more' r].
      by rewrite app_assoc.
    + rewrite length_app, length_drop. rewrite length_app in Hn. lia.
    + done.
Qed.

Lemma read_loop_whole (chunks : list jsstring) :
  forall buffer,
    Client.indexOf_blank_line buffer = None ->
    Client.read_loop J chunks buffer
    = finish (Client.drain J (length (buffer ++ concat chunks))
                           (buffer ++ concat chunks)).
Proof.
  induction chunks as [|chunk chunks IH]; intros buffer Hbuf.
  - cbn [Client.read_loop concat]. rewrite app_nil_r.
    by rewrite drain_no_blank_line.
  - cbn [Client.read_loop concat]. rewrite app_assoc.
    rewrite (drain_app (length (buffer ++ chunk)) (buffer ++ chunk)) by done.
    destruct (Client.drain J (length (buffer ++ chunk)) (buffer ++ chunk))
      as [tokens [rem|s]] eqn:Hd.
    + rewrite IH by (eapply drain_leaves_no_blank_line; [|exact Hd]; done).
      destruct (Client.drain J (length (rem ++ concat chunks)) (rem ++ concat chunks))
        as [more [rem'|[| |e]]]; done.
    + by destruct s.
Qed.

(** X21. The client does not depend on how the response body is cut into
    chunks: the tokens it hands over and the way it ends are those of the
    body read in one piece. *)
Theorem streamChat_ignores_chunking (chunks : list jsstring) :
  Client.streamChat J (Some chunks) = Client.streamChat J (Some [concat chunks]).
Proof.
  unfold Client.streamChat. rewrite !read_loop_whole by done.
  cbn [concat]. by rewrite app_nil_r.
Qed.

End ClientLoop.

(** ** The client on the server's response *)

Section ClientOnServer.

Context (J : json_codec).

Ltac by_evaluation :=
  match goal with |- ?G => refine (bool_decide_unpack G _); vm_compute; exact I end.

Lemma trim_start_spaces (lead s : jsstring) :
  Forall (fun c => Client.is_white_space c = true) lead ->
  Client.trim_start (lead ++ s) = Client.trim_start s.
Proof.
  induction 1 as [|c lead Hc _ IH]; [done|].
  cbn [app Client.trim_start]. by rewrite Hc.
Qed.

(** [trim] takes the white space off a text that starts and ends with
    something else, and nothing more. *)
Lemma trim_tight (lead s : jsstring) (c d : N) :
  Forall (fun c => Client.is_white_space c = true) lead ->
  head s = Some c -> last s = Some d ->
  Client.is_white_space c = false ->
  Client.is_white_space d = false ->
  Client.trim (lead ++ s) = s.
Proof.
  intros Hlead Hh Hl Hc Hd. unfold Client.trim.
  rewrite (trim_start_spaces _ _ Hlead).
  assert (Client.trim_start s = s) as ->.
  { destruct s as [|c' r]; [done|]. cbn in Hh. injection Hh as ->.
    cbn [Client.trim_start]. by rewrite Hc. }
  apply last_Some in Hl as [l' ->].
  rewrite rev_unit. cbn [Client.trim_start]. rewrite Hd.
  by rewrite <- rev_unit, rev_involutive.
Qed.

Lemma indexOf_blank_line_no_lf (s : jsstring) :
  10 ∉ s -> Client.indexOf_blank_line s = None.
Proof.
  induction s as [|c r IH]; [done|]. intros H.
  apply not_elem_of_cons in H as [Hc Hr]. cbn [Client.indexOf_blank_line].
  destruct (N.eqb_spec c 10) as [->|_]; [done|]. cbn [andb].
  by rewrite (IH Hr).
Qed.

Lemma indexOf_blank_line_app_None (a b : jsstring) :
  Client.indexOf_blank_line a = None ->
  Client.indexOf_blank_line b = None ->
  last a <> Some 10 \/ head b <> Some 10 ->
  Client.indexOf_blank_line (a ++ b) = None.
Proof.
  intros Ha Hb Hjoin. induction a as [|c r IH]; [done|].
  cbn [app Client.indexOf_blank_line] in *.
  destruct r as [|d r'].
  - cbn [app]. rewrite Hb. cbn.
    destruct (N.eqb_spec c 10) as [->|_]; [|done].
    destruct b as [|e b']; [done|].
    destruct (N.eqb_spec e 10) as [->|_]; [|done].
    by destruct Hjoin.
  - cbn [app]. destruct ((c =? 10) && (d =? 10)); [done|].
    change (d :: r' ++ b) with ((d :: r') ++ b).
    rewrite IH; [done| |done].
    by destruct (Client.indexOf_blank_line (d :: r')).
Qed.

Lemma last_no_lf (s : jsstring) : 10 ∉ s -> last s <> Some 10.
Proof.
  intros H Hl. apply last_Some in Hl as [l' ->].
  apply H, elem_of_app. right. apply list_elem_of_here.
Qed.

(** The first blank line of a buffer that starts with a block without
    one. *)
Lemma indexOf_blank_line_first (block rest : jsstring) :
  Client.indexOf_blank_line block = None ->
  last block <> Some 10 ->
  Client.indexOf_blank_line (block ++ 10 :: 10 :: rest) = Some (length block).
Proof.
  intros Hb Hl. induction block as [|c r IH]; [done|].
  cbn [app Client.indexOf_blank_line length] in *.
  destruct r as [|d r'].
  - cbn [app]. rewrite N.eqb_refl, andb_true_r.
    destruct (N.eqb_spec c 10) as [->|_]; [done|]. done.
  - cbn [app]. destruct ((c =? 10) && (d =? 10)); [done|].
    change (d :: r' ++ 10 :: 10 :: rest) with ((d :: r') ++ 10 :: 10 :: rest).
    rewrite IH; [done| |done].
    by destruct (Client.indexOf_blank_line (d :: r')).
Qed.

Section OneEvent.

Variables (lead event json : jsstring).
Hypothesis Hlead : lead = [] \/ lead = [10].
Hypothesis Hevent : 10 ∉ event.
Hypothesis Hname : Client.trim (32 :: event) = event.
Hypothesis Hhead : head json = Some 123.
Hypothesis Hlast : last json = Some 125.
Hypothesis Hline : 10 ∉ json.

Lemma lead_spaces : Forall (fun c => Client.is_white_space c = true) lead.
Proof. destruct Hlead as [-> | ->]; repeat constructor. Qed.

Lemma event_block_lines :
  split 10 (Client.trim (event_block lead event json))
  = [js "event: " ++ event; js "data: " ++ json].
Proof.
  unfold event_block.
  rewrite (trim_tight lead _ 101 125 lead_spaces); [|done| |done..].
  2: { by rewrite last_app, last_cons, last_app, Hlast. }
  unfold split. rewrite split_rev_app.
  rewrite !split_rev_no_sep; [done| |].
  - apply not_elem_of_app. split; [|done]. by_evaluation.
  - apply not_elem_of_app. split; [|done]. by_evaluation.
Qed.

Lemma handle_block_event :
  Client.handle_block J (event_block lead event json)
  = match JSON_parse J json with
    | Throw e => ([], Client.Throws (Client.BadJson e))
    | Ok data => Client.on_event event data
    end.
Proof.
  unfold Client.handle_block. rewrite event_block_lines.
  assert (List.find (fun l => startsWith l (js "event:"))
                    [js "event: " ++ event; js "data: " ++ json]
          = Some (js "event: " ++ event)) as -> by reflexivity.
  assert (List.find (fun l => startsWith l (js "data:"))
                    [js "event: " ++ event; js "data: " ++ json]
          = Some (js "data: " ++ json)) as -> by reflexivity.
  cbn [default from_option id].
  assert (drop 6 (js "event: " ++ event) = 32 :: event) as -> by reflexivity.
  assert (drop 5 (js "data: " ++ json) = 32 :: json) as -> by reflexivity.
  rewrite Hname.
  assert (Client.trim (32 :: json) = json) as ->.
  { apply (trim_tight [32] json 123 125); [by repeat constructor|done..]. }
  destruct json; [done|]. done.
Qed.

Lemma event_block_no_blank_line :
  Client.indexOf_blank_line (event_block lead event json) = None
  /\ last (event_block lead event json) <> Some 10.
Proof.
  unfold event_block. split.
  - apply indexOf_blank_line_app_None.
    + by destruct Hlead as [-> | ->].
    + rewrite <- app_assoc. apply indexOf_blank_line_app_None; [done| |by left].
      apply indexOf_blank_line_app_None;
        [by apply indexOf_blank_line_no_lf | | left; by apply last_no_lf].
      change (10 :: js "data: " ++ json) with ((10 :: js "data: ") ++ json).
      apply indexOf_blank_line_app_None;
        [done | by apply indexOf_blank_line_no_lf | by left].
    + right. done.
  - by rewrite last_app, last_app, last_cons, last_app, Hlast.
Qed.

(** One turn of the inner loop on a buffer that starts with an event. *)
Lemma drain_event (rest : jsstring) :
  let buffer := event_block lead event json ++ 10 :: 10 :: rest in
  Client.drain J (length buffer) buffer
  = match Client.handle_block J (event_block lead event json) with
    | (tokens, Client.Continue) =>
      let '(more, r) := Client.drain J (length rest) rest in (tokens ++ more, r)
    | (tokens, s) => (tokens, inr s)
    end.
Proof.
  intros buffer. destruct event_block_no_blank_line as [Hnone Hl].
  assert (exists fuel, length buffer = S fuel /\ (length rest <= fuel)%nat)
    as (fuel & -> & Hfuel).
  { exists (S (length (event_block lead event json) + length rest)).
    unfold buffer. rewrite length_app. cbn. lia. }
  cbn [Client.drain]. unfold buffer.
  rewrite (indexOf_blank_line_first _ rest Hnone Hl).
  rewrite take_app_length.
  assert (drop (length (event_block lead event json) + 2)
               (event_block lead event json ++ 10 :: 10 :: rest) = rest) as ->.
  { rewrite drop_app_ge by lia.
    by replace (length (event_block lead event json) + 2
                - length (event_block lead event json))%nat with 2%nat by lia. }
  destruct (Client.handle_block J (event_block lead event json)) as [toks [| |e]];
    try done.
  rewrite (drain_enough J fuel (length rest) rest); done.
Qed.

End OneEvent.

Lemma text_of_event (lead event : jsstring) (d : sse_payload) (rest : jsstring) :
  lead ++ Wire.text_of J (SseEvent event d) ++ rest
  = event_block lead event (JSON_stringify J d) ++ 10 :: 10 :: rest.
Proof.
  unfold event_block. cbn [Wire.text_of].
  rewrite <- !app_assoc. cbn [app]. by rewrite <- !app_assoc.
Qed.

(** What the inner loop does with a buffer that starts with an event the
    server wrote. *)
Lemma drain_server_event (lead : jsstring) (event : string) (d : sse_payload)
      (rest : jsstring) :
  lead = [] \/ lead = [10] ->
  10 ∉ js event ->
  Client.trim (32 :: js event) = js event ->
  codec_agrees J d ->
  drain_all J (lead ++ Wire.text_of J (sseEvent event d) ++ rest)
  = match Client.on_event (js event) (object_of d) with
    | (tokens, Client.Continue) =>
      let '(more, r) := drain_all J rest in (tokens ++ more, r)
    | (tokens, s) => (tokens, inr s)
    end.
Proof.
  intros Hlead Hev Hname (Hh & Hl & Hline & Hparse).
  unfold drain_all, sseEvent. rewrite text_of_event.
  rewrite (drain_event lead (js event) _ Hlead Hev Hl Hline rest).
  by rewrite (handle_block_event lead (js event) _ Hlead Hev Hname Hh Hl Hline), Hparse.
Qed.

Lemma drain_token (lead t rest : jsstring) :
  lead = [] \/ lead = [10] ->
  codec_agrees J (payload_content t) ->
  drain_all J (lead ++ Wire.text_of J (token t) ++ rest)
  = let '(more, r) := drain_all J rest in (JStr t :: more, r).
Proof.
  intros Hlead Hc. unfold token.
  rewrite (drain_server_event lead "token" _ rest Hlead); [|by_evaluation|done|done].
  assert (Client.on_event (js "token") (object_of (payload_content t))
          = ([JStr t], Client.Continue)) as ->; [|done].
  unfold Client.on_event.
  replace (eqb (js "token") (js "token")) with true by (vm_compute; reflexivity).
  cbn [object_of]. by destruct t.
Qed.

Lemma drain_done (lead m rest : jsstring) :
  lead = [] \/ lead = [10] ->
  codec_agrees J (payload_message m) ->
  drain_all J (lead ++ Wire.text_of J (done_ m) ++ rest) = ([], inr Client.Return).
Proof.
  intros Hlead Hc. unfold done_.
  rewrite (drain_server_event lead "done" _ rest Hlead); [|by_evaluation|done|done].
  unfold Client.on_event.
  replace (eqb (js "done") (js "token")) with false by (vm_compute; reflexivity).
  by replace (eqb (js "done") (js "done")) with true by (vm_compute; reflexivity).
Qed.

Lemma drain_error (lead : jsstring) (e : exn) (rest : jsstring) :
  lead = [] \/ lead = [10] ->
  codec_agrees J (payload_error (error_text e)) ->
  drain_all J (lead ++ Wire.text_of J (error_event e) ++ rest)
  = ([], inr (Client.Throws (thrown_for (error_text e)))).
Proof.
  intros Hlead Hc. unfold error_event.
  rewrite (drain_server_event lead "error" _ rest Hlead); [|by_evaluation|done|done].
  unfold Client.on_event.
  replace (eqb (js "error") (js "token")) with false by (vm_compute; reflexivity).
  replace (eqb (js "error") (js "done")) with false by (vm_compute; reflexivity).
  by replace (eqb (js "error") (js "error")) with true by (vm_compute; reflexivity).
Qed.

Lemma drain_tokens (closing : jsstring) (s : Client.step) (texts : list jsstring) :
  (forall lead, lead = [] \/ lead = [10] -> drain_all J (lead ++ closing) = ([], inr s)) ->
  Forall (fun t => codec_agrees J (payload_content t)) texts ->
  forall lead,
    lead = [] \/ lead = [10] ->
    drain_all J (lead ++ Wire.body_text J (List.map token texts) ++ closing)
    = (List.map JStr texts, inr s).
Proof.
  intros Hclosing Hall. induction Hall as [|t texts Ht _ IH]; intros lead Hlead.
  - cbn. by apply Hclosing.
  - unfold Wire.body_text. cbn [List.map concat]. rewrite <- app_assoc.
    rewrite (drain_token lead t _ Hlead Ht).
    specialize (IH [] (or_introl eq_refl)). cbn [app] in IH.
    unfold Wire.body_text in IH. by rewrite IH.
Qed.

Lemma payloads_tokens (texts : list jsstring) (rest : list action) :
  payloads (List.map token texts ++ rest) = List.map payload_content texts ++ payloads rest.
Proof. induction texts as [|t texts IH]; [done|]. cbn. by rewrite <- IH. Qed.

Lemma tokens_sent_tokens (texts : list jsstring) (rest : list action) :
  tokens_sent (List.map token texts ++ rest) = List.map JStr texts ++ tokens_sent rest.
Proof.
  unfold tokens_sent. rewrite payloads_tokens, omap_app. f_equal.
  induction texts as [|t texts IH]; [done|]. cbn. by rewrite IH.
Qed.

Lemma error_sent_tokens (texts : list jsstring) (rest : list action) :
  error_sent (List.map token texts ++ rest) = error_sent rest.
Proof.
  unfold error_sent. rewrite payloads_tokens, omap_app. 
  assert (omap (fun d => match d with
                         | payload_error t => Some (thrown_for t)
                         | _ => None
                         end) (List.map payload_content texts) = []) as ->; [|done].
  induction texts as [|t texts IH]; [done|]. done.
Qed.

End ClientOnServer.

Section EndToEnd.

Context (P : platform) (J : json_codec).

(** X22. End to end: whatever the backend does once the request has been
    accepted, and however the response body is cut into chunks, the
    client hands [onToken] exactly the texts of the token events the
    proxy wrote, in order; it returns normally when the proxy closed with
    [done] and throws the proxy's error text when it closed with [error].
    The codec is assumed to write every payload sent as one line in
    braces and to parse it back. *)
Theorem streamChat_reads_chat_stream (b : chat_body) (messages : list chat_elem)
        (chunks : list jsstring) :
  body_messages b = Some messages ->
  Forall (codec_agrees J) (payloads (chat_stream P b)) ->
  concat chunks = Wire.body_text J (chat_stream P b) ->
  Client.streamChat J (Some chunks)
  = (tokens_sent (chat_stream P b), error_sent (chat_stream P b)).
Proof.
  intros Hm Hcodec Hbody.
  assert (exists texts closing,
             chat_stream P b
             = [SseInit; BackendCreate (chat_request b messages)]
               ++ List.map token texts ++ [closing; ResEnd]
             /\ ((exists m, closing = done_ m) \/ exists e, closing = error_event e))
    as (texts & closing & Htrace & Hclosing).
  { unfold chat_stream, open_and_relay. rewrite Hm.
    destruct (completions_create P (chat_request b messages)) as [e|items].
    - exists [], (error_event e). split; [done|]. right. by exists e.
    - destruct (relay_shape items []) as (texts & closing & -> & _ & Hc).
      exists texts, closing. split; [done|].
      destruct Hc as [-> | Hc]; [left; by eexists | by right]. }
  unfold Client.streamChat. rewrite (read_loop_whole J chunks []) by done.
  cbn [app]. rewrite Hbody. rewrite Htrace in Hcodec |- *.
  change ([SseInit; BackendCreate (chat_request b messages)]
          ++ List.map token texts ++ [closing; ResEnd])
    with (SseInit :: BackendCreate (chat_request b messages)
                  :: (List.map token texts ++ [closing; ResEnd])) in *.
  assert (Wire.body_text J (SseInit :: BackendCreate (chat_request b messages)
                                    :: (List.map token texts ++ [closing; ResEnd]))
          = [10] ++ Wire.body_text J (List.map token texts)
                 ++ Wire.text_of J closing ++ []) as ->.
  { unfold Wire.body_text. cbn [List.map concat Wire.text_of app].
    rewrite List.map_app, concat_app. cbn [List.map concat Wire.text_of app].
    by rewrite !app_nil_r. }
  assert (tokens_sent (SseInit :: BackendCreate (chat_request b messages)
                               :: (List.map token texts ++ [closing; ResEnd]))
          = List.map JStr texts ++ tokens_sent [closing]) as ->.
  { change (tokens_sent (SseInit :: BackendCreate (chat_request b messages)
                                 :: (List.map token texts ++ [closing; ResEnd])))
      with (tokens_sent (List.map token texts ++ [closing; ResEnd])).
    rewrite tokens_sent_tokens. f_equal; by destruct closing. }
  assert (error_sent (SseInit :: BackendCreate (chat_request b messages)
                              :: (List.map token texts ++ [closing; ResEnd]))
          = error_sent [closing]) as ->.
  { change (error_sent (SseInit :: BackendCreate (chat_request b messages)
                                :: (List.map token texts ++ [closing; ResEnd])))
      with (error_sent (List.map token texts ++ [closing; ResEnd])).
    rewrite error_sent_tokens. by destruct closing. }
  change (payloads (SseInit :: BackendCreate (chat_request b messages)
                            :: (List.map token texts ++ [closing; ResEnd])))
    with (payloads (List.map token texts ++ [closing; ResEnd])) in Hcodec.
  rewrite payloads_tokens in Hcodec. apply Forall_app in Hcodec as [Htok Hcl].
  rewrite Forall_map in Htok.
  change (Client.drain J (length ?x) ?x) with (drain_all J x).
  destruct Hclosing as [[m ->] | [e ->]].
  - apply Forall_inv in Hcl.
    rewrite (drain_tokens J _ Client.Return texts); [by rewrite app_nil_r | |done|by right].
    intros lead Hlead. by apply drain_done.
  - apply Forall_inv in Hcl.
    rewrite (drain_tokens J _ (Client.Throws (thrown_for (error_text e))) texts);
      [by rewrite app_nil_r | |done|by right].
    intros lead Hlead. by apply drain_error.
Qed.

(** X23. A request refused with status 400 is not an error for
    [streamChat]: the JSON body holds no blank line, so no block is ever
    read, no token is handed over and the function returns normally. *)
Theorem streamChat_reads_refusal_as_empty (b : chat_body) (chunks : list jsstring) :
  body_messages b = None ->
  10 ∉ JSON_stringify J (payload_error (js "messages must be an array")) ->
  concat chunks = Wire.body_text J (chat_stream P b) ->
  Client.streamChat J (Some chunks) = ([], None).
Proof.
  intros Hm Hline Hbody. unfold Client.streamChat.
  rewrite (read_loop_whole J chunks []) by done. cbn [app]. rewrite Hbody.
  unfold chat_stream. rewrite Hm. unfold Wire.body_text.
  cbn [List.map concat Wire.text_of]. rewrite app_nil_r.
  rewrite drain_no_blank_line; [done|]. by apply indexOf_blank_line_no_lf.
Qed.

End EndToEnd.

(** ** The workspace summary *)




(** ** Worked cases *)

Ltac evaluated := vm_compute; reflexivity.
Ltac not_empty := let H := fresh in intro H; vm_compute in H; discriminate H.


(** C6 on four requests: a file that is there, one that is not, a path
    outside the root and a tool that does not exist. *)
Lemma tools_answers_in_two_shapes_witness :
  (given_args (tool_args_value (Sample.read_request "notes.txt"))
   = Some (mkArgs (JStr (js "notes.txt")) JUndefined JUndefined JUndefined
                  JUndefined JUndefined None None)
   /\ tool_name (Sample.read_request "notes.txt") = Some (js "read_file")
   /\ truthy (JStr (js "notes.txt")) = true
   /\ given_args (tool_args_value (Sample.read_request "../etc/passwd"))
      = Some (mkArgs (JStr (js "../etc/passwd")) JUndefined JUndefined JUndefined
                     JUndefined JUndefined None None)
   /\ resolveSafe Sample.platform (JStr (js "../etc/passwd"))
      = Throw (Error (js "Path escapes workspace root"))
   /\ resolveSafe Sample.platform (JStr (js "nope.txt")) = Ok (js "/ws/nope.txt")
   /\ Fs.lookup (files Sample.disk) (js "/ws/nope.txt") = None
   /\ js "delete_file" <> []
   /\ js "delete_file" ∉ TOOL_NAMES)
  /\ answers ResultRead
             (readFile Sample.platform (JStr (js "notes.txt")) None Sample.disk)
             (tools Sample.platform (Sample.read_request "notes.txt") Sample.disk)
  /\ tools Sample.platform (Sample.read_request "../etc/passwd") Sample.disk
     = (error_answer 500 (js "Path escapes workspace root"), Sample.disk)
  /\ tools Sample.platform (Sample.read_request "nope.txt") Sample.disk
     = (error_answer 500
          (error_text (Fs.not_found "open" (js "/ws/nope.txt") (files Sample.disk))),
        Sample.disk)
  /\ tools Sample.platform (mkToolsBody (Some (js "delete_file")) ArgsAbsent) Sample.disk
     = (error_answer 400 (js "Unknown tool: " ++ js "delete_file"), Sample.disk).
Proof.
  assert (resolveSafe Sample.platform (JStr (js "../etc/passwd"))
          = Throw (Error (js "Path escapes workspace root"))) as Hesc
      by (vm_compute; reflexivity).
  assert (resolveSafe Sample.platform (JStr (js "nope.txt")) = Ok (js "/ws/nope.txt"))
    as Hnope by (vm_compute; reflexivity).
  assert (Fs.lookup (files Sample.disk) (js "/ws/nope.txt") = None) as Hnone
      by (vm_compute; reflexivity).
  assert (js "delete_file" <> []) as Hne
      by (intros H; vm_compute in H; discriminate H).
  assert (js "delete_file" ∉ TOOL_NAMES) as Hnot
      by (refine (bool_decide_unpack _ _); vm_compute; exact I).
  split.
  { split; [reflexivity|]. split; [reflexivity|]. split; [reflexivity|].
    split; [reflexivity|]. split; [exact Hesc|]. split; [exact Hnope|].
    split; [exact Hnone|]. split; [exact Hne | exact Hnot]. }
  split.
  { destruct (tools_answers_in_two_shapes Sample.platform
                (Sample.read_request "notes.txt") Sample.disk)
      as (_ & _ & _ & _ & Hcall & _).
    destruct (Hcall _ eq_refl) as (_ & Hread & _).
    exact (proj2 (Hread eq_refl) eq_refl). }
  split.
  { destruct (tools_answers_in_two_shapes Sample.platform
                (Sample.read_request "../etc/passwd") Sample.disk)
      as (_ & _ & _ & _ & _ & Hfail).
    exact (proj1 (Hfail _ eq_refl eq_refl eq_refl) Hesc). }
  split.
  { destruct (tools_answers_in_two_shapes Sample.platform
                (Sample.read_request "nope.txt") Sample.disk)
      as (_ & _ & _ & _ & _ & Hfail).
    exact (proj2 (Hfail _ eq_refl eq_refl eq_refl) (js "/ws/nope.txt") Hnope Hnone). }
  destruct (tools_answers_in_two_shapes Sample.platform
              (mkToolsBody (Some (js "delete_file")) ArgsAbsent) Sample.disk)
    as (_ & _ & Hunknown & _).
  exact (Hunknown (js "delete_file") eq_refl Hne Hnot).
Defined.

Lemma resolveSafe_default_is_root_witness :
  (Path.isAbsolute (process_cwd Sample.platform) = true
   /\ (truthy (JStr []) = false \/ JStr [] = JStr Path.dot))
  /\ resolveSafe Sample.platform (JStr []) = Ok (WORKSPACE_ROOT Sample.platform).
Proof.
  split; [split; [reflexivity | left; reflexivity]|].
  apply (resolveSafe_default_is_root Sample.platform); [reflexivity | left; reflexivity].
Defined.

Lemma resolveSafe_result_is_normalized_witness :
  (Path.isAbsolute (process_cwd Sample.platform) = true
   /\ resolveSafe Sample.platform (JStr (js "src/../notes.txt")) = Ok (js "/ws/notes.txt"))
  /\ Forall plain_segment (Path.segments (js "/ws/notes.txt"))
  /\ js "/ws/notes.txt"
     = Path.slash :: JsString.join [Path.slash] (Path.segments (js "/ws/notes.txt")).
Proof.
  split; [split; [reflexivity | evaluated]|].
  apply (resolveSafe_result_is_normalized Sample.platform eq_refl
           (JStr (js "src/../notes.txt"))).
  evaluated.
Defined.

Lemma resolveSafe_accepts_exactly_witness :
  (Path.isAbsolute (process_cwd Sample.platform) = true
   /\ js "../ws-private/key.txt" <> [])
  /\ let full := Path.resolve (process_cwd Sample.platform)
                              [WORKSPACE_ROOT Sample.platform; js "../ws-private/key.txt"] in
     let accepted :=
       Path.segments (WORKSPACE_ROOT Sample.platform) = []
       \/ exists init l e more,
           Path.segments (WORKSPACE_ROOT Sample.platform) = init ++ [l]
           /\ Path.segments full = init ++ (l ++ e) :: more in
     (accepted
      /\ resolveSafe Sample.platform (JStr (js "../ws-private/key.txt")) = Ok full)
     \/ (~ accepted
         /\ resolveSafe Sample.platform (JStr (js "../ws-private/key.txt"))
            = Throw (Error (js "Path escapes workspace root"))).
Proof.
  split; [split; [reflexivity | not_empty]|].
  apply (resolveSafe_accepts_exactly Sample.platform eq_refl). not_empty.
Defined.

Lemma resolveSafe_accepts_inside_witness :
  (Path.isAbsolute (process_cwd Sample.platform) = true
   /\ js "src/a.js" <> []
   /\ inside_root (WORKSPACE_ROOT Sample.platform)
                  (Path.resolve (process_cwd Sample.platform)
                                [WORKSPACE_ROOT Sample.platform; js "src/a.js"]) = true)
  /\ resolveSafe Sample.platform (JStr (js "src/a.js"))
     = Ok (Path.resolve (process_cwd Sample.platform)
                        [WORKSPACE_ROOT Sample.platform; js "src/a.js"]).
Proof.
  split; [split; [reflexivity | split; [not_empty | evaluated]]|].
  apply (resolveSafe_accepts_inside Sample.platform eq_refl); [not_empty | evaluated].
Defined.

Lemma resolveSafe_refuses_shallower_witness :
  (Path.isAbsolute (process_cwd Sample.platform) = true
   /\ js ".." <> []
   /\ (length (Path.segments (Path.resolve (process_cwd Sample.platform)
                                           [WORKSPACE_ROOT Sample.platform; js ".."]))
       < length (Path.segments (WORKSPACE_ROOT Sample.platform)))%nat)
  /\ resolveSafe Sample.platform (JStr (js ".."))
     = Throw (Error (js "Path escapes workspace root")).
Proof.
  split; [split; [reflexivity | split; [not_empty | vm_compute; lia]]|].
  apply (resolveSafe_refuses_shallower Sample.platform eq_refl);
    [not_empty | vm_compute; lia].
Defined.

Lemma resolveSafe_plain_names_witness :
  (Path.isAbsolute (process_cwd Sample.platform) = true
   /\ [js "src"; js "a.js"] <> []
   /\ Forall plain_segment [js "src"; js "a.js"])
  /\ exists full,
      resolveSafe Sample.platform (JStr (JsString.join [Path.slash] [js "src"; js "a.js"]))
      = Ok full
      /\ Path.segments full = Path.segments (WORKSPACE_ROOT Sample.platform)
                              ++ [js "src"; js "a.js"]
      /\ inside_root (WORKSPACE_ROOT Sample.platform) full = true.
Proof.
  assert (Forall plain_segment [js "src"; js "a.js"]) as Hplain.
  { repeat constructor; try not_empty;
      refine (bool_decide_unpack _ _); vm_compute; exact I. }
  split; [split; [reflexivity | split; [discriminate | exact Hplain]]|].
  apply (resolveSafe_plain_names Sample.platform eq_refl); [discriminate | exact Hplain].
Defined.

Lemma applyUnifiedPatch_writes_its_preview_witness :
  (resolveSafe Sample.platform (JStr (js "notes.txt")) = Ok (js "/ws/notes.txt")
   /\ is_directory Sample.disk (js "/ws/notes.txt") = false
   /\ applyPatch Sample.platform (current_text Sample.disk (js "/ws/notes.txt"))
                 Scenario.notes_patch = Ok (Some (js "bye"))
   /\ truthy JUndefined = false
   /\ truthy (JBool true) = true)
  /\ applyUnifiedPatch Sample.platform (JStr (js "notes.txt")) Scenario.notes_patch
                       JUndefined Sample.disk
     = (Ok (PatchDryRun true (Some (js "bye"))), Sample.disk)
  /\ match applyUnifiedPatch Sample.platform (JStr (js "notes.txt")) Scenario.notes_patch
                             (JBool true) Sample.disk with
     | (Ok out, w') =>
       out = PatchApplied
       /\ writes (effects w') = writes (effects Sample.disk) ++ [(js "/ws/notes.txt", js "bye")]
       /\ file_text w' (js "/ws/notes.txt") = Some (toWellFormed (js "bye"))
       /\ forall q, q <> js "/ws/notes.txt" -> file_text w' q = file_text Sample.disk q
     | (Throw _, w') =>
       writes (effects w') = writes (effects Sample.disk)
       /\ forall q, file_text w' q = file_text Sample.disk q
     end.
Proof.
  destruct (applyUnifiedPatch_writes_its_preview Sample.platform (JStr (js "notes.txt"))
              Scenario.notes_patch Sample.disk (js "/ws/notes.txt") (js "bye"))
    as [Hdry Happrove]; [evaluated..|].
  split.
  { split; [evaluated|]. split; [evaluated|]. split; [evaluated|].
    split; reflexivity. }
  split; [apply (Hdry JUndefined); reflexivity | apply (Happrove (JBool true)); reflexivity].
Defined.

Lemma readFile_snapshot_facts_witness :
  (resolveSafe Sample.platform (JStr (js "notes.txt")) = Ok (js "/ws/notes.txt")
   /\ Fs.lookup (files Sample.disk) (js "/ws/notes.txt")
      = Some (File (current_text Sample.disk (js "/ws/notes.txt"))))
  /\ exists s,
      readFile Sample.platform (JStr (js "notes.txt")) (Some 4%Z) Sample.disk
      = (Ok s, Sample.disk)
      /\ totalBytes s = byteLength (current_text Sample.disk (js "/ws/notes.txt"))
      /\ (exists rest, current_text Sample.disk (js "/ws/notes.txt") = content s ++ rest)
      /\ (truncated s = false -> content s = current_text Sample.disk (js "/ws/notes.txt"))
      /\ (truncated s = true
          <-> (byteLength (current_text Sample.disk (js "/ws/notes.txt"))
               > effective_maxBytes (Some 4%Z))%Z).
Proof.
  split; [split; evaluated|].
  apply (readFile_snapshot_facts Sample.platform (JStr (js "notes.txt")) (Some 4%Z)
           Sample.disk (js "/ws/notes.txt")); evaluated.
Defined.

Lemma readFile_limit_edges_witness :
  ((-1 < 0)%Z
   /\ resolveSafe Sample.platform (JStr (js "notes.txt")) = Ok (js "/ws/notes.txt")
   /\ Fs.lookup (files Sample.disk) (js "/ws/notes.txt")
      = Some (File (current_text Sample.disk (js "/ws/notes.txt"))))
  /\ readFile Sample.platform (JStr (js "notes.txt")) (Some 0%Z) Sample.disk
     = readFile Sample.platform (JStr (js "notes.txt")) None Sample.disk
  /\ readFile Sample.platform (JStr (js "notes.txt")) (Some (-1)%Z) Sample.disk
     = (Ok (mkSnapshot true
              (take (length (current_text Sample.disk (js "/ws/notes.txt"))
                     - Z.to_nat (- -1))
                    (current_text Sample.disk (js "/ws/notes.txt")))
              (byteLength (current_text Sample.disk (js "/ws/notes.txt")))),
        Sample.disk).
Proof.
  destruct (readFile_limit_edges Sample.platform (JStr (js "notes.txt")) Sample.disk)
    as [Hzero Hneg].
  split; [split; [lia | split; evaluated]|].
  split; [exact Hzero|].
  apply (Hneg (-1)%Z (js "/ws/notes.txt")); [lia | evaluated | evaluated].
Defined.

Lemma writeFile_then_readFile_witness :
  (truthy (JBool true) = true
   /\ writeFile Sample.platform (JStr (js "notes.txt")) (js "bye") (JBool true) Sample.disk
      = (Ok (WriteApplied (byteLength (js "bye"))), Scenario.after_write))
  /\ exists s,
      readFile Sample.platform (JStr (js "notes.txt")) None Scenario.after_write
      = (Ok s, Scenario.after_write)
      /\ WriteApplied (byteLength (js "bye")) = WriteApplied (totalBytes s)
      /\ totalBytes s = byteLength (js "bye")
      /\ (truncated s = false -> content s = toWellFormed (js "bye"))
      /\ (truncated s = true <-> (byteLength (js "bye") > effective_maxBytes None)%Z).
Proof.
  split; [split; [reflexivity | evaluated]|].
  apply (writeFile_then_readFile Sample.platform (JStr (js "notes.txt")) (js "bye")
           (JBool true) None Sample.disk); [reflexivity | evaluated].
Defined.

Lemma listDir_entries_witness :
  exists r,
    fst (listDir Sample.platform JUndefined Sample.disk) = Ok r
    /\ r <> []
    /\ Forall (fun x => (entry_name x ∉ DEFAULT_IGNORES)
                        /\ (entry_type x = kind_dir <-> entry_size x = None)) r.
Proof.
  eexists. split; [evaluated|]. split; [discriminate|].
  apply (listDir_entries Sample.platform JUndefined Sample.disk). evaluated.
Defined.

Lemma grep_records_match_witness :
  exists r,
    (RegExp Sample.platform (JStr (js "hello")) (js "i") = Ok Scenario.hello_test
     /\ fst (grep Sample.platform (JStr (js "hello")) JUndefined None Sample.disk) = Ok r
     /\ r <> [])
    /\ Forall (fun m => Scenario.hello_test (match_text m) = true
                        /\ (1 <= match_line m)%Z) r.
Proof.
  eexists. split; [split; [reflexivity | split; [evaluated | discriminate]]|].
  apply (grep_records_match Sample.platform (JStr (js "hello")) JUndefined None Sample.disk);
    [reflexivity | evaluated].
Defined.

Lemma tools_400_changes_nothing_witness :
  status (fst (tools Sample.platform (mkToolsBody None ArgsAbsent) Sample.disk)) = 400%Z
  /\ snd (tools Sample.platform (mkToolsBody None ArgsAbsent) Sample.disk) = Sample.disk.
Proof.
  split; [evaluated|].
  apply (tools_400_changes_nothing Sample.platform). evaluated.
Defined.

Lemma tools_refused_path_witness :
  (resolveSafe Sample.platform (arg_path Scenario.escaping_args)
   = Throw (Error (js "Path escapes workspace root"))
   /\ truthy (arg_path Scenario.escaping_args) = true
   /\ arg_content Scenario.escaping_args = JStr (js "x")
   /\ resolveSafe Sample.platform (arg_cwd Scenario.escaping_args)
      = Throw (Error (js "Path escapes workspace root"))
   /\ truthy (arg_pattern Scenario.escaping_args) = true)
  /\ tools Sample.platform
           (mkToolsBody (Some (js "list_dir")) (ArgsObject Scenario.escaping_args))
           Sample.disk
     = (failure 500 (js "Path escapes workspace root"), Sample.disk)
  /\ tools Sample.platform
           (mkToolsBody (Some (js "write_file")) (ArgsObject Scenario.escaping_args))
           Sample.disk
     = (failure 500 (js "Path escapes workspace root"), Sample.disk)
  /\ tools Sample.platform
           (mkToolsBody (Some (js "grep")) (ArgsObject Scenario.escaping_args))
           Sample.disk
     = (failure 500 (js "Path escapes workspace root"), Sample.disk).
Proof.
  destruct (tools_refused_path Sample.platform Scenario.escaping_args Sample.disk)
    as [Hpath Hcwd].
  assert (resolveSafe Sample.platform (arg_path Scenario.escaping_args)
          = Throw (Error (js "Path escapes workspace root"))) as H1
      by (vm_compute; reflexivity).
  assert (resolveSafe Sample.platform (arg_cwd Scenario.escaping_args)
          = Throw (Error (js "Path escapes workspace root"))) as H2
      by (vm_compute; reflexivity).
  split.
  { split; [exact H1|]. split; [reflexivity|]. split; [reflexivity|].
    split; [exact H2 | reflexivity]. }
  destruct (Hpath H1) as (Hlist & _ & Hwrite & _).
  split; [exact Hlist|].
  split; [exact (Hwrite (js "x") eq_refl eq_refl)|].
  exact (proj2 (Hcwd H2) eq_refl).
Defined.

Lemma chat_stream_always_closes_once_witness :
  body_messages Scenario.ask = Some Sample.question
  /\ exists texts closing,
      chat_stream Sample.platform Scenario.ask
      = [SseInit; BackendCreate (chat_request Scenario.ask Sample.question)]
        ++ List.map token texts ++ [closing; ResEnd]
      /\ Forall (fun t => t <> []) texts
      /\ (closing = done_ (concat texts) \/ exists e, closing = error_event e).
Proof.
  split; [reflexivity|].
  apply (chat_stream_always_closes_once Sample.platform). reflexivity.
Defined.

Lemma chat_stream_stops_at_finish_witness :
  (body_messages Scenario.ask = Some Sample.question
   /\ completions_create Scenario.talkative (chat_request Scenario.ask Sample.question)
      = Stream (List.map Part Sample.greeting_parts
                ++ Part Sample.finish_part
                :: [Part (Sample.text_part "never sent"); StreamThrows (Error (js "late"))])
   /\ Forall (fun p => finishes p = false) Sample.greeting_parts
   /\ finishes Sample.finish_part = true)
  /\ chat_stream Scenario.talkative Scenario.ask
     = [SseInit; BackendCreate (chat_request Scenario.ask Sample.question)]
       ++ List.map token (omap content_of (Sample.greeting_parts ++ [Sample.finish_part]))
       ++ [done_ (concat (omap content_of (Sample.greeting_parts ++ [Sample.finish_part])));
           ResEnd].
Proof.
  assert (Forall (fun p => finishes p = false) Sample.greeting_parts) as Hparts
      by (repeat constructor).
  split; [split; [reflexivity | split; [reflexivity | split; [exact Hparts | reflexivity]]]|].
  apply (chat_stream_stops_at_finish Scenario.talkative Scenario.ask Sample.question
           Sample.greeting_parts Sample.finish_part
           [Part (Sample.text_part "never sent"); StreamThrows (Error (js "late"))]);
    [reflexivity | reflexivity | exact Hparts | reflexivity].
Defined.

Lemma chat_stream_with_prompt_opens_with_system_witness :
  BackendCreate (mkRequest (js "gpt-4o-mini") (Qmake 1 10) true
                           (Some (Qmake 1 2, Qmake 1 5)) Sample.own_system)
  ∈ chat_stream_with_prompt Sample.platform
      (mkChatBody (Some Sample.own_system) None None) Sample.disk
  /\ opens_with_system Sample.own_system = true.
Proof.
  assert (BackendCreate (mkRequest (js "gpt-4o-mini") (Qmake 1 10) true
                                   (Some (Qmake 1 2, Qmake 1 5)) Sample.own_system)
          ∈ chat_stream_with_prompt Sample.platform
              (mkChatBody (Some Sample.own_system) None None) Sample.disk) as Hin.
  { assert (chat_stream_with_prompt Sample.platform
              (mkChatBody (Some Sample.own_system) None None) Sample.disk
            = [SseInit;
               BackendCreate (mkRequest (js "gpt-4o-mini") (Qmake 1 10) true
                                        (Some (Qmake 1 2, Qmake 1 5)) Sample.own_system);
               token (js "Ol"); token (js "á, "); token (js "mundo");
               done_ (js "Olá, mundo"); ResEnd]) as -> by evaluated.
    apply list_elem_of_further, list_elem_of_here. }
  split; [exact Hin|].
  exact (proj2 (chat_stream_with_prompt_opens_with_system Sample.platform
                  (mkChatBody (Some Sample.own_system) None None) Sample.disk)
               _ Hin).
Defined.


Lemma streamChat_reads_chat_stream_witness :
  (body_messages Scenario.ask = Some Sample.question
   /\ Forall (codec_agrees SampleJson.codec)
             (payloads (chat_stream Sample.platform Scenario.ask))
   /\ concat Scenario.chunks
      = Wire.body_text SampleJson.codec (chat_stream Sample.platform Scenario.ask))
  /\ Client.streamChat SampleJson.codec (Some Scenario.chunks)
     = (tokens_sent (chat_stream Sample.platform Scenario.ask),
        error_sent (chat_stream Sample.platform Scenario.ask)).
Proof.
  assert (Forall (codec_agrees SampleJson.codec)
                 (payloads (chat_stream Sample.platform Scenario.ask))) as Hcodec.
  { assert (payloads (chat_stream Sample.platform Scenario.ask)
            = [payload_content (js "Ol"); payload_content (js "á, ");
               payload_content (js "mundo"); payload_message (js "Olá, mundo")])
      as -> by evaluated.
    repeat constructor; try evaluated;
      refine (bool_decide_unpack _ _); vm_compute; exact I. }
  split; [split; [reflexivity | split; [exact Hcodec | evaluated]]|].
  apply (streamChat_reads_chat_stream Sample.platform SampleJson.codec Scenario.ask
           Sample.question Scenario.chunks); [reflexivity | exact Hcodec | evaluated].
Defined.

Lemma streamChat_reads_refusal_as_empty_witness :
  (body_messages Scenario.refused = None
   /\ (10 ∉ JSON_stringify SampleJson.codec (payload_error (js "messages must be an array")))
   /\ concat Scenario.refusal_chunks
      = Wire.body_text SampleJson.codec (chat_stream Sample.platform Scenario.refused))
  /\ Client.streamChat SampleJson.codec (Some Scenario.refusal_chunks) = ([], None).
Proof.
  assert (10 ∉ JSON_stringify SampleJson.codec
                 (payload_error (js "messages must be an array"))) as Hline
      by (refine (bool_decide_unpack _ _); vm_compute; exact I).
  split; [split; [reflexivity | split; [exact Hline | evaluated]]|].
  apply (streamChat_reads_refusal_as_empty Sample.platform SampleJson.codec
           Scenario.refused Scenario.refusal_chunks);
    [reflexivity | exact Hline | evaluated].
Defined.

